(** * iota.go: work scores, the Stardust state-transition validators and the
    transaction builder

    A shallow embedding of
    - [WorkScore] arithmetic and [WorkScoreStructure.MaxBlockWork],
    - the Stardust virtual machine ([NewVirtualMachine], [Execute]) and the
      account and foundry state-transition validation functions (STVF),
    - [TransactionBuilder.Build] and its unlock bookkeeping,
    together with the properties the specification states about them.

    Fixed-width Go integers are integers in [Z]; every operation that can
    leave the range of its type is written with its wrap-around. *)

From Stdlib Require Import ZArith List Bool Lia Sorted Permutation.
From stdpp Require Import base option countable strings pretty gmap list.
Import ListNotations.

Local Open Scope Z_scope.

(** ** Machine integers *)

Definition uint16 (z : Z) : Z := z mod 2 ^ 16.
Definition uint32 (z : Z) : Z := z mod 2 ^ 32.
Definition uint64 (z : Z) : Z := z mod 2 ^ 64.

Definition MaxUint32 : Z := 2 ^ 32 - 1.
Definition MaxUint64 : Z := 2 ^ 64 - 1.

Definition is_uint32 (z : Z) : Prop := 0 <= z <= MaxUint32.
Definition is_uint64 (z : Z) : Prop := 0 <= z <= MaxUint64.

(** ** Results of fallible functions *)

(** The sentinel errors the modelled functions wrap with [%w]. *)
Inductive Error : Type :=
| ErrIntegerOverflow
| ErrTransactionBuilder
| ErrInvalidAccountStateTransition
| ErrInvalidAccountGovernanceTransition
| ErrInvalidBlockIssuerTransition
| ErrInvalidFoundryStateTransition
| ErrInvalidFeatureTransition
| ErrOwningChainNotUnlocked (input : nat)
| ErrOther (code : Z).

#[global] Instance Error_eq_dec : EqDecision Error.
Proof. solve_decision. Defined.

(** What a call can end in: a value with a nil error, a non-nil error, or a
    run-time panic (nil dereference, failed type assertion, [Must...]). *)
Inductive result (A : Type) : Type :=
| Ok (a : A)
| Err (e : Error)
| Panic.
Arguments Ok {A} a.
Arguments Err {A} e.
Arguments Panic {A}.

Definition bind_result {A B : Type} (r : result A) (k : A -> result B) : result B :=
  match r with
  | Ok a => k a
  | Err e => Err e
  | Panic => Panic
  end.

Notation "'let*' x ':=' r 'in' k" := (bind_result r (fun x => k))
  (at level 10, x name, r at level 100, k at level 200).

(** A validator's [error] result; [Ok tt] is the nil error. *)
Abbreviation valid := (Ok tt).

(** ** Work scores (package iotago) *)

Module WorkScore.

(** [type WorkScore uint32] *)
Definition WorkScore : Type := Z.

(** safemath.SafeAdd at uint32: the wrapped sum is smaller than an operand
    exactly when the addition left the range. *)
Definition SafeAdd (x y : WorkScore) : result WorkScore :=
  let r := uint32 (x + y) in
  if r <? x then Err ErrIntegerOverflow else Ok r.

(** safemath.SafeMul at uint32: dividing the wrapped product by an operand
    gives back the other one exactly when the product fits. *)
Definition SafeMul (x y : WorkScore) : result WorkScore :=
  if (x =? 0) || (y =? 0) then Ok 0
  else
    let r := uint32 (x * y) in
    if r / y =? x then Ok r else Err ErrIntegerOverflow.

(** [func (w WorkScore) Add(in ...WorkScore) (WorkScore, error)] *)
Fixpoint Add (w : WorkScore) (ins : list WorkScore) : result WorkScore :=
  match ins with
  | [] => Ok w
  | workScore :: rest =>
      match SafeAdd w workScore with
      | Ok r => Add r rest
      | Err e => Err e
      | Panic => Panic
      end
  end.

(** The sum of a list of work scores, over the integers. *)
Fixpoint sum_scores (l : list Z) : Z :=
  match l with
  | [] => 0
  | x :: rest => x + sum_scores rest
  end.

(** [func (w WorkScore) Multiply(in int) (WorkScore, error)]; the conversion
    [WorkScore(in)] keeps the low 32 bits of [in]. *)
Definition Multiply (w : WorkScore) (in_ : Z) : result WorkScore :=
  match SafeMul w (uint32 in_) with
  | Ok r => Ok r
  | Err e => Err e
  | Panic => Panic
  end.

Record WorkScoreStructure : Type := {
  DataKibibyte : WorkScore;
  Block : WorkScore;
  MissingParent : WorkScore;
  Input : WorkScore;
  ContextInput : WorkScore;
  Output : WorkScore;
  NativeToken : WorkScore;
  Staking : WorkScore;
  BlockIssuer : WorkScore;
  Allotment : WorkScore;
  SignatureEd25519 : WorkScore;
  MinStrongParentsThreshold : Z
}.

(** The protocol constants [MaxBlockWork] reads; they are declared outside
    the sources covered here, so they are parameters. *)
Record Limits : Type := {
  MaxBlockSize : Z;
  MaxInputsCount : Z;
  MaxContextInputsCount : Z;
  MaxOutputsCount : Z;
  MaxNativeTokenCountPerOutput : Z;
  MaxAllotmentCount : Z
}.

(** [maxBlockWork += x] on [WorkScore]: plain uint32 addition. *)
Definition plus_assign (acc x : WorkScore) : WorkScore := uint32 (acc + x).

(** [func (w WorkScoreStructure) MaxBlockWork() (WorkScore, error)] *)
Definition MaxBlockWork (c : Limits) (w : WorkScoreStructure) : result WorkScore :=
  let maxBlockWork := 0 in
  let* dataFactorBytes := Multiply (DataKibibyte w) (MaxBlockSize c) in
  let maxBlockWork := plus_assign maxBlockWork (dataFactorBytes / 1024) in
  let maxBlockWork := plus_assign maxBlockWork (Block w) in
  let* missingParentsFactor := Multiply (MissingParent w) (MinStrongParentsThreshold w) in
  let maxBlockWork := plus_assign maxBlockWork missingParentsFactor in
  let* inputsFactor := Multiply (Input w) (MaxInputsCount c) in
  let maxBlockWork := plus_assign maxBlockWork inputsFactor in
  let* contextInputsFactor := Multiply (ContextInput w) (MaxContextInputsCount c) in
  let maxBlockWork := plus_assign maxBlockWork contextInputsFactor in
  let* outputsFactor := Multiply (Output w) (MaxOutputsCount c) in
  let maxBlockWork := plus_assign maxBlockWork outputsFactor in
  let* nativeTokensFactor :=
    Multiply (NativeToken w) (MaxNativeTokenCountPerOutput c * MaxOutputsCount c) in
  let maxBlockWork := plus_assign maxBlockWork nativeTokensFactor in
  let* stakingFactor := Multiply (Staking w) (MaxOutputsCount c) in
  let maxBlockWork := plus_assign maxBlockWork stakingFactor in
  let* blockIssuerFactor := Multiply (BlockIssuer w) (MaxOutputsCount c) in
  let maxBlockWork := plus_assign maxBlockWork blockIssuerFactor in
  let* allotmentsFactor := Multiply (Allotment w) (MaxAllotmentCount c) in
  let maxBlockWork := plus_assign maxBlockWork allotmentsFactor in
  let* signatureFactor := Multiply (SignatureEd25519 w) (1 + MaxInputsCount c) in
  let maxBlockWork := plus_assign maxBlockWork signatureFactor in
  Ok maxBlockWork.

(** The sum [MaxBlockWork] is meant to compute, over the integers. *)
Definition max_block_work_exact (c : Limits) (w : WorkScoreStructure) : Z :=
  DataKibibyte w * MaxBlockSize c / 1024
  + Block w
  + MissingParent w * MinStrongParentsThreshold w
  + Input w * MaxInputsCount c
  + ContextInput w * MaxContextInputsCount c
  + Output w * MaxOutputsCount c
  + NativeToken w * (MaxNativeTokenCountPerOutput c * MaxOutputsCount c)
  + Staking w * MaxOutputsCount c
  + BlockIssuer w * MaxOutputsCount c
  + Allotment w * MaxAllotmentCount c
  + SignatureEd25519 w * (1 + MaxInputsCount c).

(** A work score structure whose block and missing-parent terms add up to
    [2 ^ 32]; every other score is zero. *)
Definition overflowing_structure : WorkScoreStructure :=
  {| DataKibibyte := 0; Block := MaxUint32; MissingParent := 1; Input := 0;
     ContextInput := 0; Output := 0; NativeToken := 0; Staking := 0;
     BlockIssuer := 0; Allotment := 0; SignatureEd25519 := 0;
     MinStrongParentsThreshold := 1 |}.

End WorkScore.

(** ** Ledger objects (package iotago) *)

(** [SlotIndex], [Mana] and [BaseToken] are uint64; [BlockIssuanceCredits]
    is int64; identifiers are fixed-size byte arrays, held as the number
    their bytes spell. *)
Definition SlotIndex : Type := Z.
Definition Mana : Type := Z.
Definition BaseToken : Type := Z.
Definition BlockIssuanceCredits : Type := Z.
Definition AccountID : Type := Z.
Definition NFTID : Type := Z.
Definition FoundryID : Type := Z.
Definition DelegationID : Type := Z.
Definition OutputID : Type := Z.
Definition NativeTokenID : Type := Z.

(** [BlockIssuanceCredits.Negative] *)
Definition Negative (bic : BlockIssuanceCredits) : bool := bic <? 0.

(** [ChainID]: the interface the chain identifiers implement. *)
Inductive ChainID : Type :=
| ChainAccountID (id : AccountID)
| ChainFoundryID (id : FoundryID)
| ChainNFTID (id : NFTID)
| ChainDelegationID (id : DelegationID).

#[global] Instance ChainID_eq_dec : EqDecision ChainID.
Proof. solve_decision. Defined.

Definition ChainID_encode (c : ChainID) : Z * Z :=
  match c with
  | ChainAccountID id => (0, id)
  | ChainFoundryID id => (1, id)
  | ChainNFTID id => (2, id)
  | ChainDelegationID id => (3, id)
  end.

Definition ChainID_decode (p : Z * Z) : ChainID :=
  match p with
  | (0, id) => ChainAccountID id
  | (1, id) => ChainFoundryID id
  | (2, id) => ChainNFTID id
  | (_, id) => ChainDelegationID id
  end.

#[global] Instance ChainID_countable : Countable ChainID.
Proof.
  apply (inj_countable' ChainID_encode ChainID_decode).
  intros []; reflexivity.
Defined.

(** [AccountID.Matches]: [other] is an AccountID and equals this one. *)
Definition AccountID_Matches (a : AccountID) (other : ChainID) : bool :=
  match other with
  | ChainAccountID otherAccountID => a =? otherAccountID
  | _ => false
  end.

(** [Address]: the interface, as the sum of the address kinds. *)
Inductive Address : Type :=
| Ed25519Address (pubKeyHash : Z)
| AccountAddress (id : AccountID)
| NFTAddress (id : NFTID)
| RestrictedEd25519Address (pubKeyHash : Z) (capabilities : list Z)
| RestrictedAccountAddress (id : AccountID) (capabilities : list Z).

#[global] Instance Address_eq_dec : EqDecision Address.
Proof. solve_decision. Defined.

(** [Address.Equal]: same kind and same bytes. *)
Definition Address_Equal (a b : Address) : bool := bool_decide (a = b).

(** [addr.(iotago.ChainAddress)]: the address kinds with a [Chain] method. *)
Definition isChainAddress (a : Address) : bool :=
  match a with
  | AccountAddress _ | NFTAddress _ => true
  | _ => false
  end.

(** [AccountID.ToAddress] *)
Definition AccountID_ToAddress (a : AccountID) : Address := AccountAddress a.

Record NativeToken : Type := {
  TokenID : NativeTokenID;
  TokenAmount : Z
}.

#[global] Instance NativeToken_eq_dec : EqDecision NativeToken.
Proof. solve_decision. Defined.

(** [NativeTokens.Equal]: same length and pairwise equal, in order. *)
Definition NativeTokens_Equal (a b : list NativeToken) : bool := bool_decide (a = b).

(** [bytes.Equal] *)
Definition bytes_Equal (a b : list Z) : bool := bool_decide (a = b).

(** *** Features *)

Inductive FeatureType : Type :=
| FeatureSender
| FeatureIssuer
| FeatureMetadata
| FeatureTag
| FeatureBlockIssuer
| FeatureStaking.

Record BlockIssuerFeature : Type := {
  BlockIssuerKeys : list Z;
  ExpirySlot : SlotIndex
}.

Record StakingFeature : Type := {
  StakedAmount : BaseToken;
  FixedCost : Mana;
  StartEpoch : Z;
  EndEpoch : Z
}.

Inductive Feature : Type :=
| SenderFeature (a : Address)
| IssuerFeature (a : Address)
| MetadataFeature (data : list Z)
| TagFeature (tag : list Z)
| BlockIssuerFeat (f : BlockIssuerFeature)
| StakingFeat (f : StakingFeature).

#[global] Instance BlockIssuerFeature_eq_dec : EqDecision BlockIssuerFeature.
Proof. solve_decision. Defined.
#[global] Instance StakingFeature_eq_dec : EqDecision StakingFeature.
Proof. solve_decision. Defined.
#[global] Instance Feature_eq_dec : EqDecision Feature.
Proof. solve_decision. Defined.

(** [Feature.Equal] *)
Definition Feature_Equal (a b : Feature) : bool := bool_decide (a = b).

(** [FeatureSet], a [map[FeatureType]Feature] that holds under each type a
    feature of that type: one optional slot per feature type. *)
Record FeatureSet : Type := {
  Sender : option Address;
  Issuer : option Address;
  Metadata : option (list Z);
  Tag : option (list Z);
  BlockIssuer : option BlockIssuerFeature;
  Staking : option StakingFeature
}.

#[global] Instance FeatureSet_eq_dec : EqDecision FeatureSet.
Proof. solve_decision. Defined.

Definition no_features : FeatureSet :=
  {| Sender := None; Issuer := None; Metadata := None; Tag := None;
     BlockIssuer := None; Staking := None |}.

(** [f[featType]] *)
Definition FeatureSet_lookup (f : FeatureSet) (featType : FeatureType) : option Feature :=
  match featType with
  | FeatureSender => SenderFeature <$> Sender f
  | FeatureIssuer => IssuerFeature <$> Issuer f
  | FeatureMetadata => MetadataFeature <$> Metadata f
  | FeatureTag => TagFeature <$> Tag f
  | FeatureBlockIssuer => BlockIssuerFeat <$> BlockIssuer f
  | FeatureStaking => StakingFeat <$> Staking f
  end.

(** [Features.Equal] on the features of an output, which are unique by type
    and kept in type order. *)
Definition Features_Equal (a b : FeatureSet) : bool := bool_decide (a = b).

(** [FeatureUnchanged] *)
Definition FeatureUnchanged (featType : FeatureType) (inFeatSet outFeatSet : FeatureSet)
  : result unit :=
  match FeatureSet_lookup inFeatSet featType, FeatureSet_lookup outFeatSet featType with
  | None, Some _ => Err ErrInvalidFeatureTransition
  | Some _, None => Err ErrInvalidFeatureTransition
  | None, None => valid
  | Some in_, Some out =>
      if negb (Feature_Equal in_ out) then Err ErrInvalidFeatureTransition else valid
  end.

(** *** Unlock conditions *)

(** [UnlockConditionSet] of a basic or NFT output, one optional slot per
    condition type. *)
Record UnlockConditionSet : Type := {
  AddressCondition : option Address;
  TimelockCondition : option SlotIndex;
  ExpirationCondition : option (Address * SlotIndex);
  StorageDepositReturnCondition : option (Address * BaseToken)
}.

(** The unlock conditions of an account output. *)
Record AccountOutputUnlockConditions : Type := {
  StateControllerAddress : Address;
  GovernorAddressCondition : Address
}.

(** The unlock condition of a foundry output. *)
Record FoundryOutputUnlockConditions : Type := {
  ImmutableAccountAddress : Address
}.

(** *** Outputs *)

Module BasicOutput.
Record t : Type := {
  Amount : BaseToken;
  Mana : Mana;
  NativeTokens : list NativeToken;
  Conditions : UnlockConditionSet;
  Features : FeatureSet
}.
(** [BasicOutput.UnlockConditionSet] *)
Definition UnlockConditionSet (e : t) : UnlockConditionSet := Conditions e.
(** [BasicOutput.StoredMana] *)
Definition StoredMana (e : t) : Z := Mana e.
(** [BasicOutput.Deposit] *)
Definition Deposit (e : t) : BaseToken := Amount e.
End BasicOutput.

Module AccountOutput.
Record t : Type := {
  Amount : BaseToken;
  Mana : Mana;
  NativeTokens : list NativeToken;
  AccountID : AccountID;
  StateIndex : Z;
  StateMetadata : list Z;
  FoundryCounter : Z;
  Conditions : AccountOutputUnlockConditions;
  Features : FeatureSet;
  ImmutableFeatures : FeatureSet
}.
(** [AccountOutput.StateController] *)
Definition StateController (a : t) : Address := StateControllerAddress (Conditions a).
(** [AccountOutput.GovernorAddress] *)
Definition GovernorAddress (a : t) : Address := GovernorAddressCondition (Conditions a).
(** [AccountOutput.FeatureSet] *)
Definition FeatureSet (a : t) : FeatureSet := Features a.
End AccountOutput.

(** [SimpleTokenScheme]: the supply a foundry tracks. *)
Record TokenScheme : Type := {
  MintedTokens : Z;
  MeltedTokens : Z;
  MaximumSupply : Z
}.

Module FoundryOutput.
Record t : Type := {
  Amount : BaseToken;
  NativeTokens : list NativeToken;
  SerialNumber : Z;
  TokenScheme : TokenScheme;
  Conditions : FoundryOutputUnlockConditions;
  Features : FeatureSet;
  ImmutableFeatures : FeatureSet
}.
(** [FoundryOutput.Ident] *)
Definition Ident (f : t) : Address := ImmutableAccountAddress (Conditions f).
End FoundryOutput.

Module NFTOutput.
Record t : Type := {
  Amount : BaseToken;
  Mana : Mana;
  NativeTokens : list NativeToken;
  NFTID : NFTID;
  Conditions : UnlockConditionSet;
  Features : FeatureSet;
  ImmutableFeatures : FeatureSet
}.
(** [NFTOutput.UnlockConditionSet] *)
Definition UnlockConditionSet (n : t) : UnlockConditionSet := Conditions n.
(** [NFTOutput.StoredMana] *)
Definition StoredMana (n : t) : Z := Mana n.
End NFTOutput.

Module DelegationOutput.
Record t : Type := {
  Amount : BaseToken;
  DelegatedAmount : BaseToken;
  DelegationID : DelegationID;
  ValidatorAddress : Address;
  Conditions : UnlockConditionSet
}.
End DelegationOutput.

Inductive OutputType : Type :=
| OutputBasic
| OutputAccount
| OutputFoundry
| OutputNFT
| OutputDelegation.

(** [Output]: the interface, as the sum of the output kinds. *)
Inductive Output : Type :=
| Basic (o : BasicOutput.t)
| Account (o : AccountOutput.t)
| Foundry (o : FoundryOutput.t)
| NFT (o : NFTOutput.t)
| Delegation (o : DelegationOutput.t).

#[global] Instance OutputType_eq_dec : EqDecision OutputType.
Proof. solve_decision. Defined.

(** [Output.Type] *)
Definition Output_Type (o : Output) : OutputType :=
  match o with
  | Basic _ => OutputBasic
  | Account _ => OutputAccount
  | Foundry _ => OutputFoundry
  | NFT _ => OutputNFT
  | Delegation _ => OutputDelegation
  end.

(** [Output.StoredMana]; foundry and delegation outputs hold no mana. *)
Definition Output_StoredMana (o : Output) : Mana :=
  match o with
  | Basic b => BasicOutput.StoredMana b
  | Account a => AccountOutput.Mana a
  | Foundry _ => 0
  | NFT n => NFTOutput.StoredMana n
  | Delegation _ => 0
  end.

(** [Output.Deposit] *)
Definition Output_Deposit (o : Output) : BaseToken :=
  match o with
  | Basic b => BasicOutput.Amount b
  | Account a => AccountOutput.Amount a
  | Foundry f => FoundryOutput.Amount f
  | NFT n => NFTOutput.Amount n
  | Delegation d => DelegationOutput.Amount d
  end.

(** *** Transactions *)

Record Allotment : Type := {
  AllotmentAccountID : AccountID;
  AllotmentValue : Mana
}.

(** Modelled from the spec: [Allotments.Get], whose body is outside the
    sources covered here; allotments map an account to the mana burned into its
    credit, and an account without an allotment is allotted nothing. *)
Fixpoint Allotments_Get (a : list Allotment) (id : AccountID) : Mana :=
  match a with
  | [] => 0
  | allotment :: rest =>
      if AllotmentAccountID allotment =? id then AllotmentValue allotment
      else Allotments_Get rest id
  end.

Inductive Signature : Type :=
| Ed25519Signature (publicKey : Z) (signature : Z).

Inductive Unlock : Type :=
| SignatureUnlock (signature : Signature)
| ReferenceUnlock (reference : Z)
| AccountUnlock (reference : Z)
| NFTUnlock (reference : Z).

#[global] Instance Signature_eq_dec : EqDecision Signature.
Proof. solve_decision. Defined.
#[global] Instance Unlock_eq_dec : EqDecision Unlock.
Proof. solve_decision. Defined.

(** [TransactionEssence]; every input reference is a [UTXOInput], held as
    the [OutputID] it refers to. *)
Record TransactionEssence : Type := {
  NetworkID : Z;
  CreationTime : SlotIndex;
  ContextInputs : list Z;
  Inputs : list OutputID;
  InputsCommitment : list Z;
  Outputs : list Output;
  Allotments : list Allotment;
  Payload : option (list Z)
}.

Record Transaction : Type := {
  Essence : TransactionEssence;
  Unlocks : list Unlock
}.

(** *** Protocol parameters *)

(** [ManaDecayProvider]: the decay engine is outside the sources covered
    here; its two methods are the fields. *)
Module ManaDecayProvider.
Record t : Type := {
  StoredManaWithDecay : Mana -> SlotIndex -> SlotIndex -> Mana;
  PotentialManaWithDecay : BaseToken -> SlotIndex -> SlotIndex -> Mana
}.
End ManaDecayProvider.

Module ProtocolParameters.
Record t : Type := {
  Version : Z;
  TokenSupply : BaseToken;
  LivenessThreshold : SlotIndex;
  ManaDecayProvider : ManaDecayProvider.t
}.
End ProtocolParameters.

(** ** The virtual machine's parameters (package vm) *)

Module OutputWithCreationTime.
Record t : Type := {
  Output : Output;
  CreationTime : SlotIndex
}.
End OutputWithCreationTime.

Module ChainOutputWithCreationTime.
Record t : Type := {
  ChainID : ChainID;
  Output : Output;
  CreationTime : SlotIndex
}.
End ChainOutputWithCreationTime.

Module WorkingSet.
Record t : Type := {
  UnlockedIdents : list (Address * Z);
  Tx : Transaction;
  UTXOInputsWithCreationTime : list (OutputID * OutputWithCreationTime.t);
  InChains : gmap ChainID ChainOutputWithCreationTime.t;
  OutChains : gmap ChainID Output;
  BIC : gmap AccountID BlockIssuanceCredits;
  OutputsByType : OutputType -> list Output;
  InNativeTokens : gmap NativeTokenID Z;
  OutNativeTokens : gmap NativeTokenID Z
}.
End WorkingSet.

Module ExternalUnlockParameters.
Record t : Type := {
  ProtocolParameters : ProtocolParameters.t
}.
End ExternalUnlockParameters.

Module Params.
Record t : Type := {
  External : ExternalUnlockParameters.t;
  WorkingSet : WorkingSet.t
}.
End Params.

(** [vmParams.WorkingSet.Tx.Essence] *)
Definition essence_of (vmParams : Params.t) : TransactionEssence :=
  Essence (WorkingSet.Tx (Params.WorkingSet vmParams)).

(** [vmParams.External.ProtocolParameters] *)
Definition protocol_of (vmParams : Params.t) : ProtocolParameters.t :=
  ExternalUnlockParameters.ProtocolParameters (Params.External vmParams).

(** [NativeTokenSum.ValueOrBigInt0] *)
Definition ValueOrBigInt0 (sums : gmap NativeTokenID Z) (id : NativeTokenID) : Z :=
  default 0 (sums !! id).

(** Modelled from the spec: [vm.TotalManaIn], whose body is outside the
    sources covered here: the sum of the inputs' mana, decayed to the
    transaction's creation slot, plus the potential mana their amounts
    generated, in uint64. *)
Fixpoint TotalManaIn (manaDecayProvider : ManaDecayProvider.t) (txCreationTime : SlotIndex)
  (inputSet : list (OutputID * OutputWithCreationTime.t)) : Mana :=
  match inputSet with
  | [] => 0
  | (_, input) :: rest =>
      let stored :=
        ManaDecayProvider.StoredManaWithDecay manaDecayProvider
          (Output_StoredMana (OutputWithCreationTime.Output input))
          (OutputWithCreationTime.CreationTime input) txCreationTime in
      let potential :=
        ManaDecayProvider.PotentialManaWithDecay manaDecayProvider
          (Output_Deposit (OutputWithCreationTime.Output input))
          (OutputWithCreationTime.CreationTime input) txCreationTime in
      uint64 (uint64 (stored + potential) + TotalManaIn manaDecayProvider txCreationTime rest)
  end.

(** Modelled from the spec: [vm.TotalManaOut], whose body is outside the
    sources covered here: the sum of the outputs' mana plus the allotments, in
    uint64. *)
Definition TotalManaOut (outputs : list Output) (allotments : list Allotment) : Mana :=
  uint64 (fold_right (fun o acc => uint64 (Output_StoredMana o + acc)) 0 outputs
          + fold_right (fun a acc => uint64 (AllotmentValue a + acc)) 0 allotments).

Inductive ChainTransitionType : Type :=
| ChainTransitionTypeGenesis
| ChainTransitionTypeStateChange
| ChainTransitionTypeDestroy.

(** ** State-transition validation functions (package stardust) *)

Section STVF.

(** Methods whose bodies are outside the sources covered here. *)
Variable HasManalockCondition : UnlockConditionSet -> AccountID -> SlotIndex -> bool.
Variable FoundryOutput_ID : FoundryOutput.t -> result FoundryID.
Variable TokenScheme_StateTransition :
  TokenScheme -> ChainTransitionType -> option TokenScheme -> option Z -> option Z -> result unit.

(** [FoundryOutput.MustID]: [ID], panicking on an error. *)
Definition FoundryOutput_MustID (f : FoundryOutput.t) : result FoundryID :=
  match FoundryOutput_ID f with
  | Ok id => Ok id
  | _ => Panic
  end.

(** The type assertion of an output to an account output. *)
Definition as_AccountOutput (o : Output) : result AccountOutput.t :=
  match o with
  | Account a => Ok a
  | _ => Panic
  end.

(** The type assertion of an address to an account address, followed by
    [Chain] or [AccountID]. *)
Definition as_AccountAddress (a : Address) : result AccountID :=
  match a with
  | AccountAddress id => Ok id
  | _ => Panic
  end.

(** [func accountGovernanceSTVF(current, next) error] *)
Definition accountGovernanceSTVF (current next : AccountOutput.t) : result unit :=
  if negb (AccountOutput.Amount current =? AccountOutput.Amount next) then
    Err ErrInvalidAccountGovernanceTransition
  else if negb (NativeTokens_Equal (AccountOutput.NativeTokens current)
                  (AccountOutput.NativeTokens next)) then
    Err ErrInvalidAccountGovernanceTransition
  else if negb (AccountOutput.StateIndex current =? AccountOutput.StateIndex next) then
    Err ErrInvalidAccountGovernanceTransition
  else if negb (bytes_Equal (AccountOutput.StateMetadata current)
                  (AccountOutput.StateMetadata next)) then
    Err ErrInvalidAccountGovernanceTransition
  else if negb (AccountOutput.FoundryCounter current =? AccountOutput.FoundryCounter next) then
    Err ErrInvalidAccountGovernanceTransition
  else valid.

(** The loops over [OutputsByType[OutputBasic]] and [OutputsByType[OutputNFT]]
    of [accountBlockIssuerSTVF]: subtract the stored mana of every output
    that is mana-locked to the account. *)
Fixpoint subtract_locked_basic (accountID : AccountID) (until : SlotIndex)
  (outputs : list Output) (manaOut : Mana) : Mana :=
  match outputs with
  | [] => manaOut
  | Basic basicOutput :: rest =>
      if HasManalockCondition (BasicOutput.UnlockConditionSet basicOutput) accountID until
      then subtract_locked_basic accountID until rest
             (uint64 (manaOut - BasicOutput.StoredMana basicOutput))
      else subtract_locked_basic accountID until rest manaOut
  | _ :: rest => subtract_locked_basic accountID until rest manaOut
  end.

Fixpoint subtract_locked_nft (accountID : AccountID) (until : SlotIndex)
  (outputs : list Output) (manaOut : Mana) : Mana :=
  match outputs with
  | [] => manaOut
  | NFT nftOutput :: rest =>
      if HasManalockCondition (NFTOutput.UnlockConditionSet nftOutput) accountID until
      then subtract_locked_nft accountID until rest
             (uint64 (manaOut - NFTOutput.StoredMana nftOutput))
      else subtract_locked_nft accountID until rest manaOut
  | _ :: rest => subtract_locked_nft accountID until rest manaOut
  end.

(** The mana check that ends [accountBlockIssuerSTVF]. *)
Definition accountManaNotMoved (input : ChainOutputWithCreationTime.t)
  (current next : AccountOutput.t) (vmParams : Params.t) : result unit :=
  let txSlotIndex := CreationTime (essence_of vmParams) in
  let livenessThreshold := ProtocolParameters.LivenessThreshold (protocol_of vmParams) in
  let manaDecayProvider := ProtocolParameters.ManaDecayProvider (protocol_of vmParams) in
  let manaIn :=
    TotalManaIn manaDecayProvider (CreationTime (essence_of vmParams))
      (WorkingSet.UTXOInputsWithCreationTime (Params.WorkingSet vmParams)) in
  let manaOut :=
    TotalManaOut (Outputs (essence_of vmParams)) (Allotments (essence_of vmParams)) in
  let manaIn :=
    uint64 (manaIn - ManaDecayProvider.StoredManaWithDecay manaDecayProvider
                       (AccountOutput.Mana current)
                       (ChainOutputWithCreationTime.CreationTime input)
                       (CreationTime (essence_of vmParams))) in
  let manaIn :=
    uint64 (manaIn - ManaDecayProvider.PotentialManaWithDecay manaDecayProvider
                       (AccountOutput.Amount current)
                       (ChainOutputWithCreationTime.CreationTime input)
                       (CreationTime (essence_of vmParams))) in
  let manaOut := uint64 (manaOut - AccountOutput.Mana next) in
  let manaOut :=
    uint64 (manaOut - Allotments_Get (Allotments (essence_of vmParams))
                        (AccountOutput.AccountID current)) in
  let manaOut :=
    subtract_locked_basic (AccountOutput.AccountID current)
      (uint64 (txSlotIndex + livenessThreshold))
      (WorkingSet.OutputsByType (Params.WorkingSet vmParams) OutputBasic) manaOut in
  let manaOut :=
    subtract_locked_nft (AccountOutput.AccountID current)
      (uint64 (txSlotIndex + livenessThreshold))
      (WorkingSet.OutputsByType (Params.WorkingSet vmParams) OutputNFT) manaOut in
  if manaIn >? manaOut then Err ErrInvalidBlockIssuerTransition else valid.

(** The expiry checks of [accountBlockIssuerSTVF], from the read of
    [currentBIFeat.ExpirySlot] on; a nil [currentBIFeat] panics there. *)
Definition blockIssuerExpiryValid (currentBIFeat nextBIFeat : option BlockIssuerFeature)
  (vmParams : Params.t) : result unit :=
  let txSlotIndex := CreationTime (essence_of vmParams) in
  let livenessThreshold := ProtocolParameters.LivenessThreshold (protocol_of vmParams) in
  match currentBIFeat with
  | None => Panic
  | Some currentBIFeat =>
      if ExpirySlot currentBIFeat >=? txSlotIndex then
        match nextBIFeat with
        | None => Err ErrInvalidBlockIssuerTransition
        | Some nextBIFeat =>
            if negb (ExpirySlot nextBIFeat =? 0)
               && negb (ExpirySlot nextBIFeat =? ExpirySlot currentBIFeat)
               && (ExpirySlot nextBIFeat <? uint64 (txSlotIndex + livenessThreshold))
            then Err ErrInvalidBlockIssuerTransition
            else valid
        end
      else
        match nextBIFeat with
        | Some nextBIFeat =>
            if negb (ExpirySlot nextBIFeat =? 0)
               && (ExpirySlot nextBIFeat <? uint64 (txSlotIndex + livenessThreshold))
            then Err ErrInvalidBlockIssuerTransition
            else valid
        | None => valid
        end
  end.

(** [func accountBlockIssuerSTVF(input, next, vmParams) error] *)
Definition accountBlockIssuerSTVF (input : ChainOutputWithCreationTime.t)
  (next : AccountOutput.t) (vmParams : Params.t) : result unit :=
  let* current := as_AccountOutput (ChainOutputWithCreationTime.Output input) in
  let currentBIFeat := BlockIssuer (AccountOutput.FeatureSet current) in
  let nextBIFeat := BlockIssuer (AccountOutput.FeatureSet next) in
  match currentBIFeat, nextBIFeat with
  | None, None => valid
  | _, _ =>
      match WorkingSet.BIC (Params.WorkingSet vmParams) !! AccountOutput.AccountID current with
      | Some bic =>
          if Negative bic then Err ErrInvalidBlockIssuerTransition
          else
            let* _ := blockIssuerExpiryValid currentBIFeat nextBIFeat vmParams in
            accountManaNotMoved input current next vmParams
      | None => Err ErrInvalidBlockIssuerTransition
      end
  end.

(** The loop of [accountStateSTVF] that counts the new foundries of the
    account among the transaction's outputs. *)
Fixpoint countNewFoundries (inChains : gmap ChainID ChainOutputWithCreationTime.t)
  (next : AccountOutput.t) (outputs : list Output) (seenNewFoundriesOfAccount : Z)
  : result Z :=
  match outputs with
  | [] => Ok seenNewFoundriesOfAccount
  | Foundry foundryOutput :: rest =>
      let* id := FoundryOutput_MustID foundryOutput in
      match inChains !! ChainFoundryID id with
      | Some _ => countNewFoundries inChains next rest seenNewFoundriesOfAccount
      | None =>
          let* foundryAccountID := as_AccountAddress (FoundryOutput.Ident foundryOutput) in
          if negb (AccountID_Matches foundryAccountID
                     (ChainAccountID (AccountOutput.AccountID next)))
          then countNewFoundries inChains next rest seenNewFoundriesOfAccount
          else countNewFoundries inChains next rest (uint32 (seenNewFoundriesOfAccount + 1))
      end
  | _ :: rest => countNewFoundries inChains next rest seenNewFoundriesOfAccount
  end.

(** [func accountStateSTVF(input, next, vmParams) error] *)
Definition accountStateSTVF (input : ChainOutputWithCreationTime.t)
  (next : AccountOutput.t) (vmParams : Params.t) : result unit :=
  let* current := as_AccountOutput (ChainOutputWithCreationTime.Output input) in
  if negb (Address_Equal (AccountOutput.StateController current)
             (AccountOutput.StateController next)) then
    Err ErrInvalidAccountStateTransition
  else if negb (Address_Equal (AccountOutput.GovernorAddress current)
                  (AccountOutput.GovernorAddress next)) then
    Err ErrInvalidAccountStateTransition
  else if AccountOutput.FoundryCounter current >? AccountOutput.FoundryCounter next then
    Err ErrInvalidAccountStateTransition
  else if negb (uint32 (AccountOutput.StateIndex current + 1)
                =? AccountOutput.StateIndex next) then
    Err ErrInvalidAccountStateTransition
  else
    match FeatureUnchanged FeatureMetadata (AccountOutput.Features current)
            (AccountOutput.Features next) with
    | Err _ => Err ErrInvalidAccountStateTransition
    | Panic => Panic
    | Ok _ =>
        if AccountOutput.FoundryCounter current =? AccountOutput.FoundryCounter next then
          accountBlockIssuerSTVF input next vmParams
        else
          let* seenNewFoundriesOfAccount :=
            countNewFoundries (WorkingSet.InChains (Params.WorkingSet vmParams)) next
              (Outputs (essence_of vmParams)) 0 in
          let expectedNewFoundriesCount :=
            uint32 (AccountOutput.FoundryCounter next - AccountOutput.FoundryCounter current) in
          if negb (expectedNewFoundriesCount =? seenNewFoundriesOfAccount) then
            Err ErrInvalidAccountStateTransition
          else accountBlockIssuerSTVF input next vmParams
    end.

(** [func accountStateChangeValid(input, vmParams, next) error] *)
Definition accountStateChangeValid (input : ChainOutputWithCreationTime.t)
  (vmParams : Params.t) (next : AccountOutput.t) : result unit :=
  let* current := as_AccountOutput (ChainOutputWithCreationTime.Output input) in
  if negb (Features_Equal (AccountOutput.ImmutableFeatures current)
             (AccountOutput.ImmutableFeatures next)) then
    Err ErrInvalidAccountStateTransition
  else if AccountOutput.StateIndex current =? AccountOutput.StateIndex next then
    accountGovernanceSTVF current next
  else accountStateSTVF input next vmParams.

(** [func accountDestructionValid(input, vmParams) error] *)
Definition accountDestructionValid (input : ChainOutputWithCreationTime.t)
  (vmParams : Params.t) : result unit :=
  let* outputToDestroy := as_AccountOutput (ChainOutputWithCreationTime.Output input) in
  match BlockIssuer (AccountOutput.FeatureSet outputToDestroy) with
  | Some BIFeat =>
      if (ExpirySlot BIFeat =? 0) || (ExpirySlot BIFeat >=? CreationTime (essence_of vmParams))
      then Err ErrInvalidBlockIssuerTransition
      else
        match WorkingSet.BIC (Params.WorkingSet vmParams)
                !! AccountOutput.AccountID outputToDestroy with
        | Some bic =>
            if Negative bic then Err ErrInvalidBlockIssuerTransition else valid
        | None => Err ErrInvalidBlockIssuerTransition
        end
  | None => valid
  end.

(** The loop of [foundrySerialNumberValid] over the transaction's outputs;
    [valid] at the [break] and when the outputs are exhausted. *)
Fixpoint serialOrderValid (inChains : gmap ChainID ChainOutputWithCreationTime.t)
  (current : FoundryOutput.t) (thisFoundryID : FoundryID) (outputs : list Output)
  : result unit :=
  match outputs with
  | [] => valid
  | Foundry otherFoundryOutput :: rest =>
      if negb (Address_Equal (FoundryOutput.Ident otherFoundryOutput)
                 (FoundryOutput.Ident current))
      then serialOrderValid inChains current thisFoundryID rest
      else
        match FoundryOutput_ID otherFoundryOutput with
        | Err e => Err e
        | Panic => Panic
        | Ok otherFoundryID =>
            match inChains !! ChainFoundryID otherFoundryID with
            | Some _ => serialOrderValid inChains current thisFoundryID rest
            | None =>
                if otherFoundryID =? thisFoundryID then valid
                else if FoundryOutput.SerialNumber otherFoundryOutput
                        >=? FoundryOutput.SerialNumber current
                then Err ErrInvalidFoundryStateTransition
                else serialOrderValid inChains current thisFoundryID rest
            end
        end
  | _ :: rest => serialOrderValid inChains current thisFoundryID rest
  end.

(** [func foundrySerialNumberValid(current, vmParams, inAccount, outAccount,
    thisFoundryID) error] *)
Definition foundrySerialNumberValid (current : FoundryOutput.t) (vmParams : Params.t)
  (inAccount outAccount : AccountOutput.t) (thisFoundryID : FoundryID) : result unit :=
  let startSerial := AccountOutput.FoundryCounter inAccount in
  let endIncSerial := AccountOutput.FoundryCounter outAccount in
  if (startSerial >=? FoundryOutput.SerialNumber current)
     || (FoundryOutput.SerialNumber current >? endIncSerial)
  then Err ErrInvalidFoundryStateTransition
  else
    serialOrderValid (WorkingSet.InChains (Params.WorkingSet vmParams)) current
      thisFoundryID (Outputs (essence_of vmParams)).

(** [func foundryGenesisValid(current, vmParams, thisFoundryID, outSums) error] *)
Definition foundryGenesisValid (current : FoundryOutput.t) (vmParams : Params.t)
  (thisFoundryID : FoundryID) (outSums : gmap NativeTokenID Z) : result unit :=
  let* nativeTokenID := FoundryOutput_MustID current in
  let* _ :=
    TokenScheme_StateTransition (FoundryOutput.TokenScheme current)
      ChainTransitionTypeGenesis None None (Some (ValueOrBigInt0 outSums nativeTokenID)) in
  let* accountID := as_AccountAddress (FoundryOutput.Ident current) in
  match WorkingSet.InChains (Params.WorkingSet vmParams) !! ChainAccountID accountID with
  | None => Err ErrInvalidFoundryStateTransition
  | Some inAccount =>
      match WorkingSet.OutChains (Params.WorkingSet vmParams) !! ChainAccountID accountID with
      | None => Err ErrInvalidFoundryStateTransition
      | Some outAccount =>
          let* inAccountOutput :=
            as_AccountOutput (ChainOutputWithCreationTime.Output inAccount) in
          let* outAccountOutput := as_AccountOutput outAccount in
          foundrySerialNumberValid current vmParams inAccountOutput outAccountOutput
            thisFoundryID
      end
  end.

End STVF.

(** ** The virtual machine (package stardust) *)

(** [vm.ExecFunc]: a check over the parameters, which it may update. *)
Definition ExecFunc : Type := Params.t -> Params.t * result unit.

Record virtualMachine : Type := {
  execList : list ExecFunc
}.

(** Modelled from the spec: [vm.RunVMFuncs], whose body is outside the
    sources covered here: the checks run in list order against the working set,
    and the first one that returns a violation aborts the run with it. The
    first component counts the checks that were called. *)
Fixpoint RunVMFuncs (vmParams : Params.t) (execFuncs : list ExecFunc) : nat * result unit :=
  match execFuncs with
  | [] => (0%nat, valid)
  | execFunc :: rest =>
      match execFunc vmParams with
      | (vmParams', Ok _) =>
          let (n, r) := RunVMFuncs vmParams' rest in (S n, r)
      | (_, Err e) => (1%nat, Err e)
      | (_, Panic) => (1%nat, Panic)
      end
  end.

(** The parameters after the checks of [execFuncs] all passed, if they do. *)
Fixpoint passes (vmParams : Params.t) (execFuncs : list ExecFunc) : option Params.t :=
  match execFuncs with
  | [] => Some vmParams
  | execFunc :: rest =>
      match execFunc vmParams with
      | (vmParams', Ok _) => passes vmParams' rest
      | _ => None
      end
  end.

Section VirtualMachine.

(** The checks of package vm and the construction of the working set; their
    bodies are outside the sources covered here. *)
Variable ResolvedInputs : Type.
Variable NewVMParamsWorkingSet : Transaction -> ResolvedInputs -> result WorkingSet.t.
Variable ExecFuncTimelocks : ExecFunc.
Variable ExecFuncInputUnlocks : ExecFunc.
Variable ExecFuncSenderUnlocked : ExecFunc.
Variable ExecFuncBalancedDeposit : ExecFunc.
Variable ExecFuncBalancedNativeTokens : ExecFunc.
Variable ExecFuncChainTransitions : ExecFunc.
Variable ExecFuncBalancedMana : ExecFunc.

(** [func NewVirtualMachine() vm.VirtualMachine] *)
Definition NewVirtualMachine : virtualMachine :=
  {| execList :=
       [ ExecFuncTimelocks;
         ExecFuncInputUnlocks;
         ExecFuncSenderUnlocked;
         ExecFuncBalancedDeposit;
         ExecFuncBalancedNativeTokens;
         ExecFuncChainTransitions;
         ExecFuncBalancedMana ] |}.

(** [vmParams.WorkingSet = ws] *)
Definition with_WorkingSet (vmParams : Params.t) (ws : WorkingSet.t) : Params.t :=
  {| Params.External := Params.External vmParams; Params.WorkingSet := ws |}.

(** [func (stardustVM *virtualMachine) Execute(t, vmParams, inputs,
    overrideFuncs...) error], with the number of checks called. *)
Definition Execute (stardustVM : virtualMachine) (t : Transaction) (vmParams : Params.t)
  (inputs : ResolvedInputs) (overrideFuncs : list ExecFunc) : nat * result unit :=
  match NewVMParamsWorkingSet t inputs with
  | Err e => (0%nat, Err e)
  | Panic => (0%nat, Panic)
  | Ok ws =>
      let vmParams := with_WorkingSet vmParams ws in
      if (0 <? length overrideFuncs)%nat
      then RunVMFuncs vmParams overrideFuncs
      else RunVMFuncs vmParams (execList stardustVM)
  end.

End VirtualMachine.

(** ** The transaction builder (package builder) *)

Module TransactionBuilder.
Record t : Type := {
  occurredBuildErr : option Error;
  essence : TransactionEssence;
  inputs : gmap OutputID Output;
  inputOwner : gmap OutputID Address
}.
End TransactionBuilder.

(** [type TxInput struct]; [UnlockTarget] and [Input] are interfaces, nil
    ([None]) when the caller sets none. *)
Record TxInput : Type := {
  UnlockTarget : option Address;
  InputID : OutputID;
  Input : option Output
}.

(** [func NewTransactionBuilder(networkID) *TransactionBuilder] *)
Definition NewTransactionBuilder (networkID : Z) : TransactionBuilder.t :=
  {| TransactionBuilder.occurredBuildErr := None;
     TransactionBuilder.essence :=
       {| NetworkID := networkID; CreationTime := 0; ContextInputs := []; Inputs := [];
          InputsCommitment := repeat 0 32; Outputs := []; Allotments := [];
          Payload := None |};
     TransactionBuilder.inputs := ∅;
     TransactionBuilder.inputOwner := ∅ |}.

Definition with_Inputs (e : TransactionEssence) (ins : list OutputID) : TransactionEssence :=
  {| NetworkID := NetworkID e; CreationTime := CreationTime e;
     ContextInputs := ContextInputs e; Inputs := ins;
     InputsCommitment := InputsCommitment e; Outputs := Outputs e;
     Allotments := Allotments e; Payload := Payload e |}.

Definition with_InputsCommitment (e : TransactionEssence) (c : list Z) : TransactionEssence :=
  {| NetworkID := NetworkID e; CreationTime := CreationTime e;
     ContextInputs := ContextInputs e; Inputs := Inputs e;
     InputsCommitment := c; Outputs := Outputs e;
     Allotments := Allotments e; Payload := Payload e |}.

(** [m[k] = v] on a Go map of interface values, as the map of its non-nil
    values: the code only ever reads the value [m[k]], which is nil for a
    nil value stored under [k] just as for a missing [k]. *)
Definition map_assign {V : Type} (m : gmap OutputID V) (k : OutputID) (v : option V)
  : gmap OutputID V :=
  match v with
  | Some v => <[k := v]> m
  | None => delete k m
  end.

(** [func (b *TransactionBuilder) AddInput(input *TxInput) *TransactionBuilder] *)
Definition AddInput (b : TransactionBuilder.t) (input : TxInput) : TransactionBuilder.t :=
  {| TransactionBuilder.occurredBuildErr := TransactionBuilder.occurredBuildErr b;
     TransactionBuilder.essence :=
       with_Inputs (TransactionBuilder.essence b)
         (Inputs (TransactionBuilder.essence b) ++ [InputID input]);
     TransactionBuilder.inputs :=
       map_assign (TransactionBuilder.inputs b) (InputID input) (Input input);
     TransactionBuilder.inputOwner :=
       map_assign (TransactionBuilder.inputOwner b) (InputID input) (UnlockTarget input) |}.

(** The built-in [copy(dst, src)]: the first [min (len dst) (len src)]
    elements of [dst] become those of [src]. *)
Definition copy (dst src : list Z) : list Z :=
  let n := Nat.min (length dst) (length src) in
  take n src ++ drop n dst.

(** Modelled from the spec: [OutputIDs.OrderedSet], whose body is outside
    the sources covered here: the outputs the ids refer to, in the order of the ids
    (nil where the set has none). *)
Definition OrderedSet (outputIDs : list OutputID) (set : gmap OutputID Output)
  : list (option Output) :=
  map (fun outputID => set !! outputID) outputIDs.

(** Modelled from the spec: [Addressable] and [ToAddress] of the chain
    identifiers other than the account's, whose bodies are outside the
    sources covered here: the NFT identifier is addressable like the account
    identifier ([AccountID.Addressable], [AccountID.ToAddress]), the foundry
    and delegation identifiers are not. The result is the address of the
    chain a consumed output carries, if it is a chain output with an
    addressable identifier. *)
Definition addressable_chain (input : option Output) : option Address :=
  match input with
  | Some (Account a) => Some (AccountID_ToAddress (AccountOutput.AccountID a))
  | Some (NFT n) => Some (NFTAddress (NFTOutput.NFTID n))
  | _ => None
  end.

(** [func addReferentialUnlock(addr, unlocks, pos) iotago.Unlocks] *)
Definition addReferentialUnlock (addr : Address) (unlocks : list Unlock) (pos : nat)
  : list Unlock :=
  match addr with
  | AccountAddress _ => unlocks ++ [AccountUnlock (uint16 (Z.of_nat pos))]
  | NFTAddress _ => unlocks ++ [NFTUnlock (uint16 (Z.of_nat pos))]
  | _ => unlocks ++ [ReferenceUnlock (uint16 (Z.of_nat pos))]
  end.

(** [iotago.AddressSigner]: its [Sign] method. *)
Definition AddressSigner : Type := Address -> list Z -> result Signature.

Section Builder.

(** [Address.Key], the serialized address as a string, and the two
    serializing methods [Build] calls; their bodies are outside the sources
    covered here. *)
Variable Key : Address -> string.
Variable Commitment : list (option Output) -> result (list Z).
Variable SigningMessage : TransactionEssence -> result (list Z).

(** [func addChainAsUnlocked(input, posUnlocked, prevUnlocked)] *)
Definition addChainAsUnlocked (input : option Output) (posUnlocked : nat)
  (prevUnlocked : gmap string nat) : gmap string nat :=
  match addressable_chain input with
  | Some chainAddress => <[Key chainAddress := posUnlocked]> prevUnlocked
  | None => prevUnlocked
  end.

(** [inputs[i]]; an index out of range panics. *)
Definition index_inputs (inputs : list (option Output)) (i : nat) : result (option Output) :=
  match inputs !! i with
  | Some input => Ok input
  | None => Panic
  end.

(** The loop of [Build] over the essence's inputs, from input [i] on. An
    input without an owner has the nil address, whose [Key] panics. *)
Fixpoint assignUnlocks (signer : AddressSigner) (txEssenceData : list Z)
  (inputOwner : gmap OutputID Address) (inputs : list (option Output))
  (inputRefs : list OutputID) (i : nat) (unlockPos : gmap string nat)
  (unlocks : list Unlock) : result (list Unlock) :=
  match inputRefs with
  | [] => Ok unlocks
  | inputRef :: rest =>
      match inputOwner !! inputRef with
      | None => Panic
      | Some addr =>
          let addrKey := Key addr in
          match unlockPos !! addrKey with
          | None =>
              if isChainAddress addr then Err (ErrOwningChainNotUnlocked i)
              else
                let* signature := signer addr txEssenceData in
                let unlocks := unlocks ++ [SignatureUnlock signature] in
                let* input := index_inputs inputs i in
                let unlockPos := addChainAsUnlocked input i unlockPos in
                let unlockPos := <[addrKey := i]> unlockPos in
                assignUnlocks signer txEssenceData inputOwner inputs rest (S i)
                  unlockPos unlocks
          | Some pos =>
              let unlocks := addReferentialUnlock addr unlocks pos in
              let* input := index_inputs inputs i in
              let unlockPos := addChainAsUnlocked input i unlockPos in
              assignUnlocks signer txEssenceData inputOwner inputs rest (S i)
                unlockPos unlocks
          end
      end
  end.

(** [func (b *TransactionBuilder) Build(protoParams, signer)], returning the
    transaction or an error. *)
Definition Build (b : TransactionBuilder.t) (protoParams : option ProtocolParameters.t)
  (signer : option AddressSigner) : result Transaction :=
  match TransactionBuilder.occurredBuildErr b, protoParams, signer with
  | Some e, _, _ => Err e
  | None, None, _ => Err ErrTransactionBuilder
  | None, Some _, None => Err ErrTransactionBuilder
  | None, Some _, Some signer =>
      let inputIDs := Inputs (TransactionBuilder.essence b) in
      let inputs := OrderedSet inputIDs (TransactionBuilder.inputs b) in
      let* commitment := Commitment inputs in
      let essence :=
        with_InputsCommitment (TransactionBuilder.essence b)
          (copy (InputsCommitment (TransactionBuilder.essence b)) commitment) in
      let* txEssenceData := SigningMessage essence in
      let* unlocks :=
        assignUnlocks signer txEssenceData (TransactionBuilder.inputOwner b) inputs
          (Inputs essence) 0 ∅ [] in
      Ok {| Essence := essence; Unlocks := unlocks |}
  end.

End Builder.

(** ** Example objects *)

(** A decay provider for the examples: stored mana halves with every elapsed
    slot and every token generates one mana per elapsed slot; zero elapsed
    slots change nothing and generate nothing. *)
Definition example_decay : ManaDecayProvider.t :=
  {| ManaDecayProvider.StoredManaWithDecay :=
       fun mana created target => uint64 (mana / 2 ^ (target - created));
     ManaDecayProvider.PotentialManaWithDecay :=
       fun amount created target => uint64 (amount * (target - created)) |}.

Definition example_protocol : ProtocolParameters.t :=
  {| ProtocolParameters.Version := 3;
     ProtocolParameters.TokenSupply := 2779530283277761;
     ProtocolParameters.LivenessThreshold := 10;
     ProtocolParameters.ManaDecayProvider := example_decay |}.

(** A mana lock for the examples: the output is owned by the account's
    address and time-locked up to [slot] or longer. *)
Definition example_HasManalockCondition (c : UnlockConditionSet) (accountID : AccountID)
  (slot : SlotIndex) : bool :=
  match AddressCondition c, TimelockCondition c with
  | Some (AccountAddress id), Some until => (id =? accountID) && (slot <=? until)
  | _, _ => false
  end.

(** A foundry identifier for the examples: the account's identifier followed
    by the serial number. *)
Definition example_FoundryOutput_ID (f : FoundryOutput.t) : result FoundryID :=
  match FoundryOutput.Ident f with
  | AccountAddress id => Ok (id * 2 ^ 32 + uint32 (FoundryOutput.SerialNumber f))
  | _ => Err (ErrOther 1)
  end.

(** A token scheme for the examples that accepts every transition. *)
Definition example_StateTransition (s : TokenScheme) (t : ChainTransitionType)
  (next : option TokenScheme) (in_ out : option Z) : result unit := valid.

Definition example_working_set (tx : Transaction)
  (utxo : list (OutputID * OutputWithCreationTime.t))
  (inChains : gmap ChainID ChainOutputWithCreationTime.t) (outChains : gmap ChainID Output)
  (bic : gmap AccountID BlockIssuanceCredits) : WorkingSet.t :=
  {| WorkingSet.UnlockedIdents := [];
     WorkingSet.Tx := tx;
     WorkingSet.UTXOInputsWithCreationTime := utxo;
     WorkingSet.InChains := inChains;
     WorkingSet.OutChains := outChains;
     WorkingSet.BIC := bic;
     WorkingSet.OutputsByType :=
       fun ty => List.filter (fun o => bool_decide (Output_Type o = ty)) (Outputs (Essence tx));
     WorkingSet.InNativeTokens := ∅;
     WorkingSet.OutNativeTokens := ∅ |}.

Definition example_params (ws : WorkingSet.t) : Params.t :=
  {| Params.External := {| ExternalUnlockParameters.ProtocolParameters := example_protocol |};
     Params.WorkingSet := ws |}.

Definition example_essence (slot : SlotIndex) (ins : list OutputID) (outs : list Output)
  (allotments : list Allotment) : TransactionEssence :=
  {| NetworkID := 1; CreationTime := slot; ContextInputs := []; Inputs := ins;
     InputsCommitment := repeat 0 32; Outputs := outs; Allotments := allotments;
     Payload := None |}.

Definition example_tx (slot : SlotIndex) (ins : list OutputID) (outs : list Output)
  (allotments : list Allotment) : Transaction :=
  {| Essence := example_essence slot ins outs allotments; Unlocks := [] |}.

(** An account output for the examples: account 1, controlled by the
    Ed25519 address 7 and governed by the Ed25519 address 8. *)
Definition example_account (amount : BaseToken) (mana : Mana) (stateIndex foundryCounter : Z)
  (stateController : Address) (blockIssuer : option BlockIssuerFeature) : AccountOutput.t :=
  {| AccountOutput.Amount := amount;
     AccountOutput.Mana := mana;
     AccountOutput.NativeTokens := [];
     AccountOutput.AccountID := 1;
     AccountOutput.StateIndex := stateIndex;
     AccountOutput.StateMetadata := [];
     AccountOutput.FoundryCounter := foundryCounter;
     AccountOutput.Conditions :=
       {| StateControllerAddress := stateController;
          GovernorAddressCondition := Ed25519Address 8 |};
     AccountOutput.Features :=
       {| Sender := None; Issuer := None; Metadata := None; Tag := None;
          BlockIssuer := blockIssuer; Staking := None |};
     AccountOutput.ImmutableFeatures := no_features |}.

Definition example_input (a : AccountOutput.t) (created : SlotIndex)
  : ChainOutputWithCreationTime.t :=
  {| ChainOutputWithCreationTime.ChainID := ChainAccountID (AccountOutput.AccountID a);
     ChainOutputWithCreationTime.Output := Account a;
     ChainOutputWithCreationTime.CreationTime := created |}.

(** The parameters of a transaction created in [slot] that consumes the
    account [current], created in [created], and produces [outs]. *)
Definition example_transition (slot created : SlotIndex) (current : AccountOutput.t)
  (outs : list Output) (allotments : list Allotment)
  (bic : gmap AccountID BlockIssuanceCredits) : Params.t :=
  example_params
    (example_working_set (example_tx slot [100] outs allotments)
       [(100, {| OutputWithCreationTime.Output := Account current;
                 OutputWithCreationTime.CreationTime := created |})]
       {[ ChainAccountID (AccountOutput.AccountID current) := example_input current created ]}
       ∅ bic).

(** A block issuer feature with one key. *)
Definition example_issuer (expiry : SlotIndex) : BlockIssuerFeature :=
  {| BlockIssuerKeys := [42]; ExpirySlot := expiry |}.

(** [a] without its block issuer feature. *)
Definition remove_block_issuer (a : AccountOutput.t) : AccountOutput.t :=
  {| AccountOutput.Amount := AccountOutput.Amount a;
     AccountOutput.Mana := AccountOutput.Mana a;
     AccountOutput.NativeTokens := AccountOutput.NativeTokens a;
     AccountOutput.AccountID := AccountOutput.AccountID a;
     AccountOutput.StateIndex := AccountOutput.StateIndex a;
     AccountOutput.StateMetadata := AccountOutput.StateMetadata a;
     AccountOutput.FoundryCounter := AccountOutput.FoundryCounter a;
     AccountOutput.Conditions := AccountOutput.Conditions a;
     AccountOutput.Features :=
       {| Sender := Sender (AccountOutput.Features a);
          Issuer := Issuer (AccountOutput.Features a);
          Metadata := Metadata (AccountOutput.Features a);
          Tag := Tag (AccountOutput.Features a);
          BlockIssuer := None;
          Staking := Staking (AccountOutput.Features a) |};
     AccountOutput.ImmutableFeatures := AccountOutput.ImmutableFeatures a |}.

(** A foundry output of account 1 for the examples. *)
Definition example_foundry (serialNumber : Z) : FoundryOutput.t :=
  {| FoundryOutput.Amount := 10;
     FoundryOutput.NativeTokens := [];
     FoundryOutput.SerialNumber := serialNumber;
     FoundryOutput.TokenScheme :=
       {| MintedTokens := 0; MeltedTokens := 0; MaximumSupply := 1000 |};
     FoundryOutput.Conditions := {| ImmutableAccountAddress := AccountAddress 1 |};
     FoundryOutput.Features := no_features;
     FoundryOutput.ImmutableFeatures := no_features |}.

(** The parameters of a transaction created in slot 5 in which account 1
    goes from [inAccount] to [outAccount] and [outs] are the other outputs. *)
Definition example_foundry_transition (inAccount outAccount : AccountOutput.t)
  (outs : list Output) : Params.t :=
  example_params
    (example_working_set (example_tx 5 [100] (Account outAccount :: outs) [])
       [(100, {| OutputWithCreationTime.Output := Account inAccount;
                 OutputWithCreationTime.CreationTime := 2 |})]
       {[ ChainAccountID 1 := example_input inAccount 2 ]}
       {[ ChainAccountID 1 := Account outAccount ]}
       ∅).

(** Checks for the examples: one that passes and one that fails. *)
Definition example_pass : ExecFunc := fun vmParams => (vmParams, valid).
Definition example_fail (e : Error) : ExecFunc := fun vmParams => (vmParams, Err e).

(** A working set construction for the examples, without resolved inputs. *)
Definition example_NewVMParamsWorkingSet (t : Transaction) (inputs : unit)
  : result WorkingSet.t :=
  Ok (example_working_set t [] ∅ ∅ ∅).

(** Builder collaborators for the examples. The key of an address is the
    decimal spelling of its code under the enumeration of the addresses. *)
Definition Address_to_sum (a : Address) : Z + (Z + (Z + (Z * list Z + Z * list Z))) :=
  match a with
  | Ed25519Address h => inl h
  | AccountAddress id => inr (inl id)
  | NFTAddress id => inr (inr (inl id))
  | RestrictedEd25519Address h caps => inr (inr (inr (inl (h, caps))))
  | RestrictedAccountAddress id caps => inr (inr (inr (inr (id, caps))))
  end.

Definition Address_of_sum (s : Z + (Z + (Z + (Z * list Z + Z * list Z)))) : Address :=
  match s with
  | inl h => Ed25519Address h
  | inr (inl id) => AccountAddress id
  | inr (inr (inl id)) => NFTAddress id
  | inr (inr (inr (inl (h, caps)))) => RestrictedEd25519Address h caps
  | inr (inr (inr (inr (id, caps)))) => RestrictedAccountAddress id caps
  end.

#[global] Instance Address_countable : Countable Address.
Proof.
  apply (inj_countable' Address_to_sum Address_of_sum).
  intros []; reflexivity.
Defined.

Definition example_Key (a : Address) : string := pretty (encode a).

Definition example_Commitment (inputs : list (option Output)) : result (list Z) :=
  Ok (repeat (Z.of_nat (length inputs)) 32).

Definition example_SigningMessage (e : TransactionEssence) : result (list Z) :=
  Ok (InputsCommitment e ++ Inputs e).

(** A signer for the examples that holds the keys of the Ed25519 addresses. *)
Definition example_signer : AddressSigner :=
  fun addr msg =>
    match addr with
    | Ed25519Address h => Ok (Ed25519Signature h (Z.of_nat (length msg)))
    | _ => Err (ErrOther 2)
    end.

Definition example_basic (amount : BaseToken) (owner : Address) : Output :=
  Basic {| BasicOutput.Amount := amount; BasicOutput.Mana := 0;
           BasicOutput.NativeTokens := [];
           BasicOutput.Conditions :=
             {| AddressCondition := Some owner; TimelockCondition := None;
                ExpirationCondition := None; StorageDepositReturnCondition := None |};
           BasicOutput.Features := no_features |}.

(** A builder with two basic inputs owned by the Ed25519 address 7. *)
Definition example_builder_two_inputs : TransactionBuilder.t :=
  AddInput
    (AddInput (NewTransactionBuilder 1)
       {| UnlockTarget := Some (Ed25519Address 7); InputID := 100;
          Input := Some (example_basic 50 (Ed25519Address 7)) |})
    {| UnlockTarget := Some (Ed25519Address 7); InputID := 101;
       Input := Some (example_basic 60 (Ed25519Address 7)) |}.

(** A builder that consumes account 1, owned by the Ed25519 address 7, and
    then two basic outputs owned by the account's address. *)
Definition example_builder_account : TransactionBuilder.t :=
  AddInput
    (AddInput
       (AddInput (NewTransactionBuilder 1)
          {| UnlockTarget := Some (Ed25519Address 7); InputID := 100;
             Input :=
               Some (Account (example_account 100 10 3 0 (Ed25519Address 7) None)) |})
       {| UnlockTarget := Some (AccountAddress 1); InputID := 101;
          Input := Some (example_basic 50 (AccountAddress 1)) |})
    {| UnlockTarget := Some (AccountAddress 1); InputID := 102;
       Input := Some (example_basic 60 (AccountAddress 1)) |}.

(** A builder that consumes two outputs of account 1, both owned by the
    Ed25519 address 7, and then a basic output owned by the account's
    address. *)
Definition example_builder_account_twice : TransactionBuilder.t :=
  AddInput
    (AddInput
       (AddInput (NewTransactionBuilder 1)
          {| UnlockTarget := Some (Ed25519Address 7); InputID := 100;
             Input :=
               Some (Account (example_account 100 10 3 0 (Ed25519Address 7) None)) |})
       {| UnlockTarget := Some (Ed25519Address 7); InputID := 101;
          Input := Some (Account (example_account 200 10 4 0 (Ed25519Address 7) None)) |})
    {| UnlockTarget := Some (AccountAddress 1); InputID := 102;
       Input := Some (example_basic 60 (AccountAddress 1)) |}.

(** A builder whose first input is owned by the address of an account that
    no earlier input consumes. *)
Definition example_builder_locked_chain : TransactionBuilder.t :=
  AddInput (NewTransactionBuilder 1)
    {| UnlockTarget := Some (AccountAddress 1); InputID := 101;
       Input := Some (example_basic 50 (AccountAddress 1)) |}.

(** ** Specification predicates *)

(** Of the fields of an account output, at most the state controller, the
    governor and the mutable metadata feature differ between [current] and
    [next]. *)
Definition differs_only_in_governance (current next : AccountOutput.t) : Prop :=
  AccountOutput.Amount current = AccountOutput.Amount next
  /\ AccountOutput.Mana current = AccountOutput.Mana next
  /\ AccountOutput.NativeTokens current = AccountOutput.NativeTokens next
  /\ AccountOutput.AccountID current = AccountOutput.AccountID next
  /\ AccountOutput.StateIndex current = AccountOutput.StateIndex next
  /\ AccountOutput.StateMetadata current = AccountOutput.StateMetadata next
  /\ AccountOutput.FoundryCounter current = AccountOutput.FoundryCounter next
  /\ AccountOutput.ImmutableFeatures current = AccountOutput.ImmutableFeatures next
  /\ Sender (AccountOutput.Features current) = Sender (AccountOutput.Features next)
  /\ Issuer (AccountOutput.Features current) = Issuer (AccountOutput.Features next)
  /\ Tag (AccountOutput.Features current) = Tag (AccountOutput.Features next)
  /\ BlockIssuer (AccountOutput.Features current) = BlockIssuer (AccountOutput.Features next)
  /\ Staking (AccountOutput.Features current) = Staking (AccountOutput.Features next).

(** The fields a governance transition must leave unchanged. *)
Definition governance_frozen_fields_equal (current next : AccountOutput.t) : Prop :=
  AccountOutput.Amount current = AccountOutput.Amount next
  /\ AccountOutput.NativeTokens current = AccountOutput.NativeTokens next
  /\ AccountOutput.StateIndex current = AccountOutput.StateIndex next
  /\ AccountOutput.StateMetadata current = AccountOutput.StateMetadata next
  /\ AccountOutput.FoundryCounter current = AccountOutput.FoundryCounter next.

(** [other] is a new foundry of the account [current] is anchored to: it has
    the same account address, an identifier, and no input chain under it. *)
Definition new_foundry_of_same_account (FoundryOutput_ID : FoundryOutput.t -> result FoundryID)
  (inChains : gmap ChainID ChainOutputWithCreationTime.t)
  (current other : FoundryOutput.t) : Prop :=
  FoundryOutput.Ident other = FoundryOutput.Ident current
  /\ exists id, FoundryOutput_ID other = Ok id /\ inChains !! ChainFoundryID id = None.

(** The owners of the essence's inputs, in input order. *)
Definition input_owners (inputOwner : gmap OutputID Address) (inputRefs : list OutputID)
  : list (option Address) :=
  (fun inputRef => inputOwner !! inputRef) <$> inputRefs.

(** [p] is the first input before input [i] that [a] owns. *)
Definition first_owned_at (owners : list (option Address)) (a : Address) (p i : nat) : Prop :=
  (p < i)%nat
  /\ owners !! p = Some (Some a)
  /\ forall q, (q < p)%nat -> owners !! q <> Some (Some a).

(** [p] is the last input before input [i] that consumes the chain output
    whose address is [a]. *)
Definition last_marked_at (inputs : list (option Output)) (a : Address) (p i : nat) : Prop :=
  (p < i)%nat
  /\ (exists input, inputs !! p = Some input /\ addressable_chain input = Some a)
  /\ forall q input, (p < q < i)%nat -> inputs !! q = Some input ->
       addressable_chain input <> Some a.

(** The unlock [Build] owes input [i], owned by [a]: an account or NFT
    address gets the account or NFT unlock that refers to the last earlier
    input consuming that chain; any other address gets a signature unlock
    when no earlier input has this owner, and otherwise the reference unlock
    that refers to the first input with this owner. References are uint16. *)
Definition unlock_spec (signer : AddressSigner) (txEssenceData : list Z)
  (owners : list (option Address)) (inputs : list (option Output))
  (i : nat) (a : Address) (u : Unlock) : Prop :=
  match a with
  | AccountAddress _ =>
      exists p, last_marked_at inputs a p i /\ u = AccountUnlock (uint16 (Z.of_nat p))
  | NFTAddress _ =>
      exists p, last_marked_at inputs a p i /\ u = NFTUnlock (uint16 (Z.of_nat p))
  | _ =>
      ((forall q, (q < i)%nat -> owners !! q <> Some (Some a))
       /\ exists signature,
            signer a txEssenceData = Ok signature /\ u = SignatureUnlock signature)
      \/ (exists p, first_owned_at owners a p i
                    /\ u = ReferenceUnlock (uint16 (Z.of_nat p)))
  end.

(** What the map [unlockPos] holds when [Build] reaches input [i]. *)
Definition unlockPos_at (Key : Address -> string) (owners : list (option Address))
  (inputs : list (option Output)) (i : nat) (unlockPos : gmap string nat) : Prop :=
  forall a p,
    unlockPos !! Key a = Some p
    <-> if isChainAddress a then last_marked_at inputs a p i
        else first_owned_at owners a p i.

(** What lets the loop of [Build] get past input [k], owned by [a]: an
    earlier input consumes the chain of an account or NFT address; the
    signer signs for any other address that no earlier input has as its
    owner. *)
Definition unlockable (signer : AddressSigner) (txEssenceData : list Z)
  (owners : list (option Address)) (inputs : list (option Output)) (k : nat)
  (a : Address) : Prop :=
  if isChainAddress a then
    exists q input, (q < k)%nat /\ inputs !! q = Some input /\ addressable_chain input = Some a
  else
    (forall q, (q < k)%nat -> owners !! q <> Some (Some a)) ->
    exists signature, signer a txEssenceData = Ok signature.

(** * Further code of the repository *)

(** The errors of the functions below, as [ErrOther] codes. *)
Definition ErrInvalidIndexSize : Error := ErrOther 101.
Definition ErrInvalidTransactionIDLength : Error := ErrOther 102.
Definition ErrInvalidAccountIDLength : Error := ErrOther 103.
Definition ErrNonUniqueFeatures : Error := ErrOther 104.

(** A byte: the low eight bits. *)
Definition byte (z : Z) : Z := z mod 256.

Definition is_byte (z : Z) : Prop := 0 <= z < 256.

(** ** Little-endian integers (encoding/binary) *)

Module LittleEndian.

(** [binary.LittleEndian.PutUint32(b, v)]: the four low bytes of [v], least
    significant first, over the first four bytes of [b]; a shorter [b]
    panics. *)
Definition PutUint32 (b : list Z) (v : Z) : result (list Z) :=
  if (length b <? 4)%nat then Panic
  else
    Ok ([byte v; byte (v / 2 ^ 8); byte (v / 2 ^ 16); byte (v / 2 ^ 24)] ++ drop 4 b).

(** [binary.LittleEndian.Uint32(b)]: the number the first four bytes of [b]
    spell, least significant first; a shorter [b] panics. *)
Definition Uint32 (b : list Z) : result Z :=
  match b with
  | b0 :: b1 :: b2 :: b3 :: _ => Ok (b0 + b1 * 2 ^ 8 + b2 * 2 ^ 16 + b3 * 2 ^ 24)
  | _ => Panic
  end.

End LittleEndian.

(** ** Index types (the template of SlotIndex and EpochIndex) *)

Module Index.

(** [IndexLength], the byte size of a uint32. *)
Definition IndexLength : nat := 4.

(** [func IndexFromBytes(b []byte) (Index, int, error)] *)
Definition IndexFromBytes (b : list Z) : result (Z * Z) :=
  if (length b <? IndexLength)%nat then Err ErrInvalidIndexSize
  else
    let* v := LittleEndian.Uint32 b in
    Ok (v, Z.of_nat IndexLength).

(** [func (i Index) Bytes() ([]byte, error)] *)
Definition Bytes (i : Z) : result (list Z) :=
  let bytes := repeat 0 IndexLength in
  LittleEndian.PutUint32 bytes (uint32 i).

(** [func (i Index) MustBytes() []byte] *)
Definition MustBytes (i : Z) : result (list Z) :=
  match Bytes i with
  | Ok b => Ok b
  | _ => Panic
  end.

End Index.

(** ** Transaction identifiers *)

(** [bytes.Compare]: the lexicographic order of byte strings, as -1, 0
    or 1. *)
Fixpoint bytes_Compare (a b : list Z) : Z :=
  match a, b with
  | [], [] => 0
  | [], _ :: _ => -1
  | _ :: _, [] => 1
  | x :: a', y :: b' =>
      if x <? y then -1 else if y <? x then 1 else bytes_Compare a' b'
  end.

(** [sort.Slice(s, less)] for a [less] that is a strict total order on the
    elements: the elements in ascending order, here by insertion. Equal
    elements are identical, so the result does not depend on how the
    sorting algorithm treats them. *)
Section SortSlice.
Context {A : Type} (less : A -> A -> bool).

Fixpoint sort_insert (x : A) (l : list A) : list A :=
  match l with
  | [] => [x]
  | y :: rest => if less y x then y :: sort_insert x rest else x :: l
  end.

Fixpoint sort_Slice (l : list A) : list A :=
  match l with
  | [] => []
  | x :: rest => sort_insert x (sort_Slice rest)
  end.

End SortSlice.

Module TransactionID.

(** A transaction identifier is a 32 byte hash value together with a 4 byte
    slot index. *)
Definition IdentifierLength : nat := 32.
Definition SlotIndexLength : nat := 4.
Definition TransactionIDLength : nat := IdentifierLength + SlotIndexLength.

(** [type TransactionID [TransactionIDLength]byte] *)
Definition t : Type := list Z.

Definition EmptyTransactionID : t := repeat 0 TransactionIDLength.

(** [func NewTransactionID(slot SlotIndex, idBytes Identifier) TransactionID] *)
Definition NewTransactionID (slot : Z) (idBytes : list Z) : result t :=
  let t0 := repeat 0 TransactionIDLength in
  let t1 := copy t0 idBytes in
  let* tail := LittleEndian.PutUint32 (drop IdentifierLength t1) (uint32 slot) in
  Ok (take IdentifierLength t1 ++ tail).

(** [func TransactionIDFromBytes(b []byte) (TransactionID, int, error)] *)
Definition TransactionIDFromBytes (b : list Z) : result (t * Z) :=
  if (length b <? TransactionIDLength)%nat then Err ErrInvalidTransactionIDLength
  else Ok (take TransactionIDLength b, Z.of_nat TransactionIDLength).

(** [func (t TransactionID) Bytes() ([]byte, error)] *)
Definition Bytes (id : t) : result (list Z) := Ok id.

(** [func (t TransactionID) Empty() bool] *)
Definition Empty (id : t) : bool := bool_decide (id = EmptyTransactionID).

(** [func (t TransactionID) Slot() SlotIndex] *)
Definition Slot (id : t) : result Z := LittleEndian.Uint32 (drop IdentifierLength id).

(** [func (t TransactionID) Index() SlotIndex] *)
Definition Index (id : t) : result Z := Slot id.

(** [func (t TransactionID) Identifier() Identifier] *)
Definition Identifier (id : t) : list Z := take IdentifierLength id.

(** [func (t TransactionID) Compare(other TransactionID) int] *)
Definition Compare (id other : t) : Z := bytes_Compare id other.

(** The loop of [RemoveDupsAndSort] over the sorted slice. *)
Fixpoint removeDups (i : nat) (prev : t) (sorted : list t) (result : list t) : list t :=
  match sorted with
  | [] => result
  | id :: rest =>
      let result :=
        if (i =? 0)%nat || negb (bytes_Equal prev id) then result ++ [id] else result in
      removeDups (S i) id rest result
  end.

(** [func (ids TransactionIDs) RemoveDupsAndSort() TransactionIDs] *)
Definition RemoveDupsAndSort (ids : list t) : list t :=
  let sorted := sort_Slice (fun a b => bytes_Compare a b =? -1) ([] ++ ids) in
  removeDups 0 EmptyTransactionID sorted [].

End TransactionID.

(** ** Account identifiers as byte arrays *)

Module AccountIdentifier.

(** An account identifier is a 32 byte hash value. *)
Definition AccountIDLength : nat := 32.

(** [type AccountID [AccountIDLength]byte] *)
Definition t : Type := list Z.

Definition EmptyAccountID : t := repeat 0 AccountIDLength.

(** [func AccountIDFromBytes(bytes []byte) (AccountID, int, error)] *)
Definition AccountIDFromBytes (bytes : list Z) : result (t * Z) :=
  let a := repeat 0 AccountIDLength in
  if (length bytes <? AccountIDLength)%nat then Err ErrInvalidAccountIDLength
  else Ok (copy a bytes, Z.of_nat (length bytes)).

(** [func (a AccountID) Bytes() ([]byte, error)] *)
Definition Bytes (a : t) : result (list Z) := Ok a.

(** [func (a AccountID) Empty() bool] *)
Definition Empty (a : t) : bool := bool_decide (a = EmptyAccountID).

(** The chain identifiers [Matches] can be given: an account identifier or
    one of another kind. *)
Inductive ChainIdentifier : Type :=
| IsAccountID (id : t)
| IsOtherChainID (kind : Z) (id : list Z).

(** [func (a AccountID) Matches(other ChainID) bool] *)
Definition Matches (a : t) (other : ChainIdentifier) : bool :=
  match other with
  | IsAccountID otherAccountID => bool_decide (a = otherAccountID)
  | IsOtherChainID _ _ => false
  end.

(** [func (a AccountID) Addressable() bool] *)
Definition Addressable (a : t) : bool := true.

(** [func (a AccountID) ToAddress() ChainAddress]: the account address with
    the bytes of the identifier. *)
Definition ToAddress (a : t) : list Z := copy (repeat 0 AccountIDLength) a.

Section Aliases.

(** [hexutil.EncodeHex], whose body is outside the sources covered here.
    The registry [accountIDAliases] is a map from identifiers to aliases;
    the functions below take the registry and return the new one. *)
Variable EncodeHex : list Z -> string.

(** [func (a AccountID) ToHex() string] *)
Definition ToHex (a : t) : string := EncodeHex a.

(** [func (a AccountID) RegisterAlias(alias string)] *)
Definition RegisterAlias (aliases : gmap (list Z) string) (a : t) (alias : string)
  : gmap (list Z) string :=
  <[a := alias]> aliases.

(** [func (a AccountID) Alias() (alias string)] *)
Definition Alias (aliases : gmap (list Z) string) (a : t) : string :=
  match aliases !! a with
  | Some existingAlias => existingAlias
  | None => ToHex a
  end.

(** [func (a AccountID) UnregisterAlias()] *)
Definition UnregisterAlias (aliases : gmap (list Z) string) (a : t) : gmap (list Z) string :=
  delete a aliases.

(** [func UnregisterAccountIDAliases()] *)
Definition UnregisterAccountIDAliases (aliases : gmap (list Z) string)
  : gmap (list Z) string := ∅.

(** [func (a AccountID) String() string] *)
Definition String (aliases : gmap (list Z) string) (a : t) : string := Alias aliases a.

(** [func (a AccountID) Key() interface{}] *)
Definition Key (aliases : gmap (list Z) string) (a : t) : string := String aliases a.

End Aliases.

End AccountIdentifier.

(** ** Bech32: the checks on the case of a string (package bech32) *)

(** Strings are their bytes. [strings.ToLower] and [strings.ToUpper] are
    modelled on strings of US-ASCII bytes (below 128), where they map byte
    by byte and [range] visits every byte; the properties below are stated
    for such strings. *)
Module bech32.

Definition ToLower (s : list Z) : list Z :=
  map (fun c => if (65 <=? c) && (c <=? 90) then c + 32 else c) s.

Definition ToUpper (s : list Z) : list Z :=
  map (fun c => if (97 <=? c) && (c <=? 122) then c - 32 else c) s.

(** The loop of [firstUpper] and [firstLower] from index [i] on: the first
    index at which the converted string differs from [s], or -1. *)
Fixpoint first_difference (i : Z) (s converted : list Z) : Z :=
  match s, converted with
  | c :: s', c' :: converted' =>
      if negb (c' =? c) then i else first_difference (i + 1) s' converted'
  | _, _ => -1
  end.

(** [func firstUpper(s string) int] *)
Definition firstUpper (s : list Z) : Z := first_difference 0 s (ToLower s).

(** [func firstLower(s string) int] *)
Definition firstLower (s : list Z) : Z := first_difference 0 s (ToUpper s).

(** [func validateCase(s string) error]: nil, or the offset of the
    [SyntaxError] with [ErrMixedCase]. *)
Definition validateCase (s : list Z) : option Z :=
  let upper := firstUpper s in
  let lower := firstLower s in
  if (upper <? lower) && (upper >=? 0) then Some lower
  else if (lower <? upper) && (lower >=? 0) then Some upper
  else None.

End bech32.

(** ** Feature slices *)

(** [type Features[T Feature] []T], for any feature type [T]: the methods of
    the [Feature] interface the functions call are the section's
    variables. A [FeatureType] is a byte. *)
Module Features.
Section Generic.

Context {T : Type}.
(** [Feature.Type], [Feature.Equal] and [Feature.WorkScore]. *)
Variable Type_ : T -> Z.
Variable Equal_ : T -> T -> bool.
Variable WorkScore_ : T -> result Z.

(** The loop of [Set] with the map built so far. *)
Fixpoint Set_loop (f : list T) (set : gmap Z T) : result (gmap Z T) :=
  match f with
  | [] => Ok set
  | feat :: rest =>
      match set !! Type_ feat with
      | Some _ => Err ErrNonUniqueFeatures
      | None => Set_loop rest (<[Type_ feat := feat]> set)
      end
  end.

(** [func (f Features[T]) Set() (FeatureSet, error)] *)
Definition Set' (f : list T) : result (gmap Z T) := Set_loop f ∅.

(** [func (f Features[T]) MustSet() FeatureSet] *)
Definition MustSet (f : list T) : result (gmap Z T) :=
  match Set' f with
  | Ok set => Ok set
  | _ => Panic
  end.

(** The loop of [Equal] over two slices of the same length. *)
Fixpoint Equal_loop (f other : list T) : bool :=
  match f, other with
  | feat :: rest, o :: others => if negb (Equal_ feat o) then false else Equal_loop rest others
  | _, _ => true
  end.

(** [func (f Features[T]) Equal(other Features[T]) bool] *)
Definition Equal (f other : list T) : bool :=
  if negb (length f =? length other)%nat then false else Equal_loop f other.

(** [func (f *Features[T]) Upsert(feature T)]: the new slice. *)
Fixpoint Upsert (f : list T) (feature : T) : list T :=
  match f with
  | [] => [feature]
  | ele :: rest =>
      if Type_ ele =? Type_ feature then feature :: rest
      else ele :: Upsert rest feature
  end.

(** [func (f *Features[T]) Remove(featureType FeatureType) bool]: the new
    slice and the result. *)
Fixpoint Remove (f : list T) (featureType : Z) : list T * bool :=
  match f with
  | [] => ([], false)
  | ele :: rest =>
      if Type_ ele =? featureType then (rest, true)
      else let '(rest', removed) := Remove rest featureType in (ele :: rest', removed)
  end.

(** The loop of [WorkScore] with the sum so far. *)
Fixpoint WorkScore_loop (f : list T) (workScoreFeats : Z) : result Z :=
  match f with
  | [] => Ok workScoreFeats
  | feat :: rest =>
      let* workScoreFeat := WorkScore_ feat in
      let* workScoreFeats := WorkScore.Add workScoreFeats [workScoreFeat] in
      WorkScore_loop rest workScoreFeats
  end.

(** [func (f Features[T]) WorkScore(workScoreParameters) (WorkScore, error)] *)
Definition WorkScore (f : list T) : result Z := WorkScore_loop f 0.

(** [func (f Features[T]) Sort()]: [sort.Slice] by type. The result is
    determined for slices without repeated types, the ones [Set] accepts;
    [sort.Slice] is not stable. *)
Definition Sort (f : list T) : list T :=
  sort_Slice (fun a b => Type_ a <? Type_ b) f.

(** The first feature of a type in a slice. *)
Definition first_of_type (featureType : Z) (f : list T) : option T :=
  List.find (fun ele => Type_ ele =? featureType) f.

End Generic.
End Features.

(** ** The other calls of the transaction builder *)

Definition with_essence (b : TransactionBuilder.t) (e : TransactionEssence)
  : TransactionBuilder.t :=
  {| TransactionBuilder.occurredBuildErr := TransactionBuilder.occurredBuildErr b;
     TransactionBuilder.essence := e;
     TransactionBuilder.inputs := TransactionBuilder.inputs b;
     TransactionBuilder.inputOwner := TransactionBuilder.inputOwner b |}.

(** [func (b *TransactionBuilder) AddContextInput(input) *TransactionBuilder] *)
Definition AddContextInput (b : TransactionBuilder.t) (input : Z) : TransactionBuilder.t :=
  let e := TransactionBuilder.essence b in
  with_essence b
    {| NetworkID := NetworkID e; CreationTime := CreationTime e;
       ContextInputs := ContextInputs e ++ [input]; Inputs := Inputs e;
       InputsCommitment := InputsCommitment e; Outputs := Outputs e;
       Allotments := Allotments e; Payload := Payload e |}.

(** [func (b *TransactionBuilder) AddAllotment(allotment) *TransactionBuilder] *)
Definition AddAllotment (b : TransactionBuilder.t) (allotment : Allotment)
  : TransactionBuilder.t :=
  let e := TransactionBuilder.essence b in
  with_essence b
    {| NetworkID := NetworkID e; CreationTime := CreationTime e;
       ContextInputs := ContextInputs e; Inputs := Inputs e;
       InputsCommitment := InputsCommitment e; Outputs := Outputs e;
       Allotments := Allotments e ++ [allotment]; Payload := Payload e |}.

(** [func (b *TransactionBuilder) AddOutput(output) *TransactionBuilder] *)
Definition AddOutput (b : TransactionBuilder.t) (output : Output) : TransactionBuilder.t :=
  let e := TransactionBuilder.essence b in
  with_essence b
    {| NetworkID := NetworkID e; CreationTime := CreationTime e;
       ContextInputs := ContextInputs e; Inputs := Inputs e;
       InputsCommitment := InputsCommitment e; Outputs := Outputs e ++ [output];
       Allotments := Allotments e; Payload := Payload e |}.

(** [func (b *TransactionBuilder) SetCreationTime(creationTime) *TransactionBuilder] *)
Definition SetCreationTime (b : TransactionBuilder.t) (creationTime : SlotIndex)
  : TransactionBuilder.t :=
  let e := TransactionBuilder.essence b in
  with_essence b
    {| NetworkID := NetworkID e; CreationTime := creationTime;
       ContextInputs := ContextInputs e; Inputs := Inputs e;
       InputsCommitment := InputsCommitment e; Outputs := Outputs e;
       Allotments := Allotments e; Payload := Payload e |}.

(** [func (b *TransactionBuilder) AddTaggedDataPayload(payload) *TransactionBuilder] *)
Definition AddTaggedDataPayload (b : TransactionBuilder.t) (payload : list Z)
  : TransactionBuilder.t :=
  let e := TransactionBuilder.essence b in
  with_essence b
    {| NetworkID := NetworkID e; CreationTime := CreationTime e;
       ContextInputs := ContextInputs e; Inputs := Inputs e;
       InputsCommitment := InputsCommitment e; Outputs := Outputs e;
       Allotments := Allotments e; Payload := Some payload |}.

(** A call of one of the builder's methods, and a chain of calls on a new
    builder. *)
Inductive BuilderCall : Type :=
| CallAddInput (input : TxInput)
| CallAddContextInput (input : Z)
| CallAddAllotment (allotment : Allotment)
| CallAddOutput (output : Output)
| CallSetCreationTime (creationTime : SlotIndex)
| CallAddTaggedDataPayload (payload : list Z).

Definition call (b : TransactionBuilder.t) (c : BuilderCall) : TransactionBuilder.t :=
  match c with
  | CallAddInput input => AddInput b input
  | CallAddContextInput input => AddContextInput b input
  | CallAddAllotment allotment => AddAllotment b allotment
  | CallAddOutput output => AddOutput b output
  | CallSetCreationTime creationTime => SetCreationTime b creationTime
  | CallAddTaggedDataPayload payload => AddTaggedDataPayload b payload
  end.

Definition calls (networkID : Z) (cs : list BuilderCall) : TransactionBuilder.t :=
  fold_left call cs (NewTransactionBuilder networkID).

(** ** The account output builder (package builder) *)

Definition ErrImmutableFeaturesChanged : Error := ErrOther 111.

(** [Feature.Type], with the constants of [FeatureType]. *)
Definition Feature_Type (f : Feature) : Z :=
  match f with
  | SenderFeature _ => 0
  | IssuerFeature _ => 1
  | MetadataFeature _ => 2
  | TagFeature _ => 4
  | BlockIssuerFeat _ => 6
  | StakingFeat _ => 7
  end.

Module AccountOutputBuilder.
Section Builder.

(** The unlock conditions of the output and their methods, whose bodies
    are outside the sources covered here: the conditions with only an
    address condition, [Upsert] of an address condition, and [Sort]. *)
Context {UnlockConditions : Type}.
Variable NewAddressUnlockConditions : Address -> UnlockConditions.
Variable UnlockConditions_Upsert : UnlockConditions -> Address -> UnlockConditions.
Variable UnlockConditions_Sort : UnlockConditions -> UnlockConditions.

(** The account output the builder works on, with its features as the
    slices they are. *)
Record account_output : Type := {
  Amount : BaseToken;
  Mana : Z;
  AccountID : Z;
  FoundryCounter : Z;
  Conditions : UnlockConditions;
  Features : list Feature;
  ImmutableFeatures : list Feature
}.

(** [type AccountOutputBuilder struct] *)
Record t : Type := {
  prev : option account_output;
  output : account_output
}.

Definition with_output (builder : t) (o : account_output) : t :=
  {| prev := prev builder; output := o |}.

Definition with_Features (o : account_output) (f : list Feature) : account_output :=
  {| Amount := Amount o; Mana := Mana o; AccountID := AccountID o;
     FoundryCounter := FoundryCounter o; Conditions := Conditions o;
     Features := f; ImmutableFeatures := ImmutableFeatures o |}.

Definition with_ImmutableFeatures (o : account_output) (f : list Feature) : account_output :=
  {| Amount := Amount o; Mana := Mana o; AccountID := AccountID o;
     FoundryCounter := FoundryCounter o; Conditions := Conditions o;
     Features := Features o; ImmutableFeatures := f |}.

(** [func NewAccountOutputBuilder(targetAddr, amount) *AccountOutputBuilder] *)
Definition NewAccountOutputBuilder (targetAddr : Address) (amount : BaseToken) : t :=
  {| prev := None;
     output :=
       {| Amount := amount; Mana := 0; AccountID := 0; FoundryCounter := 0;
          Conditions := NewAddressUnlockConditions targetAddr;
          Features := []; ImmutableFeatures := [] |} |}.

(** [AccountOutput.Clone], whose body is outside the sources covered
    here. *)
Variable AccountOutput_Clone : account_output -> account_output.

(** [func NewAccountOutputBuilderFromPrevious(previous) *AccountOutputBuilder] *)
Definition NewAccountOutputBuilderFromPrevious (previous : account_output) : t :=
  {| prev := Some previous; output := AccountOutput_Clone previous |}.

(** [func (builder *AccountOutputBuilder) Amount(amount)] *)
Definition SetAmount (builder : t) (amount : BaseToken) : t :=
  let o := output builder in
  with_output builder
    {| Amount := amount; Mana := Mana o; AccountID := AccountID o;
       FoundryCounter := FoundryCounter o; Conditions := Conditions o;
       Features := Features o; ImmutableFeatures := ImmutableFeatures o |}.

(** [func (builder *AccountOutputBuilder) Mana(mana)] *)
Definition SetMana (builder : t) (mana : Z) : t :=
  let o := output builder in
  with_output builder
    {| Amount := Amount o; Mana := mana; AccountID := AccountID o;
       FoundryCounter := FoundryCounter o; Conditions := Conditions o;
       Features := Features o; ImmutableFeatures := ImmutableFeatures o |}.

(** [func (builder *AccountOutputBuilder) AccountID(accountID)] *)
Definition SetAccountID (builder : t) (accountID : Z) : t :=
  let o := output builder in
  with_output builder
    {| Amount := Amount o; Mana := Mana o; AccountID := accountID;
       FoundryCounter := FoundryCounter o; Conditions := Conditions o;
       Features := Features o; ImmutableFeatures := ImmutableFeatures o |}.

(** [func (builder *AccountOutputBuilder) FoundriesToGenerate(count uint32)] *)
Definition FoundriesToGenerate (builder : t) (count : Z) : t :=
  let o := output builder in
  with_output builder
    {| Amount := Amount o; Mana := Mana o; AccountID := AccountID o;
       FoundryCounter := uint32 (FoundryCounter o + count); Conditions := Conditions o;
       Features := Features o; ImmutableFeatures := ImmutableFeatures o |}.

(** [func (builder *AccountOutputBuilder) Address(addr)] *)
Definition SetAddress (builder : t) (addr : Address) : t :=
  let o := output builder in
  with_output builder
    {| Amount := Amount o; Mana := Mana o; AccountID := AccountID o;
       FoundryCounter := FoundryCounter o;
       Conditions := UnlockConditions_Upsert (Conditions o) addr;
       Features := Features o; ImmutableFeatures := ImmutableFeatures o |}.

Definition upsert_feature (builder : t) (feature : Feature) : t :=
  with_output builder
    (with_Features (output builder)
       (Features.Upsert Feature_Type (Features (output builder)) feature)).

Definition upsert_immutable_feature (builder : t) (feature : Feature) : t :=
  with_output builder
    (with_ImmutableFeatures (output builder)
       (Features.Upsert Feature_Type (ImmutableFeatures (output builder)) feature)).

(** [func (builder *AccountOutputBuilder) Sender(senderAddr)] *)
Definition Sender (builder : t) (senderAddr : Address) : t :=
  upsert_feature builder (SenderFeature senderAddr).

(** [func (builder *AccountOutputBuilder) Metadata(entries)] *)
Definition Metadata (builder : t) (entries : list Z) : t :=
  upsert_feature builder (MetadataFeature entries).

(** [func (builder *AccountOutputBuilder) BlockIssuer(keys, expirySlot)] *)
Definition BlockIssuer (builder : t) (keys : list Z) (expirySlot : SlotIndex) : t :=
  upsert_feature builder
    (BlockIssuerFeat {| BlockIssuerKeys := keys; ExpirySlot := expirySlot |}).

(** [func (builder *AccountOutputBuilder) Staking(amount, fixedCost,
    startEpoch, optEndEpoch...)]; [MaxEpochIndex] is [math.MaxUint32]. *)
Definition Staking (builder : t) (amount : BaseToken) (fixedCost : Z) (startEpoch : Z)
  (optEndEpoch : list Z) : t :=
  let endEpoch :=
    match optEndEpoch with
    | [] => MaxUint32
    | e :: _ => e
    end in
  upsert_feature builder
    (StakingFeat {| StakedAmount := amount; FixedCost := fixedCost;
                    StartEpoch := startEpoch; EndEpoch := endEpoch |}).

(** [func (builder *AccountOutputBuilder) ImmutableIssuer(issuer)] *)
Definition ImmutableIssuer (builder : t) (issuer : Address) : t :=
  upsert_immutable_feature builder (IssuerFeature issuer).

(** [func (builder *AccountOutputBuilder) ImmutableMetadata(entries)] *)
Definition ImmutableMetadata (builder : t) (entries : list Z) : t :=
  upsert_immutable_feature builder (MetadataFeature entries).

(** [func (builder *AccountOutputBuilder) RemoveFeature(featureType)] *)
Definition RemoveFeature (builder : t) (featureType : Z) : t :=
  with_output builder
    (with_Features (output builder)
       (fst (Features.Remove Feature_Type (Features (output builder)) featureType))).

(** [func (builder *AccountOutputBuilder) Build() (AccountOutput, error)] *)
Definition Build (builder : t) : result account_output :=
  let o := output builder in
  let sorted :=
    {| Amount := Amount o; Mana := Mana o; AccountID := AccountID o;
       FoundryCounter := FoundryCounter o;
       Conditions := UnlockConditions_Sort (Conditions o);
       Features := Features.Sort Feature_Type (Features o);
       ImmutableFeatures := Features.Sort Feature_Type (ImmutableFeatures o) |} in
  match prev builder with
  | Some p =>
      if negb (Features.Equal Feature_Equal (ImmutableFeatures p) (ImmutableFeatures o))
      then Err ErrImmutableFeaturesChanged
      else Ok sorted
  | None => Ok sorted
  end.

(** [func (builder *AccountOutputBuilder) MustBuild() AccountOutput] *)
Definition MustBuild (builder : t) : result account_output :=
  match Build builder with
  | Ok o => Ok o
  | _ => Panic
  end.

(** A call of one of the builder's methods, and a chain of calls. *)
Inductive Call : Type :=
| CallAmount (amount : BaseToken)
| CallMana (mana : Z)
| CallAccountID (accountID : Z)
| CallFoundriesToGenerate (count : Z)
| CallAddress (addr : Address)
| CallSender (senderAddr : Address)
| CallMetadata (entries : list Z)
| CallBlockIssuer (keys : list Z) (expirySlot : SlotIndex)
| CallStaking (amount : BaseToken) (fixedCost startEpoch : Z) (optEndEpoch : list Z)
| CallImmutableIssuer (issuer : Address)
| CallImmutableMetadata (entries : list Z)
| CallRemoveFeature (featureType : Z).

Definition call (builder : t) (c : Call) : t :=
  match c with
  | CallAmount amount => SetAmount builder amount
  | CallMana mana => SetMana builder mana
  | CallAccountID accountID => SetAccountID builder accountID
  | CallFoundriesToGenerate count => FoundriesToGenerate builder count
  | CallAddress addr => SetAddress builder addr
  | CallSender senderAddr => Sender builder senderAddr
  | CallMetadata entries => Metadata builder entries
  | CallBlockIssuer keys expirySlot => BlockIssuer builder keys expirySlot
  | CallStaking amount fixedCost startEpoch optEndEpoch =>
      Staking builder amount fixedCost startEpoch optEndEpoch
  | CallImmutableIssuer issuer => ImmutableIssuer builder issuer
  | CallImmutableMetadata entries => ImmutableMetadata builder entries
  | CallRemoveFeature featureType => RemoveFeature builder featureType
  end.

Definition calls (builder : t) (cs : list Call) : t := fold_left call cs builder.

(** The mutable feature of a type a chain of calls leaves on an output
    that had [before] under the type: what the last call for the type
    set, or nothing after it was removed. *)
Definition feature_after (featureType : Z) (before : option Feature) (cs : list Call)
  : option Feature :=
  fold_left
    (fun (current : option Feature) (c : Call) =>
       let set (feature : Feature) :=
         if featureType =? Feature_Type feature then Some feature else current in
       match c with
       | CallSender senderAddr => set (SenderFeature senderAddr)
       | CallMetadata entries => set (MetadataFeature entries)
       | CallBlockIssuer keys expirySlot =>
           set (BlockIssuerFeat {| BlockIssuerKeys := keys; ExpirySlot := expirySlot |})
       | CallStaking amount fixedCost startEpoch optEndEpoch =>
           set (StakingFeat {| StakedAmount := amount; FixedCost := fixedCost;
                               StartEpoch := startEpoch;
                               EndEpoch := match optEndEpoch with
                                           | [] => MaxUint32
                                           | e :: _ => e
                                           end |})
       | CallRemoveFeature removed => if featureType =? removed then None else current
       | _ => current
       end)
    cs before.

End Builder.
End AccountOutputBuilder.

(** ** Work score structures *)

(** [func (w WorkScoreStructure) Equals(other WorkScoreStructure) bool] *)
Definition WorkScoreStructure_Equals (w other : WorkScore.WorkScoreStructure) : bool :=
  (WorkScore.DataKibibyte w =? WorkScore.DataKibibyte other)
  && (WorkScore.Block w =? WorkScore.Block other)
  && (WorkScore.MissingParent w =? WorkScore.MissingParent other)
  && (WorkScore.Input w =? WorkScore.Input other)
  && (WorkScore.ContextInput w =? WorkScore.ContextInput other)
  && (WorkScore.Output w =? WorkScore.Output other)
  && (WorkScore.NativeToken w =? WorkScore.NativeToken other)
  && (WorkScore.Staking w =? WorkScore.Staking other)
  && (WorkScore.BlockIssuer w =? WorkScore.BlockIssuer other)
  && (WorkScore.Allotment w =? WorkScore.Allotment other)
  && (WorkScore.SignatureEd25519 w =? WorkScore.SignatureEd25519 other)
  && (WorkScore.MinStrongParentsThreshold w =? WorkScore.MinStrongParentsThreshold other).

(** ** The rest of the state-transition validation (package stardust) *)

(** The errors [fmt.Errorf] makes without wrapping a sentinel, and the
    [ChainTransitionError] [nftSTVF] wraps its errors in. *)
Definition ErrChainOutputKind : Error := ErrOther 107.
Definition ErrNFTIDNotZeroed : Error := ErrOther 108.
Definition ErrNFTImmutableFeaturesChanged : Error := ErrOther 109.
Definition ErrChainTransition : Error := ErrOther 110.

(** [AccountID.Empty] and [NFTID.Empty] on identifiers as numbers: the
    zeroed identifier. *)
Definition AccountID_Empty (a : AccountID) : bool := a =? 0.
Definition NFTID_Empty (n : NFTID) : bool := n =? 0.

Section ChainSTVF.

(** Methods and functions whose bodies are outside the sources covered
    here; the last one is [vm.IsIssuerOnOutputUnlocked]. *)
Variable HasManalockCondition : UnlockConditionSet -> AccountID -> SlotIndex -> bool.
Variable FoundryOutput_ID : FoundryOutput.t -> result FoundryID.
Variable TokenScheme_StateTransition :
  TokenScheme -> ChainTransitionType -> option TokenScheme -> option Z -> option Z -> result unit.
Variable IsIssuerOnOutputUnlocked : Output -> list (Address * Z) -> result unit.

(** [func accountGenesisValid(current, vmParams) error] *)
Definition accountGenesisValid (current : AccountOutput.t) (vmParams : Params.t)
  : result unit :=
  if negb (AccountID_Empty (AccountOutput.AccountID current)) then
    Err ErrInvalidAccountStateTransition
  else
    let expirySetTooSoon :=
      match BlockIssuer (AccountOutput.FeatureSet current) with
      | Some nextBIFeat =>
          negb (ExpirySlot nextBIFeat =? 0)
          && (ExpirySlot nextBIFeat
              <? uint64 (CreationTime (essence_of vmParams)
                         + ProtocolParameters.LivenessThreshold (protocol_of vmParams)))
      | None => false
      end in
    if expirySetTooSoon then Err ErrInvalidBlockIssuerTransition
    else
      IsIssuerOnOutputUnlocked (Account current)
        (WorkingSet.UnlockedIdents (Params.WorkingSet vmParams)).

(** [func accountSTVF(input, transType, next, vmParams) error]; [input] and
    [next] are pointers, nil in the transitions that have no consumed or
    no created output, and reading through a nil one panics. The errors
    are wrapped with their sentinel kept. *)
Definition accountSTVF (input : option ChainOutputWithCreationTime.t)
  (transType : ChainTransitionType) (next : option AccountOutput.t) (vmParams : Params.t)
  : result unit :=
  match transType with
  | ChainTransitionTypeGenesis =>
      match next with
      | Some next => accountGenesisValid next vmParams
      | None => Panic
      end
  | ChainTransitionTypeStateChange =>
      match input, next with
      | Some input, Some next =>
          accountStateChangeValid HasManalockCondition FoundryOutput_ID input vmParams next
      | _, _ => Panic
      end
  | ChainTransitionTypeDestroy =>
      match input with
      | Some input => accountDestructionValid input vmParams
      | None => Panic
      end
  end.

(** [func nftGenesisValid(current, vmParams) error] *)
Definition nftGenesisValid (current : NFTOutput.t) (vmParams : Params.t) : result unit :=
  if negb (NFTID_Empty (NFTOutput.NFTID current)) then Err ErrNFTIDNotZeroed
  else
    IsIssuerOnOutputUnlocked (NFT current)
      (WorkingSet.UnlockedIdents (Params.WorkingSet vmParams)).

(** [func nftStateChangeValid(current, next) error] *)
Definition nftStateChangeValid (current next : NFTOutput.t) : result unit :=
  if negb (Features_Equal (NFTOutput.ImmutableFeatures current)
             (NFTOutput.ImmutableFeatures next))
  then Err ErrNFTImmutableFeaturesChanged
  else valid.

(** The type assertion of an output to an NFT output. *)
Definition as_NFTOutput (o : Output) : result NFTOutput.t :=
  match o with
  | NFT n => Ok n
  | _ => Panic
  end.

(** The type assertion of an output to a foundry output. *)
Definition as_FoundryOutput (o : Output) : result FoundryOutput.t :=
  match o with
  | Foundry f => Ok f
  | _ => Panic
  end.

(** An error of the NFT checks, wrapped in a [ChainTransitionError]. *)
Definition wrap_ChainTransitionError (r : result unit) : result unit :=
  match r with
  | Err _ => Err ErrChainTransition
  | r => r
  end.

(** [func nftSTVF(input, transType, next, vmParams) error] *)
Definition nftSTVF (input : option ChainOutputWithCreationTime.t)
  (transType : ChainTransitionType) (next : option NFTOutput.t) (vmParams : Params.t)
  : result unit :=
  match transType with
  | ChainTransitionTypeGenesis =>
      match next with
      | Some next => wrap_ChainTransitionError (nftGenesisValid next vmParams)
      | None => Panic
      end
  | ChainTransitionTypeStateChange =>
      match input with
      | Some input =>
          let* current := as_NFTOutput (ChainOutputWithCreationTime.Output input) in
          match next with
          | Some next => wrap_ChainTransitionError (nftStateChangeValid current next)
          | None => Panic
          end
      | None => Panic
      end
  | ChainTransitionTypeDestroy => valid
  end.

(** [func foundryStateChangeValid(current, next, inSums, outSums) error] *)
Definition foundryStateChangeValid (current next : FoundryOutput.t)
  (inSums outSums : gmap NativeTokenID Z) : result unit :=
  if negb (Features_Equal (FoundryOutput.ImmutableFeatures current)
             (FoundryOutput.ImmutableFeatures next))
  then Err ErrInvalidFoundryStateTransition
  else
    let* currentID := FoundryOutput_MustID FoundryOutput_ID current in
    let* nextID := FoundryOutput_MustID FoundryOutput_ID next in
    if negb (currentID =? nextID) then Panic
    else
      let* nativeTokenID := FoundryOutput_MustID FoundryOutput_ID current in
      TokenScheme_StateTransition (FoundryOutput.TokenScheme current)
        ChainTransitionTypeStateChange (Some (FoundryOutput.TokenScheme next))
        (Some (ValueOrBigInt0 inSums nativeTokenID))
        (Some (ValueOrBigInt0 outSums nativeTokenID)).

(** [func foundryDestructionValid(current, inSums, outSums) error] *)
Definition foundryDestructionValid (current : FoundryOutput.t)
  (inSums outSums : gmap NativeTokenID Z) : result unit :=
  let* nativeTokenID := FoundryOutput_MustID FoundryOutput_ID current in
  TokenScheme_StateTransition (FoundryOutput.TokenScheme current)
    ChainTransitionTypeDestroy None
    (Some (ValueOrBigInt0 inSums nativeTokenID))
    (Some (ValueOrBigInt0 outSums nativeTokenID)).

(** The wrapping of a foundry error: the message is formatted with the
    foundry's [MustID] and [MustNativeTokenID], which panic when the
    identifier cannot be computed; the sentinel of the error is kept. *)
Definition wrap_foundry_error (foundry : FoundryOutput.t) (r : result unit) : result unit :=
  match r with
  | Err e =>
      let* _ := FoundryOutput_MustID FoundryOutput_ID foundry in
      let* _ := FoundryOutput_MustID FoundryOutput_ID foundry in
      Err e
  | r => r
  end.

(** [func foundrySTVF(input, transType, next, vmParams) error] *)
Definition foundrySTVF (input : option ChainOutputWithCreationTime.t)
  (transType : ChainTransitionType) (next : option FoundryOutput.t) (vmParams : Params.t)
  : result unit :=
  let inSums := WorkingSet.InNativeTokens (Params.WorkingSet vmParams) in
  let outSums := WorkingSet.OutNativeTokens (Params.WorkingSet vmParams) in
  match transType with
  | ChainTransitionTypeGenesis =>
      match next with
      | Some next =>
          let* thisFoundryID := FoundryOutput_MustID FoundryOutput_ID next in
          wrap_foundry_error next
            (foundryGenesisValid FoundryOutput_ID TokenScheme_StateTransition next vmParams
               thisFoundryID outSums)
      | None => Panic
      end
  | ChainTransitionTypeStateChange =>
      match input with
      | Some input =>
          let* current := as_FoundryOutput (ChainOutputWithCreationTime.Output input) in
          match next with
          | Some next =>
              wrap_foundry_error current (foundryStateChangeValid current next inSums outSums)
          | None => Panic
          end
      | None => Panic
      end
  | ChainTransitionTypeDestroy =>
      match input with
      | Some input =>
          let* current := as_FoundryOutput (ChainOutputWithCreationTime.Output input) in
          wrap_foundry_error current (foundryDestructionValid current inSums outSums)
      | None => Panic
      end
  end.

(** [func (stardustVM *virtualMachine) ChainSTVF(transType, input, next,
    vmParams) error]; [next] is nil when the chain is destroyed, [input]
    when it is new. *)
Definition ChainSTVF (transType : ChainTransitionType)
  (input : option ChainOutputWithCreationTime.t) (next : option Output)
  (vmParams : Params.t) : result unit :=
  let* transitionState :=
    match transType with
    | ChainTransitionTypeGenesis => Ok next
    | _ =>
        match input with
        | Some input => Ok (Some (ChainOutputWithCreationTime.Output input))
        | None => Panic
        end
    end in
  match transitionState with
  | Some (Account _) =>
      match next with
      | Some (Account nextAccount) => accountSTVF input transType (Some nextAccount) vmParams
      | Some _ => Err ErrChainOutputKind
      | None => accountSTVF input transType None vmParams
      end
  | Some (Foundry _) =>
      match next with
      | Some (Foundry nextFoundry) => foundrySTVF input transType (Some nextFoundry) vmParams
      | Some _ => Err ErrChainOutputKind
      | None => foundrySTVF input transType None vmParams
      end
  | Some (NFT _) =>
      match next with
      | Some (NFT nextNFT) => nftSTVF input transType (Some nextNFT) vmParams
      | Some _ => Err ErrChainOutputKind
      | None => nftSTVF input transType None vmParams
      end
  | _ => Panic
  end.

End ChainSTVF.

(** ** Example objects of the further code *)

(** An issuer check for the examples: an output without an issuer feature
    passes, one with an issuer passes when the issuer is among the unlocked
    identities. *)
Definition example_IsIssuerOnOutputUnlocked (o : Output) (unlockedIdents : list (Address * Z))
  : result unit :=
  let immutableFeatures :=
    match o with
    | Account a => AccountOutput.ImmutableFeatures a
    | NFT n => NFTOutput.ImmutableFeatures n
    | Foundry f => FoundryOutput.ImmutableFeatures f
    | _ => no_features
    end in
  match Issuer immutableFeatures with
  | None => valid
  | Some issuer =>
      if existsb (fun ident => Address_Equal (fst ident) issuer) unlockedIdents then valid
      else Err (ErrOther 2)
  end.

(** An NFT output for the examples, owned by the Ed25519 address 7. *)
Definition example_nft (nftID : NFTID) (immutableMetadata : option (list Z)) : NFTOutput.t :=
  {| NFTOutput.Amount := 10;
     NFTOutput.Mana := 0;
     NFTOutput.NativeTokens := [];
     NFTOutput.NFTID := nftID;
     NFTOutput.Conditions :=
       {| AddressCondition := Some (Ed25519Address 7); TimelockCondition := None;
          ExpirationCondition := None; StorageDepositReturnCondition := None |};
     NFTOutput.Features := no_features;
     NFTOutput.ImmutableFeatures :=
       {| Sender := None; Issuer := None; Metadata := immutableMetadata; Tag := None;
          BlockIssuer := None; Staking := None |} |}.

(** Block limits for the examples. *)
Definition example_limits : WorkScore.Limits :=
  {| WorkScore.MaxBlockSize := 32768; WorkScore.MaxInputsCount := 128;
     WorkScore.MaxContextInputsCount := 128; WorkScore.MaxOutputsCount := 128;
     WorkScore.MaxNativeTokenCountPerOutput := 64; WorkScore.MaxAllotmentCount := 128 |}.

(** A work score structure for the examples. *)
Definition example_work_scores (dataKibibyte signature : Z) : WorkScore.WorkScoreStructure :=
  {| WorkScore.DataKibibyte := dataKibibyte; WorkScore.Block := 100;
     WorkScore.MissingParent := 500; WorkScore.Input := 20; WorkScore.ContextInput := 20;
     WorkScore.Output := 20; WorkScore.NativeToken := 20; WorkScore.Staking := 100;
     WorkScore.BlockIssuer := 100; WorkScore.Allotment := 100;
     WorkScore.SignatureEd25519 := signature; WorkScore.MinStrongParentsThreshold := 4 |}.

(** A chain of builder calls for the examples: the input 100 is added
    twice, first owned by the Ed25519 address 7 and then by the address 8. *)
Definition example_calls : list BuilderCall :=
  [ CallAddInput {| UnlockTarget := Some (Ed25519Address 7); InputID := 100;
                    Input := Some (example_basic 50 (Ed25519Address 7)) |};
    CallAddOutput (example_basic 40 (Ed25519Address 9));
    CallSetCreationTime 5;
    CallAddInput {| UnlockTarget := Some (Ed25519Address 8); InputID := 100;
                    Input := Some (example_basic 60 (Ed25519Address 8)) |} ].

(** Unlock conditions for the examples: the address conditions as a list
    that [Upsert] keeps at one element. *)
Definition example_NewAddressUnlockConditions (addr : Address) : list Address := [addr].

Definition example_UnlockConditions_Upsert (conditions : list Address) (addr : Address)
  : list Address := [addr].

Definition example_UnlockConditions_Sort (conditions : list Address) : list Address :=
  conditions.

(** A clone for the examples: the same value. *)
Definition example_AccountOutput_Clone
  (o : @AccountOutputBuilder.account_output (list Address))
  : @AccountOutputBuilder.account_output (list Address) := o.

(** A previous account output for the examples, with an immutable issuer. *)
Definition example_previous_output : @AccountOutputBuilder.account_output (list Address) :=
  {| AccountOutputBuilder.Amount := 100; AccountOutputBuilder.Mana := 0;
     AccountOutputBuilder.AccountID := 1; AccountOutputBuilder.FoundryCounter := 0;
     AccountOutputBuilder.Conditions := [Ed25519Address 7];
     AccountOutputBuilder.Features := [SenderFeature (Ed25519Address 7)];
     AccountOutputBuilder.ImmutableFeatures := [IssuerFeature (Ed25519Address 8)] |}.

(** A chain of builder calls whose second input names no unlock target. *)
Definition example_calls_without_target : list BuilderCall :=
  [ CallAddInput {| UnlockTarget := Some (Ed25519Address 7); InputID := 100;
                    Input := Some (example_basic 50 (Ed25519Address 7)) |};
    CallAddInput {| UnlockTarget := None; InputID := 101;
                    Input := Some (example_basic 60 (Ed25519Address 7)) |} ].

(** ** Specification predicates of the further code *)

(** The order of [bytes.Compare]: the comparison [sort.Slice] is given, and
    "less" and "not greater" as propositions. *)
Definition bytes_less (a b : list Z) : bool := bytes_Compare a b =? -1.

Definition bytes_lt (a b : list Z) : Prop := bytes_Compare a b = -1.

Definition bytes_le (a b : list Z) : Prop := bytes_Compare b a <> -1.

(** The loop of [RemoveDupsAndSort], as a function of the element before
    the part of the slice still to visit. *)
Fixpoint dedup_after (prev : list Z) (l : list (list Z)) : list (list Z) :=
  match l with
  | [] => []
  | x :: rest => (if bytes_Equal prev x then [] else [x]) ++ dedup_after x rest
  end.


(** The values a work score structure can hold: uint32 scores and a byte
    threshold. *)
Definition WorkScoreStructure_in_range (w : WorkScore.WorkScoreStructure) : Prop :=
  is_uint32 (WorkScore.DataKibibyte w) /\ is_uint32 (WorkScore.Block w)
  /\ is_uint32 (WorkScore.MissingParent w) /\ is_uint32 (WorkScore.Input w)
  /\ is_uint32 (WorkScore.ContextInput w) /\ is_uint32 (WorkScore.Output w)
  /\ is_uint32 (WorkScore.NativeToken w) /\ is_uint32 (WorkScore.Staking w)
  /\ is_uint32 (WorkScore.BlockIssuer w) /\ is_uint32 (WorkScore.Allotment w)
  /\ is_uint32 (WorkScore.SignatureEd25519 w)
  /\ 0 <= WorkScore.MinStrongParentsThreshold w <= 255.

(** The counts [MaxBlockWork] multiplies by, each within uint32. *)
Definition Limits_in_range (c : WorkScore.Limits) : Prop :=
  is_uint32 (WorkScore.MaxBlockSize c) /\ is_uint32 (WorkScore.MaxInputsCount c)
  /\ is_uint32 (WorkScore.MaxContextInputsCount c) /\ is_uint32 (WorkScore.MaxOutputsCount c)
  /\ 0 <= WorkScore.MaxNativeTokenCountPerOutput c
  /\ is_uint32 (WorkScore.MaxNativeTokenCountPerOutput c * WorkScore.MaxOutputsCount c)
  /\ is_uint32 (WorkScore.MaxAllotmentCount c)
  /\ is_uint32 (1 + WorkScore.MaxInputsCount c).

(** The products [MaxBlockWork] computes with [Multiply], in its order. *)
Definition MaxBlockWork_products (c : WorkScore.Limits) (w : WorkScore.WorkScoreStructure)
  : list Z :=
  [ WorkScore.DataKibibyte w * WorkScore.MaxBlockSize c;
    WorkScore.MissingParent w * WorkScore.MinStrongParentsThreshold w;
    WorkScore.Input w * WorkScore.MaxInputsCount c;
    WorkScore.ContextInput w * WorkScore.MaxContextInputsCount c;
    WorkScore.Output w * WorkScore.MaxOutputsCount c;
    WorkScore.NativeToken w
    * (WorkScore.MaxNativeTokenCountPerOutput c * WorkScore.MaxOutputsCount c);
    WorkScore.Staking w * WorkScore.MaxOutputsCount c;
    WorkScore.BlockIssuer w * WorkScore.MaxOutputsCount c;
    WorkScore.Allotment w * WorkScore.MaxAllotmentCount c;
    WorkScore.SignatureEd25519 w * (1 + WorkScore.MaxInputsCount c) ].

(** The inputs and the outputs a chain of builder calls adds, in the order
    of the calls. *)
Definition added_inputs (cs : list BuilderCall) : list TxInput :=
  flat_map (fun c => match c with CallAddInput input => [input] | _ => [] end) cs.

Definition added_outputs (cs : list BuilderCall) : list Output :=
  flat_map (fun c => match c with CallAddOutput output => [output] | _ => [] end) cs.

(** The last input added under an identifier. *)
Definition last_added (outputID : OutputID) (ins : list TxInput) : option TxInput :=
  List.find (fun input => InputID input =? outputID) (rev ins).

(** Upper-case and lower-case US-ASCII letters. *)
Definition is_upper (c : Z) : Prop := 65 <= c <= 90.
Definition is_lower (c : Z) : Prop := 97 <= c <= 122.

(** The builder calls that write the immutable features. *)
Definition writes_immutable_features (c : AccountOutputBuilder.Call) : bool :=
  match c with
  | AccountOutputBuilder.CallImmutableIssuer _
  | AccountOutputBuilder.CallImmutableMetadata _ => true
  | _ => false
  end.

(** * Properties *)

(** ** Work scores *)

Section WorkScoreProperties.
Import WorkScore.

Lemma uint32_small (z : Z) : is_uint32 z -> uint32 z = z.
Proof. unfold is_uint32, MaxUint32, uint32. intros H. apply Z.mod_small. lia. Qed.

(** [SafeAdd] returns the exact sum when it fits and the overflow error
    otherwise. *)
Lemma SafeAdd_exact (x y : Z) :
  is_uint32 x -> is_uint32 y ->
  SafeAdd x y = if x + y <=? MaxUint32 then Ok (x + y) else Err ErrIntegerOverflow.
Proof.
  unfold is_uint32, MaxUint32, SafeAdd, uint32. intros Hx Hy.
  destruct (Z.leb_spec (x + y) (2 ^ 32 - 1)) as [Hle | Hgt].
  - rewrite Z.mod_small by lia.
    destruct (Z.ltb_spec (x + y) x); [lia | reflexivity].
  - replace ((x + y) mod 2 ^ 32) with (x + y - 2 ^ 32).
    + destruct (Z.ltb_spec (x + y - 2 ^ 32) x); [reflexivity | lia].
    + apply Z.mod_unique with (q := 1); lia.
Qed.

(** [SafeMul] returns the exact product when it fits and the overflow error
    otherwise. *)
Lemma SafeMul_exact (x y : Z) :
  is_uint32 x -> is_uint32 y ->
  SafeMul x y = if x * y <=? MaxUint32 then Ok (x * y) else Err ErrIntegerOverflow.
Proof.
  unfold is_uint32, MaxUint32, SafeMul, uint32. intros Hx Hy.
  destruct (Z.eqb_spec x 0) as [-> | Hx0]; cbn [orb].
  { reflexivity. }
  destruct (Z.eqb_spec y 0) as [-> | Hy0]; cbn [orb].
  { rewrite Z.mul_0_r. reflexivity. }
  destruct (Z.leb_spec (x * y) (2 ^ 32 - 1)) as [Hle | Hgt].
  - rewrite Z.mod_small by nia.
    rewrite Z.div_mul by lia. rewrite Z.eqb_refl. reflexivity.
  - destruct (Z.eqb_spec ((x * y) mod 2 ^ 32 / y) x) as [Heq | Hne]; [| reflexivity].
    exfalso.
    pose proof (Z.mod_pos_bound (x * y) (2 ^ 32) ltac:(lia)) as Hb.
    assert (Hlt : (x * y) mod 2 ^ 32 < x * y) by lia.
    assert (Hdiv : (x * y) mod 2 ^ 32 / y < x).
    { apply Z.div_lt_upper_bound; lia. }
    lia.
Qed.

Lemma sum_scores_nonneg (l : list Z) : Forall is_uint32 l -> 0 <= sum_scores l.
Proof.
  induction 1 as [| x l Hx _ IH]; cbn; [lia |]. unfold is_uint32 in Hx. lia.
Qed.

(** X2: [WorkScore.Add] never wraps: it returns the exact sum when that
    fits uint32 and the overflow error otherwise. *)
Lemma Add_exact (ins : list Z) :
  forall w, is_uint32 w -> Forall is_uint32 ins ->
  Add w ins =
    if w + sum_scores ins <=? MaxUint32 then Ok (w + sum_scores ins)
    else Err ErrIntegerOverflow.
Proof.
  induction ins as [| x ins IH]; intros w Hw Hins; cbn [Add sum_scores].
  - rewrite Z.add_0_r. unfold is_uint32 in Hw.
    destruct (Z.leb_spec w MaxUint32); [reflexivity | lia].
  - inversion Hins as [| ? ? Hx Hrest]; subst.
    rewrite SafeAdd_exact by assumption.
    pose proof (sum_scores_nonneg ins Hrest) as Hpos.
    destruct (Z.leb_spec (w + x) MaxUint32) as [Hle | Hgt].
    + rewrite IH; [| unfold is_uint32 in *; lia | assumption].
      rewrite Z.add_assoc. reflexivity.
    + destruct (Z.leb_spec (w + (x + sum_scores ins)) MaxUint32); [lia | reflexivity].
Qed.

(** X3: [WorkScore.Multiply] is exact when its [int] argument is itself a
    uint32 value: it returns the product when that fits uint32 and the
    overflow error otherwise. *)
Lemma Multiply_exact (w n : Z) :
  is_uint32 w -> is_uint32 n ->
  Multiply w n = if w * n <=? MaxUint32 then Ok (w * n) else Err ErrIntegerOverflow.
Proof.
  intros Hw Hn. unfold Multiply. rewrite (uint32_small n Hn).
  rewrite SafeMul_exact by assumption.
  destruct (w * n <=? MaxUint32); reflexivity.
Qed.

(** The conversion [WorkScore(in)] drops the high bits of [in] before the
    checked multiplication sees them. *)
Lemma Multiply_truncates_argument : Multiply 1 (2 ^ 32) = Ok 0.
Proof. reflexivity. Qed.

(** C9: the accumulation inside [MaxBlockWork] is the plain [+=] of uint32.
    For the structure with [Block = 2^32 - 1], [MissingParent = 1] and
    [MinStrongParentsThreshold = 1] (all other scores zero) every checked
    multiplication succeeds, the exact total is [2 ^ 32], and [MaxBlockWork]
    returns the wrapped total [0] with a nil error, whatever the protocol
    constants are. *)
Theorem MaxBlockWork_wraps_silently (c : Limits) :
  MaxBlockWork c overflowing_structure = Ok 0
  /\ max_block_work_exact c overflowing_structure = MaxUint32 + 1
  /\ Add (Block overflowing_structure)
       [MissingParent overflowing_structure * MinStrongParentsThreshold overflowing_structure]
     = Err ErrIntegerOverflow.
Proof.
  split; [| split].
  - unfold MaxBlockWork, Multiply, SafeMul, overflowing_structure. cbn. reflexivity.
  - unfold max_block_work_exact, overflowing_structure. cbn. reflexivity.
  - reflexivity.
Qed.

End WorkScoreProperties.

(** ** Account transitions *)

Section AccountProperties.

Context (HasManalockCondition : UnlockConditionSet -> AccountID -> SlotIndex -> bool).
Context (FoundryOutput_ID : FoundryOutput.t -> result FoundryID).

Local Abbreviation stateChangeValid :=
  (accountStateChangeValid HasManalockCondition FoundryOutput_ID).

Ltac case_if :=
  match goal with
  | |- context [if negb ?b then _ else _] => destruct b eqn:?; cbn [negb]
  | |- context [if ?b then _ else _] => destruct b eqn:?
  | H : context [if negb ?b then _ else _] |- _ => destruct b eqn:?; cbn [negb] in H
  | H : context [if ?b then _ else _] |- _ => destruct b eqn:?
  end.

Lemma accountGovernanceSTVF_valid_iff (current next : AccountOutput.t) :
  accountGovernanceSTVF current next = valid <-> governance_frozen_fields_equal current next.
Proof.
  unfold accountGovernanceSTVF, governance_frozen_fields_equal,
    NativeTokens_Equal, bytes_Equal.
  split.
  - intros H. repeat case_if; try discriminate.
    repeat match goal with
           | E : (_ =? _) = true |- _ => apply Z.eqb_eq in E
           | E : bool_decide _ = true |- _ => apply bool_decide_eq_true in E
           end.
    auto.
  - intros (Ha & Hn & Hi & Hm & Hf).
    rewrite Ha, Hn, Hi, Hm, Hf, !Z.eqb_refl.
    rewrite !bool_decide_eq_true_2 by reflexivity. reflexivity.
Qed.

(** C3: in an account state change that keeps the state index (a governance
    transition), validation succeeds when at most the state controller, the
    governor and the mutable metadata feature differ; it succeeds only if
    amount, native tokens, state metadata and foundry counter are unchanged,
    and returns an error whenever one of them differs. *)
Theorem accountGovernance_transition (chainID : ChainID) (created : SlotIndex)
  (current next : AccountOutput.t) (vmParams : Params.t) :
  let input :=
    {| ChainOutputWithCreationTime.ChainID := chainID;
       ChainOutputWithCreationTime.Output := Account current;
       ChainOutputWithCreationTime.CreationTime := created |} in
  AccountOutput.StateIndex current = AccountOutput.StateIndex next ->
  (differs_only_in_governance current next -> stateChangeValid input vmParams next = valid)
  /\ (stateChangeValid input vmParams next = valid ->
      governance_frozen_fields_equal current next)
  /\ (~ governance_frozen_fields_equal current next ->
      exists e, stateChangeValid input vmParams next = Err e).
Proof.
  intros input Hidx. unfold accountStateChangeValid. cbn.
  rewrite Hidx, Z.eqb_refl. unfold Features_Equal.
  split; [| split].
  - intros Hd.
    assert (Hg : governance_frozen_fields_equal current next).
    { unfold differs_only_in_governance in Hd.
      unfold governance_frozen_fields_equal. tauto. }
    destruct Hd as (_ & _ & _ & _ & _ & _ & _ & Himm & _).
    rewrite bool_decide_eq_true_2 by assumption. cbn.
    apply accountGovernanceSTVF_valid_iff. exact Hg.
  - intros H. case_if; [| discriminate].
    apply accountGovernanceSTVF_valid_iff. exact H.
  - intros Hn. case_if.
    + destruct (accountGovernanceSTVF current next) as [[] | e |] eqn:Hg.
      * exfalso. apply Hn. apply accountGovernanceSTVF_valid_iff. exact Hg.
      * eauto.
      * exfalso. revert Hg. unfold accountGovernanceSTVF.
        repeat case_if; discriminate.
    + eauto.
Qed.

(** C2, as the code has it: in an account state change whose state index
    differs, validation succeeds only if the output's state index is the input's
    plus one modulo 2^32, the addition of the code being that of uint32
    (so it is the input's plus exactly one for every input index below
    2^32 - 1, and 0 for the input index 2^32 - 1), the state controller and
    the governor are unchanged and the foundry counter does not decrease; a
    state index that jumps by two is rejected with the
    invalid-account-state-transition error. *)
Theorem accountState_transition (chainID : ChainID) (created : SlotIndex)
  (current next : AccountOutput.t) (vmParams : Params.t) :
  let input :=
    {| ChainOutputWithCreationTime.ChainID := chainID;
       ChainOutputWithCreationTime.Output := Account current;
       ChainOutputWithCreationTime.CreationTime := created |} in
  (AccountOutput.StateIndex current <> AccountOutput.StateIndex next ->
   stateChangeValid input vmParams next = valid ->
   AccountOutput.StateIndex next = uint32 (AccountOutput.StateIndex current + 1)
   /\ (0 <= AccountOutput.StateIndex current < MaxUint32 ->
       AccountOutput.StateIndex next = AccountOutput.StateIndex current + 1)
   /\ AccountOutput.StateController current = AccountOutput.StateController next
   /\ AccountOutput.GovernorAddress current = AccountOutput.GovernorAddress next
   /\ AccountOutput.FoundryCounter current <= AccountOutput.FoundryCounter next)
  /\ (AccountOutput.StateIndex next = uint32 (AccountOutput.StateIndex current + 2) ->
      stateChangeValid input vmParams next = Err ErrInvalidAccountStateTransition).
Proof.
  intros input. unfold accountStateChangeValid, accountStateSTVF. cbn.
  unfold Address_Equal. split.
  - intros Hne H.
    destruct (Features_Equal _ _); cbn [negb] in H; [| discriminate].
    destruct (Z.eqb_spec (AccountOutput.StateIndex current) (AccountOutput.StateIndex next));
      [contradiction |].
    destruct (bool_decide (AccountOutput.StateController current
                           = AccountOutput.StateController next)) eqn:Hsc;
      cbn [negb] in H; [| discriminate].
    destruct (bool_decide (AccountOutput.GovernorAddress current
                           = AccountOutput.GovernorAddress next)) eqn:Hgov;
      cbn [negb] in H; [| discriminate].
    destruct (Z.gtb_spec (AccountOutput.FoundryCounter current)
                (AccountOutput.FoundryCounter next)); [discriminate |].
    destruct (Z.eqb_spec (uint32 (AccountOutput.StateIndex current + 1))
                (AccountOutput.StateIndex next)) as [Hs | Hs];
      cbn [negb] in H; [| discriminate].
    apply bool_decide_eq_true in Hsc, Hgov.
    repeat split; try (symmetry; assumption); try assumption.
    intros Hr. rewrite <- Hs. apply uint32_small. unfold is_uint32. lia.
  - intros Hs.
    assert (Hneq : AccountOutput.StateIndex current <> AccountOutput.StateIndex next).
    { rewrite Hs. unfold uint32. intros Heq.
      pose proof (Z.mod_pos_bound (AccountOutput.StateIndex current + 2) (2 ^ 32)
                    ltac:(lia)) as Hb.
      pose proof (Z.div_mod (AccountOutput.StateIndex current + 2) (2 ^ 32) ltac:(lia)).
      lia. }
    assert (Hstep : uint32 (AccountOutput.StateIndex current + 1)
                    <> AccountOutput.StateIndex next).
    { rewrite Hs. unfold uint32. intros Heq.
      pose proof (Z.div_mod (AccountOutput.StateIndex current + 1) (2 ^ 32) ltac:(lia)).
      pose proof (Z.div_mod (AccountOutput.StateIndex current + 2) (2 ^ 32) ltac:(lia)).
      lia. }
    destruct (Features_Equal _ _); cbn [negb]; [| reflexivity].
    destruct (Z.eqb_spec (AccountOutput.StateIndex current) (AccountOutput.StateIndex next));
      [contradiction |].
    repeat (case_if; try reflexivity).
    all: exfalso; apply Hstep; apply Z.eqb_eq; assumption.
Qed.

(** C7: destroying an account that carries a block issuer feature is valid
    exactly when the feature's expiry slot is set and lies before the
    transaction's creation slot and the account's block issuer credit is in
    the working set and not negative; while the expiry slot has not passed
    the destruction is rejected with the invalid-block-issuer-transition
    error whatever the credit is. *)
Theorem accountDestruction_block_issuer (chainID : ChainID) (created : SlotIndex)
  (outputToDestroy : AccountOutput.t) (BIFeat : BlockIssuerFeature) (vmParams : Params.t) :
  let input :=
    {| ChainOutputWithCreationTime.ChainID := chainID;
       ChainOutputWithCreationTime.Output := Account outputToDestroy;
       ChainOutputWithCreationTime.CreationTime := created |} in
  BlockIssuer (AccountOutput.FeatureSet outputToDestroy) = Some BIFeat ->
  (accountDestructionValid input vmParams = valid <->
     ExpirySlot BIFeat <> 0
     /\ ExpirySlot BIFeat < CreationTime (essence_of vmParams)
     /\ exists bic,
          WorkingSet.BIC (Params.WorkingSet vmParams) !! AccountOutput.AccountID outputToDestroy
            = Some bic
          /\ 0 <= bic)
  /\ (CreationTime (essence_of vmParams) <= ExpirySlot BIFeat ->
      accountDestructionValid input vmParams = Err ErrInvalidBlockIssuerTransition).
Proof.
  intros input HBI. unfold accountDestructionValid. cbn. rewrite HBI.
  unfold Negative.
  destruct (Z.eqb_spec (ExpirySlot BIFeat) 0) as [H0 | H0]; cbn [orb].
  { split; [| reflexivity]. split; [discriminate | intros (Hc & _); contradiction]. }
  destruct (Z.geb_spec (ExpirySlot BIFeat) (CreationTime (essence_of vmParams)))
    as [Hge | Hlt].
  { split; [| reflexivity]. split; [discriminate | lia]. }
  split; [| lia].
  destruct (WorkingSet.BIC (Params.WorkingSet vmParams)
              !! AccountOutput.AccountID outputToDestroy) as [bic |].
  - destruct (Z.ltb_spec bic 0).
    + split; [discriminate |]. intros (_ & _ & bic' & Heq & Hpos).
      inversion Heq; subst. lia.
    + split; [| reflexivity]. intros _. repeat split; try assumption.
      exists bic. split; [reflexivity | assumption].
  - split; [discriminate |]. intros (_ & _ & bic' & Heq & _). discriminate.
Qed.

(** What a successful [accountBlockIssuerSTVF] guarantees. *)
Lemma accountBlockIssuerSTVF_valid_inv (chainID : ChainID) (created : SlotIndex)
  (current next : AccountOutput.t) (vmParams : Params.t) :
  let input :=
    {| ChainOutputWithCreationTime.ChainID := chainID;
       ChainOutputWithCreationTime.Output := Account current;
       ChainOutputWithCreationTime.CreationTime := created |} in
  let txSlotIndex := CreationTime (essence_of vmParams) in
  let soonest :=
    uint64 (txSlotIndex + ProtocolParameters.LivenessThreshold (protocol_of vmParams)) in
  accountBlockIssuerSTVF HasManalockCondition input next vmParams = valid ->
  (BlockIssuer (AccountOutput.Features current) = None
   /\ BlockIssuer (AccountOutput.Features next) = None)
  \/ (exists bic currentBIFeat,
        WorkingSet.BIC (Params.WorkingSet vmParams) !! AccountOutput.AccountID current
          = Some bic
        /\ 0 <= bic
        /\ BlockIssuer (AccountOutput.Features current) = Some currentBIFeat
        /\ (txSlotIndex <= ExpirySlot currentBIFeat ->
            exists nextBIFeat,
              BlockIssuer (AccountOutput.Features next) = Some nextBIFeat
              /\ (ExpirySlot nextBIFeat = 0
                  \/ ExpirySlot nextBIFeat = ExpirySlot currentBIFeat
                  \/ soonest <= ExpirySlot nextBIFeat))
        /\ (ExpirySlot currentBIFeat < txSlotIndex ->
            forall nextBIFeat,
              BlockIssuer (AccountOutput.Features next) = Some nextBIFeat ->
              ExpirySlot nextBIFeat = 0 \/ soonest <= ExpirySlot nextBIFeat)).
Proof.
  intros input txSlotIndex soonest. unfold accountBlockIssuerSTVF. cbn.
  unfold AccountOutput.FeatureSet.
  destruct (BlockIssuer (AccountOutput.Features current)) as [c |] eqn:Hc;
    destruct (BlockIssuer (AccountOutput.Features next)) as [n |] eqn:Hn;
    try (intros _; left; split; reflexivity);
    destruct (WorkingSet.BIC (Params.WorkingSet vmParams)
                !! AccountOutput.AccountID current) as [bic |]; try discriminate;
    unfold Negative; destruct (Z.ltb_spec bic 0); try discriminate;
    unfold blockIssuerExpiryValid; fold txSlotIndex; fold soonest; cbn;
    try discriminate.
  - destruct (Z.geb_spec (ExpirySlot c) txSlotIndex) as [Hge | Hlt].
    + destruct (Z.eqb_spec (ExpirySlot n) 0) as [H0 | H0]; cbn [negb andb].
      * intros _. right. exists bic, c. repeat split; try assumption.
        -- intros _. exists n. split; [reflexivity | left; assumption].
        -- intros Hlt. lia.
      * destruct (Z.eqb_spec (ExpirySlot n) (ExpirySlot c)) as [He | He]; cbn [negb andb].
        -- intros _. right. exists bic, c. repeat split; try assumption.
           ++ intros _. exists n. split; [reflexivity | right; left; assumption].
           ++ intros Hlt. lia.
        -- destruct (Z.ltb_spec (ExpirySlot n) soonest); cbn; [discriminate |].
           intros _. right. exists bic, c. repeat split; try assumption.
           ++ intros _. exists n. split; [reflexivity | right; right; assumption].
           ++ intros Hlt. lia.
    + destruct (Z.eqb_spec (ExpirySlot n) 0) as [H0 | H0]; cbn [negb andb].
      * intros _. right. exists bic, c. repeat split; try assumption.
        -- intros Hge. lia.
        -- intros _ n' Hn'. inversion Hn'; subst. left; assumption.
      * destruct (Z.ltb_spec (ExpirySlot n) soonest); cbn; [discriminate |].
        intros _. right. exists bic, c. repeat split; try assumption.
        -- intros Hge. lia.
        -- intros _ n' Hn'. inversion Hn'; subst. right; assumption.
  - destruct (Z.geb_spec (ExpirySlot c) txSlotIndex) as [Hge | Hlt]; cbn; [discriminate |].
    intros _. right. exists bic, c. repeat split; try assumption.
    + intros Hge. lia.
    + intros _ n' Hn'. discriminate.
Qed.

(** C10: when the consumed account has no block issuer feature, the created
    one has, and the account's block issuer credit is in the working set
    and not negative, [accountBlockIssuerSTVF] reads [ExpirySlot] through
    the nil feature of the consumed account and panics. *)
Theorem accountBlockIssuerSTVF_new_issuer_panics (chainID : ChainID) (created : SlotIndex)
  (current next : AccountOutput.t) (vmParams : Params.t)
  (bic : BlockIssuanceCredits) (nextBIFeat : BlockIssuerFeature) :
  BlockIssuer (AccountOutput.Features current) = None ->
  BlockIssuer (AccountOutput.Features next) = Some nextBIFeat ->
  WorkingSet.BIC (Params.WorkingSet vmParams) !! AccountOutput.AccountID current = Some bic ->
  0 <= bic ->
  accountBlockIssuerSTVF HasManalockCondition
    {| ChainOutputWithCreationTime.ChainID := chainID;
       ChainOutputWithCreationTime.Output := Account current;
       ChainOutputWithCreationTime.CreationTime := created |} next vmParams = Panic.
Proof.
  intros Hc Hn Hbic Hpos. unfold accountBlockIssuerSTVF. cbn.
  unfold AccountOutput.FeatureSet. rewrite Hc, Hn, Hbic.
  unfold Negative. destruct (Z.ltb_spec bic 0); [lia |]. reflexivity.
Qed.

(** X1: on the path that changes the state index, a valid state change
    passed [accountBlockIssuerSTVF]: when a block issuer feature is on either side,
    the credit is in the working set and not negative, a feature that has
    not expired stays, and an expiry slot that is set anew is zero or at
    least the liveness threshold after the creation slot (in uint64). *)
Lemma accountStateChange_block_issuer (chainID : ChainID) (created : SlotIndex)
  (current next : AccountOutput.t) (vmParams : Params.t) :
  let input :=
    {| ChainOutputWithCreationTime.ChainID := chainID;
       ChainOutputWithCreationTime.Output := Account current;
       ChainOutputWithCreationTime.CreationTime := created |} in
  let txSlotIndex := CreationTime (essence_of vmParams) in
  let soonest :=
    uint64 (txSlotIndex + ProtocolParameters.LivenessThreshold (protocol_of vmParams)) in
  AccountOutput.StateIndex current <> AccountOutput.StateIndex next ->
  stateChangeValid input vmParams next = valid ->
  (BlockIssuer (AccountOutput.Features current) = None
   /\ BlockIssuer (AccountOutput.Features next) = None)
  \/ (exists bic currentBIFeat,
        WorkingSet.BIC (Params.WorkingSet vmParams) !! AccountOutput.AccountID current
          = Some bic
        /\ 0 <= bic
        /\ BlockIssuer (AccountOutput.Features current) = Some currentBIFeat
        /\ (txSlotIndex <= ExpirySlot currentBIFeat ->
            exists nextBIFeat,
              BlockIssuer (AccountOutput.Features next) = Some nextBIFeat
              /\ (ExpirySlot nextBIFeat = 0
                  \/ ExpirySlot nextBIFeat = ExpirySlot currentBIFeat
                  \/ soonest <= ExpirySlot nextBIFeat))
        /\ (ExpirySlot currentBIFeat < txSlotIndex ->
            forall nextBIFeat,
              BlockIssuer (AccountOutput.Features next) = Some nextBIFeat ->
              ExpirySlot nextBIFeat = 0 \/ soonest <= ExpirySlot nextBIFeat)).
Proof.
  intros input txSlotIndex soonest Hne H.
  apply (accountBlockIssuerSTVF_valid_inv chainID created current next vmParams).
  fold input. revert H. unfold accountStateChangeValid, accountStateSTVF.
  cbn [bind_result ChainOutputWithCreationTime.Output input as_AccountOutput].
  destruct (Features_Equal _ _); cbn [negb]; [| discriminate].
  destruct (Z.eqb_spec (AccountOutput.StateIndex current) (AccountOutput.StateIndex next));
    [contradiction |].
  destruct (Address_Equal _ _); cbn [negb]; [| intros H; discriminate H].
  destruct (Address_Equal _ _); cbn [negb]; [| intros H; discriminate H].
  destruct (_ >? _); [intros H; discriminate H |].
  destruct (_ =? _); cbn [negb]; [| intros H; discriminate H].
  destruct (FeatureUnchanged _ _ _) as [[] | |]; try (intros H; discriminate H).
  destruct (_ =? _); [exact (fun H => H) |].
  destruct (countNewFoundries _ _ _ _ _) as [seen | |];
    cbn [bind_result]; try (intros H; discriminate H).
  destruct (_ =? _); cbn [negb]; [exact (fun H => H) | intros H; discriminate H].
Qed.

(** A state change that keeps the state index and only drops the block
    issuer feature is valid: the governance branch returns before any block
    issuer check, whatever the credit and the expiry slot are. *)
Lemma governance_skips_block_issuer_checks (chainID : ChainID) (created : SlotIndex)
  (current : AccountOutput.t) (vmParams : Params.t) :
  stateChangeValid
    {| ChainOutputWithCreationTime.ChainID := chainID;
       ChainOutputWithCreationTime.Output := Account current;
       ChainOutputWithCreationTime.CreationTime := created |}
    vmParams (remove_block_issuer current) = valid.
Proof.
  unfold accountStateChangeValid. cbn. unfold Features_Equal.
  rewrite bool_decide_eq_true_2 by reflexivity. rewrite Z.eqb_refl. cbn.
  apply accountGovernanceSTVF_valid_iff.
  unfold governance_frozen_fields_equal. cbn. auto.
Qed.

End AccountProperties.

(** ** Account transitions on the example objects *)

(** Witness of C3: changing only the state controller is accepted, changing
    the amount is rejected. *)
Lemma accountGovernance_transition_witness :
  let current := example_account 100 10 3 0 (Ed25519Address 7) None in
  let vmParams := example_transition 5 2 current [] [] ∅ in
  accountStateChangeValid example_HasManalockCondition example_FoundryOutput_ID
    (example_input current 2) vmParams
    (example_account 100 10 3 0 (Ed25519Address 9) None) = valid
  /\ exists e,
       accountStateChangeValid example_HasManalockCondition example_FoundryOutput_ID
         (example_input current 2) vmParams
         (example_account 101 10 3 0 (Ed25519Address 7) None) = Err e.
Proof.
  intros current vmParams. split.
  - apply (accountGovernance_transition example_HasManalockCondition
             example_FoundryOutput_ID (ChainAccountID 1) 2 current
             (example_account 100 10 3 0 (Ed25519Address 9) None) vmParams eq_refl).
    unfold differs_only_in_governance. cbn. repeat split.
  - apply (accountGovernance_transition example_HasManalockCondition
             example_FoundryOutput_ID (ChainAccountID 1) 2 current
             (example_account 101 10 3 0 (Ed25519Address 7) None) vmParams eq_refl).
    unfold governance_frozen_fields_equal. cbn. intros (H & _). discriminate H.
Defined.

(** Witness of C2: a state index that goes from 3 to 5 is rejected. *)
Lemma accountState_transition_witness :
  let current := example_account 100 10 3 0 (Ed25519Address 7) None in
  accountStateChangeValid example_HasManalockCondition example_FoundryOutput_ID
    (example_input current 2) (example_transition 5 2 current [] [] ∅)
    (example_account 100 10 5 0 (Ed25519Address 7) None)
  = Err ErrInvalidAccountStateTransition.
Proof.
  intros current.
  apply (accountState_transition example_HasManalockCondition example_FoundryOutput_ID
           (ChainAccountID 1) 2 current
           (example_account 100 10 5 0 (Ed25519Address 7) None)
           (example_transition 5 2 current [] [] ∅)).
  reflexivity.
Defined.

(** Counterexample to C2 as stated: the output's state index is not the
    input's plus exactly one at the largest state index, where the
    transition from 4294967295 to 0 is accepted. *)
Lemma accountState_index_wrap_counterexample :
  let current := example_account 100 10 4294967295 0 (Ed25519Address 7) None in
  let next := example_account 100 10 0 0 (Ed25519Address 7) None in
  AccountOutput.StateIndex current <> AccountOutput.StateIndex next
  /\ accountStateChangeValid example_HasManalockCondition example_FoundryOutput_ID
       (example_input current 2) (example_transition 5 2 current [Account next] [] ∅) next
     = valid
  /\ AccountOutput.StateIndex next <> AccountOutput.StateIndex current + 1.
Proof.
  cbv zeta. split; [discriminate |]. split; [vm_compute; reflexivity | discriminate].
Defined.

(** A state index that goes from 3 to 4 is accepted. *)
Example accountState_transition_accepts_increment :
  let current := example_account 100 10 3 0 (Ed25519Address 7) None in
  let next := example_account 100 10 4 0 (Ed25519Address 7) None in
  accountStateChangeValid example_HasManalockCondition example_FoundryOutput_ID
    (example_input current 2) (example_transition 5 2 current [Account next] [] ∅) next
  = valid.
Proof. vm_compute. reflexivity. Qed.

(** Witness of C7: with the expiry slot 50 still ahead of the creation slot
    5, the destruction is rejected, here with a positive credit. *)
Lemma accountDestruction_block_issuer_witness :
  let outputToDestroy :=
    example_account 100 10 3 0 (Ed25519Address 7) (Some (example_issuer 50)) in
  accountDestructionValid (example_input outputToDestroy 2)
    (example_transition 5 2 outputToDestroy [] [] {[ 1 := 1000 ]})
  = Err ErrInvalidBlockIssuerTransition.
Proof.
  intros outputToDestroy.
  apply (accountDestruction_block_issuer (ChainAccountID 1) 2 outputToDestroy
           (example_issuer 50)
           (example_transition 5 2 outputToDestroy [] [] {[ 1 := 1000 ]}) eq_refl).
  cbn. lia.
Defined.

(** An expired feature with a non-negative credit lets the account go; a
    negative credit does not. *)
Example accountDestruction_after_expiry :
  let outputToDestroy :=
    example_account 100 10 3 0 (Ed25519Address 7) (Some (example_issuer 4)) in
  accountDestructionValid (example_input outputToDestroy 2)
    (example_transition 5 2 outputToDestroy [] [] {[ 1 := 0 ]}) = valid
  /\ accountDestructionValid (example_input outputToDestroy 2)
       (example_transition 5 2 outputToDestroy [] [] {[ 1 := -1 ]})
     = Err ErrInvalidBlockIssuerTransition.
Proof. vm_compute. split; reflexivity. Qed.

(** Witness of C10: account 1 gains a block issuer feature in a state
    transition while its credit is 0. *)
Lemma accountBlockIssuerSTVF_new_issuer_panics_witness :
  let current := example_account 100 10 3 0 (Ed25519Address 7) None in
  let next := example_account 100 10 4 0 (Ed25519Address 7) (Some (example_issuer 50)) in
  accountBlockIssuerSTVF example_HasManalockCondition (example_input current 2) next
    (example_transition 5 2 current [Account next] [] {[ 1 := 0 ]}) = Panic.
Proof.
  intros current next.
  apply (accountBlockIssuerSTVF_new_issuer_panics example_HasManalockCondition
           (ChainAccountID 1) 2 current next
           (example_transition 5 2 current [Account next] [] {[ 1 := 0 ]})
           0 (example_issuer 50)); [reflexivity | reflexivity | reflexivity | lia].
Defined.

(** The same transition through [accountStateChangeValid]. *)
Example accountStateChangeValid_new_issuer_panics :
  let current := example_account 100 10 3 0 (Ed25519Address 7) None in
  let next := example_account 100 10 4 0 (Ed25519Address 7) (Some (example_issuer 50)) in
  accountStateChangeValid example_HasManalockCondition example_FoundryOutput_ID
    (example_input current 2)
    (example_transition 5 2 current [Account next] [] {[ 1 := 0 ]}) next = Panic.
Proof. vm_compute. reflexivity. Qed.

(** C5: account 1 carries a block issuer feature that expires in slot 50;
    the transaction is created in slot 5, keeps the state index and drops
    the feature, and the working set holds no credit for the account. The
    state change is valid. *)
Theorem governance_removes_unexpired_block_issuer :
  let current :=
    example_account 100 10 3 0 (Ed25519Address 7) (Some (example_issuer 50)) in
  let next := remove_block_issuer current in
  let vmParams := example_transition 5 2 current [Account next] [] ∅ in
  BlockIssuer (AccountOutput.Features current) = Some (example_issuer 50)
  /\ BlockIssuer (AccountOutput.Features next) = None
  /\ CreationTime (essence_of vmParams) <= ExpirySlot (example_issuer 50)
  /\ WorkingSet.BIC (Params.WorkingSet vmParams) !! AccountOutput.AccountID current = None
  /\ accountStateChangeValid example_HasManalockCondition example_FoundryOutput_ID
       (example_input current 2) vmParams next = valid.
Proof.
  intros current next vmParams.
  repeat split; try reflexivity; cbn; lia.
Qed.

(** C6: account 1 is a block issuer (expiry slot 50, credit 0) holding 10
    mana. The transaction, created in the slot the account output was
    created in, bumps the state index, leaves the account 0 mana and allots
    the 10 mana to account 2. None of the account's mana reappears on the
    account, and the state change is valid. *)
Theorem mana_moved_off_issuer_account_accepted :
  let current :=
    example_account 100 10 3 0 (Ed25519Address 7) (Some (example_issuer 50)) in
  let next := example_account 100 0 4 0 (Ed25519Address 7) (Some (example_issuer 50)) in
  let allotments := [ {| AllotmentAccountID := 2; AllotmentValue := 10 |} ] in
  let vmParams := example_transition 5 5 current [Account next] allotments {[ 1 := 0 ]} in
  let provider := ProtocolParameters.ManaDecayProvider (protocol_of vmParams) in
  ManaDecayProvider.StoredManaWithDecay provider (AccountOutput.Mana current) 5 5
  + ManaDecayProvider.PotentialManaWithDecay provider (AccountOutput.Amount current) 5 5 = 10
  /\ AccountOutput.Mana next + Allotments_Get allotments (AccountOutput.AccountID current) = 0
  /\ WorkingSet.OutputsByType (Params.WorkingSet vmParams) OutputBasic = []
  /\ WorkingSet.OutputsByType (Params.WorkingSet vmParams) OutputNFT = []
  /\ accountStateChangeValid example_HasManalockCondition example_FoundryOutput_ID
       (example_input current 5) vmParams next = valid.
Proof. vm_compute. repeat split; reflexivity. Qed.

(** The opposite transaction, which burns 5 mana of another input and keeps
    the account's mana on the account, is rejected. *)
Example mana_kept_on_issuer_account_rejected :
  let current :=
    example_account 100 10 3 0 (Ed25519Address 7) (Some (example_issuer 50)) in
  let next := example_account 100 10 4 0 (Ed25519Address 7) (Some (example_issuer 50)) in
  let other :=
    Basic {| BasicOutput.Amount := 50; BasicOutput.Mana := 5; BasicOutput.NativeTokens := [];
             BasicOutput.Conditions :=
               {| AddressCondition := Some (Ed25519Address 7); TimelockCondition := None;
                  ExpirationCondition := None; StorageDepositReturnCondition := None |};
             BasicOutput.Features := no_features |} in
  let other' :=
    Basic {| BasicOutput.Amount := 50; BasicOutput.Mana := 0; BasicOutput.NativeTokens := [];
             BasicOutput.Conditions :=
               {| AddressCondition := Some (Ed25519Address 7); TimelockCondition := None;
                  ExpirationCondition := None; StorageDepositReturnCondition := None |};
             BasicOutput.Features := no_features |} in
  let ws :=
    example_working_set (example_tx 5 [100; 101] [Account next; other'] [])
      [(100, {| OutputWithCreationTime.Output := Account current;
                OutputWithCreationTime.CreationTime := 5 |});
       (101, {| OutputWithCreationTime.Output := other;
                OutputWithCreationTime.CreationTime := 5 |})]
      {[ ChainAccountID 1 := example_input current 5 ]} ∅ {[ 1 := 0 ]} in
  accountStateChangeValid example_HasManalockCondition example_FoundryOutput_ID
    (example_input current 5) (example_params ws) next
  = Err ErrInvalidBlockIssuerTransition.
Proof. vm_compute. reflexivity. Qed.

(** ** Foundry genesis *)

Section FoundryProperties.

Context (FoundryOutput_ID : FoundryOutput.t -> result FoundryID).

Lemma forall_foundry_cons (P : FoundryOutput.t -> Prop) (o : Output) (pre : list Output) :
  (forall other, Foundry other ∈ o :: pre -> P other)
  <-> match o with Foundry f => P f | _ => True end
      /\ (forall other, Foundry other ∈ pre -> P other).
Proof.
  split.
  - intros H. split.
    + destruct o; try exact I. apply H. apply elem_of_cons. left. reflexivity.
    + intros other Hin. apply H. apply elem_of_cons. right. exact Hin.
  - intros [Ho Hpre] other Hin. apply elem_of_cons in Hin as [Heq | Hin].
    + subst o. exact Ho.
    + apply Hpre. exact Hin.
Qed.

(** The ordering loop of [foundrySerialNumberValid] on an output list in
    which this foundry stands after [pre]: it accepts exactly when every new
    foundry of the same account in [pre] has a smaller serial number, and
    otherwise returns the invalid-foundry-state-transition error. *)
Lemma serialOrderValid_earlier (inChains : gmap ChainID ChainOutputWithCreationTime.t)
  (current : FoundryOutput.t) (thisFoundryID : FoundryID) (post : list Output) :
  FoundryOutput_ID current = Ok thisFoundryID ->
  inChains !! ChainFoundryID thisFoundryID = None ->
  forall pre : list Output,
  (forall other, Foundry other ∈ pre ->
     FoundryOutput.Ident other = FoundryOutput.Ident current ->
     exists id, FoundryOutput_ID other = Ok id /\ id <> thisFoundryID) ->
  (serialOrderValid FoundryOutput_ID inChains current thisFoundryID
     (pre ++ Foundry current :: post) = valid
   <-> forall other, Foundry other ∈ pre ->
         new_foundry_of_same_account FoundryOutput_ID inChains current other ->
         FoundryOutput.SerialNumber other < FoundryOutput.SerialNumber current)
  /\ (serialOrderValid FoundryOutput_ID inChains current thisFoundryID
        (pre ++ Foundry current :: post) <> valid ->
      serialOrderValid FoundryOutput_ID inChains current thisFoundryID
        (pre ++ Foundry current :: post) = Err ErrInvalidFoundryStateTransition).
Proof.
  intros Hid Hnew.
  induction pre as [| o pre IH]; intros Hids.
  - cbn. unfold Address_Equal. rewrite bool_decide_eq_true_2 by reflexivity. cbn.
    rewrite Hid, Hnew, Z.eqb_refl.
    split; [| congruence].
    split; [| reflexivity]. intros _ other Hin. inversion Hin.
  - rewrite forall_foundry_cons in Hids. destruct Hids as [Ho Hids].
    specialize (IH Hids). rewrite forall_foundry_cons.
    destruct o as [b | a | other | n | d]; cbn [app serialOrderValid];
      try (split; [rewrite (proj1 IH); tauto | exact (proj2 IH)]).
    unfold Address_Equal.
    destruct (bool_decide (FoundryOutput.Ident other = FoundryOutput.Ident current))
      eqn:Hident; cbn [negb].
    + apply bool_decide_eq_true in Hident.
      destruct (Ho Hident) as (id & Hoid & Hne). rewrite Hoid.
      destruct (inChains !! ChainFoundryID id) as [c |] eqn:Hin.
      * split; [| exact (proj2 IH)]. rewrite (proj1 IH).
        split; [| tauto]. intros H. split; [| exact H].
        intros (_ & id' & Hid' & Hnone). congruence.
      * destruct (Z.eqb_spec id thisFoundryID) as [Heq | _]; [contradiction |].
        destruct (Z.geb_spec (FoundryOutput.SerialNumber other)
                    (FoundryOutput.SerialNumber current)) as [Hge | Hlt].
        -- split; [| reflexivity]. split; [discriminate |].
           intros [H _]. exfalso.
           assert (FoundryOutput.SerialNumber other < FoundryOutput.SerialNumber current);
             [| lia].
           apply H. split; [exact Hident |]. exists id. split; assumption.
        -- split; [| exact (proj2 IH)]. rewrite (proj1 IH).
           split; [| tauto]. intros H. split; [| exact H]. intros _. exact Hlt.
    + apply bool_decide_eq_false in Hident.
      split; [| exact (proj2 IH)]. rewrite (proj1 IH).
      split; [| tauto]. intros H. split; [| exact H].
      intros (Hsame & _). contradiction.
Qed.

(** C4, as the code has it: a new foundry standing after [pre] in the
    transaction's outputs, whose identifier no earlier foundry of its account
    shares, is accepted exactly when its serial number is greater than the
    account's input-side foundry counter, at most its output-side foundry
    counter, and greater than the serial number of every new foundry of the
    same account in [pre]. A serial number of the input-side counter plus
    two is rejected when the counter increased by one. *)
Theorem foundrySerialNumberValid_iff (current : FoundryOutput.t) (vmParams : Params.t)
  (inAccount outAccount : AccountOutput.t) (thisFoundryID : FoundryID) :
  let inChains := WorkingSet.InChains (Params.WorkingSet vmParams) in
  (forall pre post : list Output,
     Outputs (essence_of vmParams) = pre ++ Foundry current :: post ->
     FoundryOutput_ID current = Ok thisFoundryID ->
     inChains !! ChainFoundryID thisFoundryID = None ->
     (forall other, Foundry other ∈ pre ->
        FoundryOutput.Ident other = FoundryOutput.Ident current ->
        exists id, FoundryOutput_ID other = Ok id /\ id <> thisFoundryID) ->
     (foundrySerialNumberValid FoundryOutput_ID current vmParams inAccount outAccount
        thisFoundryID = valid
      <-> AccountOutput.FoundryCounter inAccount < FoundryOutput.SerialNumber current
          /\ FoundryOutput.SerialNumber current <= AccountOutput.FoundryCounter outAccount
          /\ forall other, Foundry other ∈ pre ->
               new_foundry_of_same_account FoundryOutput_ID inChains current other ->
               FoundryOutput.SerialNumber other < FoundryOutput.SerialNumber current)
     /\ (foundrySerialNumberValid FoundryOutput_ID current vmParams inAccount outAccount
          thisFoundryID <> valid ->
         foundrySerialNumberValid FoundryOutput_ID current vmParams inAccount outAccount
           thisFoundryID = Err ErrInvalidFoundryStateTransition))
  /\ (is_uint32 (AccountOutput.FoundryCounter inAccount) ->
      AccountOutput.FoundryCounter outAccount
        = uint32 (AccountOutput.FoundryCounter inAccount + 1) ->
      FoundryOutput.SerialNumber current
        = uint32 (AccountOutput.FoundryCounter inAccount + 2) ->
      foundrySerialNumberValid FoundryOutput_ID current vmParams inAccount outAccount
        thisFoundryID = Err ErrInvalidFoundryStateTransition).
Proof.
  intros inChains. unfold foundrySerialNumberValid. split.
  - intros pre post Houts Hid Hnew Hids. rewrite Houts.
    destruct (serialOrderValid_earlier inChains current thisFoundryID post Hid Hnew pre Hids)
      as [Hiff Herr].
    destruct (Z.geb_spec (AccountOutput.FoundryCounter inAccount)
                (FoundryOutput.SerialNumber current)) as [Hlow | Hlow]; cbn [orb].
    { split; [| reflexivity]. split; [discriminate | lia]. }
    destruct (Z.gtb_spec (FoundryOutput.SerialNumber current)
                (AccountOutput.FoundryCounter outAccount)) as [Hhigh | Hhigh].
    { split; [| reflexivity]. split; [discriminate | lia]. }
    split; [| exact Herr]. fold inChains. rewrite Hiff.
    split; [intros H; repeat split; [lia | lia | exact H] | intros (_ & _ & H); exact H].
  - intros Hr Hout Hser. rewrite Hout, Hser.
    unfold is_uint32, MaxUint32 in Hr. unfold uint32.
    set (c := AccountOutput.FoundryCounter inAccount) in *.
    assert (Hcases : c + 2 < 2 ^ 32 \/ c + 2 = 2 ^ 32 \/ c + 2 = 2 ^ 32 + 1) by lia.
    destruct Hcases as [Hc | [Hc | Hc]].
    + rewrite (Z.mod_small (c + 1)), (Z.mod_small (c + 2)) by lia.
      destruct (Z.geb_spec c (c + 2)); [lia |]. cbn [orb].
      destruct (Z.gtb_spec (c + 2) (c + 1)); [reflexivity | lia].
    + replace c with (2 ^ 32 - 2) by lia. reflexivity.
    + replace c with (2 ^ 32 - 1) by lia. reflexivity.
Qed.

End FoundryProperties.

(** Counterexample to C4 as stated: with the foundry counter going from 0
    to 1, the serial number 1 is accepted although it is outside [0, 1), and
    the serial number 0 is rejected although it is inside. *)
Lemma foundry_serial_interval_counterexample :
  let inAccount := example_account 100 10 3 0 (Ed25519Address 7) None in
  let outAccount := example_account 100 10 4 1 (Ed25519Address 7) None in
  (foundrySerialNumberValid example_FoundryOutput_ID (example_foundry 1)
     (example_foundry_transition inAccount outAccount [Foundry (example_foundry 1)])
     inAccount outAccount (2 ^ 32 + 1) = valid
   /\ ~ (AccountOutput.FoundryCounter inAccount
         <= FoundryOutput.SerialNumber (example_foundry 1)
         < AccountOutput.FoundryCounter outAccount))
  /\ (foundrySerialNumberValid example_FoundryOutput_ID (example_foundry 0)
        (example_foundry_transition inAccount outAccount [Foundry (example_foundry 0)])
        inAccount outAccount (2 ^ 32) = Err ErrInvalidFoundryStateTransition
      /\ AccountOutput.FoundryCounter inAccount
         <= FoundryOutput.SerialNumber (example_foundry 0)
         < AccountOutput.FoundryCounter outAccount).
Proof.
  intros inAccount outAccount. split; split.
  - vm_compute. reflexivity.
  - cbn. lia.
  - vm_compute. reflexivity.
  - cbn. lia.
Qed.

(** The same genesis through [foundryGenesisValid]. *)
Example foundryGenesisValid_accepts_end_counter :
  let inAccount := example_account 100 10 3 0 (Ed25519Address 7) None in
  let outAccount := example_account 100 10 4 1 (Ed25519Address 7) None in
  foundryGenesisValid example_FoundryOutput_ID example_StateTransition (example_foundry 1)
    (example_foundry_transition inAccount outAccount [Foundry (example_foundry 1)])
    (2 ^ 32 + 1) ∅ = valid.
Proof. vm_compute. reflexivity. Qed.

(** In the example transactions the one foundry that precedes the checked
    one has an identifier of its own. *)
Lemma example_earlier_foundry_id (a : AccountOutput.t) (serial thisFoundryID : Z)
  (current other : FoundryOutput.t) :
  0 <= serial < 2 ^ 32 ->
  thisFoundryID <> 2 ^ 32 + serial ->
  Foundry other ∈ [Account a; Foundry (example_foundry serial)] ->
  FoundryOutput.Ident other = FoundryOutput.Ident current ->
  exists id, example_FoundryOutput_ID other = Ok id /\ id <> thisFoundryID.
Proof.
  intros Hr Hne Hin _.
  apply elem_of_cons in Hin as [Hin | Hin]; [discriminate |].
  apply elem_of_cons in Hin as [Hin | Hin]; [| inversion Hin].
  injection Hin as ->. exists (2 ^ 32 + serial). split.
  - unfold example_FoundryOutput_ID. cbn. unfold uint32.
    rewrite Z.mod_small by lia. reflexivity.
  - congruence.
Qed.

(** Witness of C4: with the foundry counter going from 5 to 7, the new
    foundries 6 and 7 in this order are accepted; in the order 7, 6 the
    foundry 6 is rejected; and with the counter going from 5 to 6 the
    serial number 7 is rejected. *)
Lemma foundrySerialNumberValid_iff_witness :
  let inAccount := example_account 100 10 3 5 (Ed25519Address 7) None in
  let outAccount := example_account 100 10 4 7 (Ed25519Address 7) None in
  let outAccount' := example_account 100 10 4 6 (Ed25519Address 7) None in
  foundrySerialNumberValid example_FoundryOutput_ID (example_foundry 7)
    (example_foundry_transition inAccount outAccount
       [Foundry (example_foundry 6); Foundry (example_foundry 7)])
    inAccount outAccount (2 ^ 32 + 7) = valid
  /\ foundrySerialNumberValid example_FoundryOutput_ID (example_foundry 6)
       (example_foundry_transition inAccount outAccount
          [Foundry (example_foundry 7); Foundry (example_foundry 6)])
       inAccount outAccount (2 ^ 32 + 6) <> valid
  /\ foundrySerialNumberValid example_FoundryOutput_ID (example_foundry 7)
       (example_foundry_transition inAccount outAccount' [Foundry (example_foundry 7)])
       inAccount outAccount' (2 ^ 32 + 7) = Err ErrInvalidFoundryStateTransition.
Proof.
  intros inAccount outAccount outAccount'.
  split; [| split].
  - apply (proj1 (foundrySerialNumberValid_iff example_FoundryOutput_ID (example_foundry 7)
             (example_foundry_transition inAccount outAccount
                [Foundry (example_foundry 6); Foundry (example_foundry 7)])
             inAccount outAccount (2 ^ 32 + 7))
             [Account outAccount; Foundry (example_foundry 6)] [] eq_refl eq_refl eq_refl
             (fun other =>
                example_earlier_foundry_id outAccount 6 (2 ^ 32 + 7) (example_foundry 7)
                  other ltac:(lia) ltac:(lia))).
    cbn. split; [lia | split; [lia |]].
    intros other Hin _.
    apply elem_of_cons in Hin as [Hin | Hin]; [discriminate |].
    apply elem_of_cons in Hin as [Hin | Hin]; [| inversion Hin].
    injection Hin as ->. cbn. lia.
  - intros Hv.
    apply (proj1 (foundrySerialNumberValid_iff example_FoundryOutput_ID (example_foundry 6)
             (example_foundry_transition inAccount outAccount
                [Foundry (example_foundry 7); Foundry (example_foundry 6)])
             inAccount outAccount (2 ^ 32 + 6))
             [Account outAccount; Foundry (example_foundry 7)] [] eq_refl eq_refl eq_refl
             (fun other =>
                example_earlier_foundry_id outAccount 7 (2 ^ 32 + 6) (example_foundry 6)
                  other ltac:(lia) ltac:(lia))) in Hv.
    destruct Hv as (_ & _ & Hv).
    specialize (Hv (example_foundry 7)). cbn in Hv.
    assert (7 < 6); [| lia]. apply Hv.
    + apply elem_of_cons. right. apply elem_of_cons. left. reflexivity.
    + split; [reflexivity |]. exists (2 ^ 32 + 7). split; reflexivity.
  - apply (proj2 (foundrySerialNumberValid_iff example_FoundryOutput_ID (example_foundry 7)
             (example_foundry_transition inAccount outAccount' [Foundry (example_foundry 7)])
             inAccount outAccount' (2 ^ 32 + 7))).
    + cbn. unfold is_uint32, MaxUint32. lia.
    + reflexivity.
    + reflexivity.
Defined.

(** ** The validation pipeline *)

Section PipelineProperties.

Context (ResolvedInputs : Type).
Context (NewVMParamsWorkingSet : Transaction -> ResolvedInputs -> result WorkingSet.t).
Context (ExecFuncTimelocks ExecFuncInputUnlocks ExecFuncSenderUnlocked
         ExecFuncBalancedDeposit ExecFuncBalancedNativeTokens ExecFuncChainTransitions
         ExecFuncBalancedMana : ExecFunc).

Local Abbreviation stardustVM :=
  (NewVirtualMachine ExecFuncTimelocks ExecFuncInputUnlocks ExecFuncSenderUnlocked
     ExecFuncBalancedDeposit ExecFuncBalancedNativeTokens ExecFuncChainTransitions
     ExecFuncBalancedMana).

(** The run stops at the first check that returns an error, with that
    error; the checks after it are not called. *)
Lemma RunVMFuncs_fail_fast (pre : list ExecFunc) :
  forall (vmParams p' p'' : Params.t) (check : ExecFunc) (post : list ExecFunc) (e : Error),
  passes vmParams pre = Some p' ->
  check p' = (p'', Err e) ->
  RunVMFuncs vmParams (pre ++ check :: post) = (S (length pre), Err e).
Proof.
  induction pre as [| f pre IH]; intros vmParams p' p'' check post e Hpass Hcheck.
  - cbn in Hpass. inversion Hpass; subst. cbn. rewrite Hcheck. reflexivity.
  - cbn in Hpass. cbn.
    destruct (f vmParams) as [q [[] | e' |]]; try discriminate.
    rewrite (IH q p' p'' check post e Hpass Hcheck). reflexivity.
Qed.

(** When every check passes, all of them are called and the run is valid. *)
Lemma RunVMFuncs_all_pass (execFuncs : list ExecFunc) :
  forall vmParams p' : Params.t,
  passes vmParams execFuncs = Some p' ->
  RunVMFuncs vmParams execFuncs = (length execFuncs, valid).
Proof.
  induction execFuncs as [| f fs IH]; intros vmParams p' Hpass.
  - reflexivity.
  - cbn in Hpass. cbn.
    destruct (f vmParams) as [q [[] | e' |]]; try discriminate.
    rewrite (IH q p' Hpass). reflexivity.
Qed.

(** C1: the default pipeline is the seven checks timelocks, input unlocks,
    sender unlocked, balanced deposit, balanced native tokens, chain
    transitions, balanced mana, in this order. Once the working set is
    built and no override is given, the first check of the list that
    returns a violation ends [Execute] with that violation and no later
    check is called; when all seven pass, all seven were called and the
    transaction is valid. *)
Theorem default_pipeline_fail_fast :
  execList stardustVM =
    [ ExecFuncTimelocks; ExecFuncInputUnlocks; ExecFuncSenderUnlocked;
      ExecFuncBalancedDeposit; ExecFuncBalancedNativeTokens; ExecFuncChainTransitions;
      ExecFuncBalancedMana ]
  /\ forall (t : Transaction) (vmParams : Params.t) (inputs : ResolvedInputs)
       (ws : WorkingSet.t),
       NewVMParamsWorkingSet t inputs = Ok ws ->
       (forall (pre post : list ExecFunc) (check : ExecFunc) (p' p'' : Params.t) (e : Error),
          execList stardustVM = pre ++ check :: post ->
          passes (with_WorkingSet vmParams ws) pre = Some p' ->
          check p' = (p'', Err e) ->
          Execute ResolvedInputs NewVMParamsWorkingSet stardustVM t vmParams inputs []
            = (S (length pre), Err e))
       /\ (forall p' : Params.t,
            passes (with_WorkingSet vmParams ws) (execList stardustVM) = Some p' ->
            Execute ResolvedInputs NewVMParamsWorkingSet stardustVM t vmParams inputs [] = (7%nat, valid)).
Proof.
  split; [reflexivity |].
  intros t vmParams inputs ws Hws. unfold Execute. rewrite Hws. cbn [length Nat.ltb Nat.leb].
  split.
  - intros pre post check p' p'' e Hlist Hpass Hcheck. rewrite Hlist.
    eapply RunVMFuncs_fail_fast; eassumption.
  - intros p' Hpass. rewrite (RunVMFuncs_all_pass _ _ _ Hpass). reflexivity.
Qed.

End PipelineProperties.

(** Witness of C1: timelocks, input unlocks and sender unlocked pass and the
    balanced-deposit check fails; [Execute] called four checks and returns
    that failure, although the later mana check would fail too. *)
Lemma default_pipeline_fail_fast_witness :
  Execute unit example_NewVMParamsWorkingSet
    (NewVirtualMachine example_pass example_pass example_pass (example_fail (ErrOther 4))
       example_pass example_pass (example_fail (ErrOther 7)))
    (example_tx 5 [] [] []) (example_params (example_working_set (example_tx 0 [] [] []) [] ∅ ∅ ∅))
    tt []
  = (4%nat, Err (ErrOther 4)).
Proof.
  refine (proj1 (proj2 (default_pipeline_fail_fast unit example_NewVMParamsWorkingSet
            example_pass example_pass example_pass (example_fail (ErrOther 4))
            example_pass example_pass (example_fail (ErrOther 7)))
            (example_tx 5 [] [] []) _ tt _ eq_refl)
            [example_pass; example_pass; example_pass]
            [example_pass; example_pass; example_fail (ErrOther 7)]
            (example_fail (ErrOther 4)) _ _ (ErrOther 4) eq_refl eq_refl eq_refl).
Defined.

(** ** The transaction builder *)

Section BuilderProperties.

Context (Key : Address -> string).
Context (Commitment : list (option Output) -> result (list Z)).
Context (SigningMessage : TransactionEssence -> result (list Z)).

(** The encoding of addresses is canonical: distinct addresses have
    distinct keys. *)
Hypothesis Key_inj : forall a b : Address, Key a = Key b -> a = b.

Local Open Scope nat_scope.

Lemma addressable_chain_is_chain (input : option Output) (a : Address) :
  addressable_chain input = Some a -> isChainAddress a = true.
Proof.
  destruct input as [[] |]; cbn; intros H; inversion H; reflexivity.
Qed.

Lemma first_owned_or_none (owners : list (option Address)) (a : Address) (i : nat) :
  (exists p, first_owned_at owners a p i)
  \/ (forall q, q < i -> owners !! q <> Some (Some a)).
Proof.
  induction i as [| i [(p & Hp & Hown & Hmin) | Hnone]].
  - right. intros q Hq. lia.
  - left. exists p. repeat split; [lia | assumption | assumption].
  - destruct (decide (owners !! i = Some (Some a))) as [Hi | Hi].
    + left. exists i. repeat split; [lia | assumption | assumption].
    + right. intros q Hq. destruct (decide (q = i)) as [-> | Hne]; [assumption |].
      apply Hnone. lia.
Qed.

(** Stepping [first_owned_at] from input [i] to input [S i]. *)
Lemma first_owned_at_S (owners : list (option Address)) (a : Address) (p i : nat) :
  first_owned_at owners a p (S i)
  <-> first_owned_at owners a p i
      \/ (p = i /\ owners !! i = Some (Some a)
          /\ forall q, q < i -> owners !! q <> Some (Some a)).
Proof.
  unfold first_owned_at. split.
  - intros (Hp & Hown & Hmin). destruct (decide (p = i)) as [-> | Hne].
    + right. auto.
    + left. repeat split; [lia | assumption | assumption].
  - intros [(Hp & Hown & Hmin) | (-> & Hown & Hmin)];
      repeat split; try assumption; lia.
Qed.

(** Stepping [last_marked_at] over input [i], which holds [input]. *)
Lemma last_marked_at_S (inputs : list (option Output)) (input : option Output)
  (a : Address) (p i : nat) :
  inputs !! i = Some input ->
  last_marked_at inputs a p (S i)
  <-> (p = i /\ addressable_chain input = Some a)
      \/ (last_marked_at inputs a p i /\ addressable_chain input <> Some a).
Proof.
  intros Hi. unfold last_marked_at. split.
  - intros (Hp & (inp & Hinp & Hch) & Hlast). destruct (decide (p = i)) as [-> | Hne].
    + left. split; [reflexivity |]. congruence.
    + right. split.
      * repeat split; [lia | eauto |]. intros q inp' Hq. apply Hlast. lia.
      * apply (Hlast i input); [lia | assumption].
  - intros [(-> & Hch) | ((Hp & Hex & Hlast) & Hch)].
    + repeat split; [lia | eauto |]. intros q inp' Hq. lia.
    + repeat split; [lia | assumption |]. intros q inp' Hq Hinp'.
      destruct (decide (q = i)) as [-> | Hne].
      * congruence.
      * apply (Hlast q inp'); [lia | assumption].
Qed.

(** [unlockPos_at] holds of the empty map before the first input. *)
Lemma unlockPos_at_start (owners : list (option Address)) (inputs : list (option Output)) :
  unlockPos_at Key owners inputs 0 ∅.
Proof.
  intros a p. rewrite lookup_empty.
  split; [discriminate |].
  destruct (isChainAddress a); intros (Hp & _); lia.
Qed.

(** One round of the loop keeps [unlockPos_at]: the chain of the consumed
    input is marked at [i], and, when [fresh], so is the owner. *)
Lemma unlockPos_at_step (owners : list (option Address)) (inputs : list (option Output))
  (i : nat) (unlockPos : gmap string nat) (addr : Address) (input : option Output)
  (fresh : bool) :
  unlockPos_at Key owners inputs i unlockPos ->
  owners !! i = Some (Some addr) ->
  inputs !! i = Some input ->
  (if fresh then unlockPos !! Key addr = None /\ isChainAddress addr = false
   else is_Some (unlockPos !! Key addr)) ->
  unlockPos_at Key owners inputs (S i)
    (if fresh then <[Key addr := i]> (addChainAsUnlocked Key input i unlockPos)
     else addChainAsUnlocked Key input i unlockPos).
Proof.
  intros Hinv Hown Hinp Hfresh a p.
  assert (Hmark : addChainAsUnlocked Key input i unlockPos !! Key a
                  = if decide (addressable_chain input = Some a) then Some i
                    else unlockPos !! Key a).
  { unfold addChainAsUnlocked. destruct (addressable_chain input) as [ca |] eqn:Hca.
    - destruct (decide (Some ca = Some a)) as [Heq | Hne].
      + inversion Heq; subst. apply lookup_insert_eq.
      + apply lookup_insert_ne. intros Hk. apply Hne. f_equal. apply Key_inj. exact Hk.
    - destruct (decide (None = Some a)); [discriminate | reflexivity]. }
  destruct (isChainAddress a) eqn:Hchain.
  - (* a chain address: only the marking of the consumed chain matters *)
    assert (Hne : Key addr <> Key a \/ fresh = false).
    { destruct fresh; [| right; reflexivity]. left. intros Hk. apply Key_inj in Hk.
      subst. destruct Hfresh as [_ Hf]. congruence. }
    assert (Hlook : (if fresh then <[Key addr := i]> (addChainAsUnlocked Key input i unlockPos)
                     else addChainAsUnlocked Key input i unlockPos) !! Key a
                    = addChainAsUnlocked Key input i unlockPos !! Key a).
    { destruct fresh; [| reflexivity]. destruct Hne as [Hne | Hne]; [| discriminate].
      apply lookup_insert_ne. exact Hne. }
    rewrite Hlook, Hmark, (last_marked_at_S inputs input a p i Hinp).
    specialize (Hinv a p). rewrite Hchain in Hinv.
    destruct (decide (addressable_chain input = Some a)) as [Hca | Hca].
    + split.
      * intros Hp. inversion Hp; subst. left. auto.
      * intros [(-> & _) | (_ & Hn)]; [reflexivity | contradiction].
    + rewrite Hinv. split.
      * intros Hl. right. auto.
      * intros [(_ & Hc) | (Hl & _)]; [contradiction | assumption].
  - (* any other address: only the owner of the input matters *)
    assert (Hnomark : addressable_chain input <> Some a).
    { intros Hca. apply addressable_chain_is_chain in Hca. congruence. }
    rewrite (first_owned_at_S owners a p i).
    pose proof (Hinv a) as Hinva. rewrite Hchain in Hinva.
    destruct fresh.
    + destruct Hfresh as [Hnone Hnc].
      destruct (decide (addr = a)) as [-> | Hne].
      * rewrite lookup_insert_eq. split.
        -- intros Hp. injection Hp as <-. right. repeat split; [assumption |].
           intros q Hq Hq'.
           destruct (first_owned_or_none owners a i) as [(p' & Hp') | Hnone'].
           ++ apply Hinva in Hp'. congruence.
           ++ exact (Hnone' q Hq Hq').
        -- intros [Hf | (-> & _)]; [| reflexivity].
           apply Hinva in Hf. congruence.
      * rewrite lookup_insert_ne by (intros Hk; apply Hne, Key_inj, Hk).
        rewrite Hmark. destruct (decide (addressable_chain input = Some a)); [contradiction |].
        rewrite Hinva. split; [auto |].
        intros [Hf | (_ & Hi & _)]; [assumption | congruence].
    + rewrite Hmark. destruct (decide (addressable_chain input = Some a)); [contradiction |].
      rewrite Hinva. split; [auto |].
      intros [Hf | (-> & Hi & Hmin)]; [assumption |].
      exfalso. assert (addr = a) as -> by congruence.
      destruct Hfresh as [pos Hpos]. apply Hinva in Hpos.
      destruct Hpos as (Hlt & Hpo & _). exact (Hmin pos Hlt Hpo).
Qed.

Lemma drop_cons_inv {A : Type} (l : list A) (i : nat) (x : A) (rest : list A) :
  drop i l = x :: rest -> l !! i = Some x /\ drop (S i) l = rest.
Proof.
  intros Hdrop.
  assert (Hx : l !! i = Some x).
  { pose proof (lookup_drop l i 0) as H. rewrite Hdrop in H. cbn in H.
    rewrite Nat.add_0_r in H. symmetry. exact H. }
  split; [exact Hx |].
  rewrite (drop_S l x i Hx) in Hdrop. congruence.
Qed.

(** The unlock a known owner position gives rise to is the one
    [unlock_spec] asks for. *)
Lemma referential_unlock_spec (signer : AddressSigner) (txEssenceData : list Z)
  (owners : list (option Address)) (inputs : list (option Output))
  (i pos : nat) (unlockPos : gmap string nat) (addr : Address) (unlocks : list Unlock) :
  unlockPos_at Key owners inputs i unlockPos ->
  unlockPos !! Key addr = Some pos ->
  exists u, addReferentialUnlock addr unlocks pos = unlocks ++ [u]
            /\ unlock_spec signer txEssenceData owners inputs i addr u.
Proof.
  intros Hinv Hpos. apply Hinv in Hpos.
  destruct addr; cbn in Hpos |- *; eexists; (split; [reflexivity |]); eauto.
Qed.

(** The loop of [Build], started at input [i] with the map [unlockPos_at]
    describes, appends one unlock per remaining input, each the one
    [unlock_spec] asks for. *)
Lemma assignUnlocks_spec (signer : AddressSigner) (txEssenceData : list Z)
  (inputOwner : gmap OutputID Address) (inputs : list (option Output))
  (allRefs : list OutputID) (rest : list OutputID) :
  forall (i : nat) (unlockPos : gmap string nat) (unlocks unlocks' : list Unlock),
  drop i allRefs = rest ->
  unlockPos_at Key (input_owners inputOwner allRefs) inputs i unlockPos ->
  assignUnlocks Key signer txEssenceData inputOwner inputs rest i unlockPos unlocks
    = Ok unlocks' ->
  exists tail,
    unlocks' = unlocks ++ tail
    /\ length tail = length rest
    /\ forall k u, tail !! k = Some u ->
         exists a, input_owners inputOwner allRefs !! (i + k) = Some (Some a)
                   /\ unlock_spec signer txEssenceData (input_owners inputOwner allRefs)
                        inputs (i + k) a u.
Proof.
  induction rest as [| inputRef rest IH]; intros i unlockPos unlocks unlocks' Hdrop Hinv Hrun.
  - cbn in Hrun. injection Hrun as <-. exists []. rewrite app_nil_r.
    repeat split. intros k u Hk. rewrite lookup_nil in Hk. discriminate.
  - apply drop_cons_inv in Hdrop as [Hi Hdrop].
    assert (Hown : input_owners inputOwner allRefs !! i = Some (inputOwner !! inputRef)).
    { unfold input_owners. rewrite list_lookup_fmap, Hi. reflexivity. }
    cbn [assignUnlocks] in Hrun.
    destruct (inputOwner !! inputRef) as [addr |] eqn:Haddr; [| discriminate].
    assert (Hrest : forall (u0 : Unlock) (unlockPos' : gmap string nat),
              unlock_spec signer txEssenceData (input_owners inputOwner allRefs) inputs i addr u0 ->
              unlockPos_at Key (input_owners inputOwner allRefs) inputs (S i) unlockPos' ->
              assignUnlocks Key signer txEssenceData inputOwner inputs rest (S i) unlockPos'
                (unlocks ++ [u0]) = Ok unlocks' ->
              exists tail,
                unlocks' = unlocks ++ tail
                /\ length tail = length (inputRef :: rest)
                /\ forall k u, tail !! k = Some u ->
                     exists a, input_owners inputOwner allRefs !! (i + k) = Some (Some a)
                               /\ unlock_spec signer txEssenceData
                                    (input_owners inputOwner allRefs) inputs (i + k) a u).
    { intros u0 unlockPos' Hu0 Hinv' Hrun'.
      destruct (IH (S i) unlockPos' (unlocks ++ [u0]) unlocks' Hdrop Hinv' Hrun')
        as (tail & -> & Hlen & Hspec).
      exists (u0 :: tail). rewrite <- app_assoc. cbn. split; [reflexivity |].
      split; [rewrite Hlen; reflexivity |].
      intros [| k] u Hk.
      - cbn in Hk. injection Hk as <-. rewrite Nat.add_0_r. eauto.
      - cbn in Hk. replace (i + S k) with (S i + k) by lia. apply Hspec. exact Hk. }
    destruct (unlockPos !! Key addr) as [pos |] eqn:Hpos.
    + destruct (referential_unlock_spec signer txEssenceData _ inputs i pos unlockPos addr
                  unlocks Hinv Hpos) as (u0 & Hu0 & Hspec0).
      rewrite Hu0 in Hrun. unfold index_inputs in Hrun.
      destruct (inputs !! i) as [input |] eqn:Hinp; [| discriminate]. cbn in Hrun.
      eapply Hrest; [exact Hspec0 | | exact Hrun].
      apply (unlockPos_at_step _ inputs i unlockPos addr input false Hinv Hown Hinp).
      rewrite Hpos. eauto.
    + destruct (isChainAddress addr) eqn:Hchain; [discriminate |].
      destruct (signer addr txEssenceData) as [signature | |] eqn:Hsig; try discriminate.
      cbn in Hrun. unfold index_inputs in Hrun.
      destruct (inputs !! i) as [input |] eqn:Hinp; [| discriminate]. cbn in Hrun.
      eapply (Hrest (SignatureUnlock signature)); [| | exact Hrun].
      * assert (Hfirst : (forall q, q < i ->
                            input_owners inputOwner allRefs !! q <> Some (Some addr))
                         /\ exists sig, signer addr txEssenceData = Ok sig
                                        /\ SignatureUnlock signature = SignatureUnlock sig).
        { split; [| eauto].
          destruct (first_owned_or_none (input_owners inputOwner allRefs) addr i)
            as [(p & Hp) | Hnone]; [| exact Hnone].
          exfalso. pose proof (Hinv addr p) as Hinva. rewrite Hchain in Hinva.
          apply Hinva in Hp. congruence. }
        destruct addr; cbn in Hchain; try discriminate; cbn; left; exact Hfirst.
      * apply (unlockPos_at_step _ inputs i unlockPos addr input true Hinv Hown Hinp).
        split; assumption.
Qed.

Lemma last_marked_or_none (inputs : list (option Output)) (a : Address) (i : nat) :
  (exists p, last_marked_at inputs a p i)
  \/ (forall q input, q < i -> inputs !! q = Some input -> addressable_chain input <> Some a).
Proof.
  induction i as [| i [(p & Hp & Hex & Hlast) | Hnone]].
  - right. intros q input Hq. lia.
  - destruct (inputs !! i) as [input |] eqn:Hi.
    + destruct (decide (addressable_chain input = Some a)) as [Hca | Hca].
      * left. exists i. repeat split; [lia | eauto |]. intros q inp Hq. lia.
      * left. exists p. repeat split; [lia | assumption |].
        intros q inp Hq Hinp. destruct (decide (q = i)) as [-> | Hne].
        -- congruence.
        -- apply (Hlast q inp); [lia | assumption].
    + left. exists p. repeat split; [lia | assumption |].
      intros q inp Hq Hinp. destruct (decide (q = i)) as [-> | Hne].
      * congruence.
      * apply (Hlast q inp); [lia | assumption].
  - destruct (inputs !! i) as [input |] eqn:Hi.
    + destruct (decide (addressable_chain input = Some a)) as [Hca | Hca].
      * left. exists i. repeat split; [lia | eauto |]. intros q inp Hq. lia.
      * right. intros q inp Hq Hinp. destruct (decide (q = i)) as [-> | Hne].
        -- congruence.
        -- apply (Hnone q inp); [lia | assumption].
    + right. intros q inp Hq Hinp. destruct (decide (q = i)) as [-> | Hne].
      * congruence.
      * apply (Hnone q inp); [lia | assumption].
Qed.

(** The loop of [Build] returns when every remaining input has an owner and
    is [unlockable]. *)
Lemma assignUnlocks_succeeds (signer : AddressSigner) (txEssenceData : list Z)
  (inputOwner : gmap OutputID Address) (inputs : list (option Output))
  (allRefs : list OutputID) (rest : list OutputID) :
  length inputs = length allRefs ->
  (forall k, k < length allRefs ->
     exists a, input_owners inputOwner allRefs !! k = Some (Some a)
               /\ unlockable signer txEssenceData (input_owners inputOwner allRefs) inputs k a) ->
  forall (i : nat) (unlockPos : gmap string nat) (unlocks : list Unlock),
  drop i allRefs = rest ->
  unlockPos_at Key (input_owners inputOwner allRefs) inputs i unlockPos ->
  exists unlocks',
    assignUnlocks Key signer txEssenceData inputOwner inputs rest i unlockPos unlocks
    = Ok unlocks'.
Proof.
  intros Hlen Hall.
  induction rest as [| inputRef rest IH]; intros i unlockPos unlocks Hdrop Hinv.
  - eexists. reflexivity.
  - apply drop_cons_inv in Hdrop as [Hi Hdrop].
    assert (Hlt : i < length allRefs) by (apply lookup_lt_is_Some; eauto).
    assert (Hown : input_owners inputOwner allRefs !! i = Some (inputOwner !! inputRef)).
    { unfold input_owners. rewrite list_lookup_fmap, Hi. reflexivity. }
    destruct (Hall i Hlt) as (addr & Haddr & Hunl).
    assert (Hio : inputOwner !! inputRef = Some addr) by congruence.
    rewrite Hio in Hown.
    destruct (lookup_lt_is_Some_2 inputs i) as [input Hinp]; [lia |].
    cbn [assignUnlocks]. rewrite Hio. unfold index_inputs. rewrite Hinp.
    destruct (unlockPos !! Key addr) as [pos |] eqn:Hpos; cbn [bind_result].
    + apply IH; [exact Hdrop |].
      apply (unlockPos_at_step _ inputs i unlockPos addr input false Hinv Hown Hinp).
      rewrite Hpos. eauto.
    + unfold unlockable in Hunl. destruct (isChainAddress addr) eqn:Hchain.
      * exfalso. destruct Hunl as (q & inp & Hq & Hinq & Hca).
        destruct (last_marked_or_none inputs addr i) as [(p & Hp) | Hnone].
        -- pose proof (Hinv addr p) as Hinva. rewrite Hchain in Hinva.
           apply Hinva in Hp. congruence.
        -- exact (Hnone q inp Hq Hinq Hca).
      * destruct Hunl as [signature Hsig].
        { destruct (first_owned_or_none (input_owners inputOwner allRefs) addr i)
            as [(p & Hp) | Hnone]; [| exact Hnone].
          exfalso. pose proof (Hinv addr p) as Hinva. rewrite Hchain in Hinva.
          apply Hinva in Hp. congruence. }
        rewrite Hsig. cbn [bind_result].
        apply IH; [exact Hdrop |].
        apply (unlockPos_at_step _ inputs i unlockPos addr input true Hinv Hown Hinp).
        split; [exact Hpos | exact Hchain].
Qed.


End BuilderProperties.

(** ** The builder on the example objects *)

Lemma example_Key_inj (a b : Address) : example_Key a = example_Key b -> a = b.
Proof.
  unfold example_Key. intros H.
  apply (inj encode). apply (inj pretty). exact H.
Qed.



(** The unlocks of the example builders, computed. *)
Example Build_two_inputs_unlocks :
  match Build example_Key example_Commitment example_SigningMessage
          example_builder_two_inputs (Some example_protocol) (Some example_signer) with
  | Ok tx => Unlocks tx = [SignatureUnlock (Ed25519Signature 7 34); ReferenceUnlock 0]
  | _ => False
  end.
Proof. vm_compute. reflexivity. Qed.

Example Build_account_unlocks :
  match Build example_Key example_Commitment example_SigningMessage
          example_builder_account (Some example_protocol) (Some example_signer) with
  | Ok tx =>
      Unlocks tx = [SignatureUnlock (Ed25519Signature 7 35); AccountUnlock 0; AccountUnlock 0]
  | _ => False
  end.
Proof. vm_compute. reflexivity. Qed.

Example Build_locked_chain_fails :
  Build example_Key example_Commitment example_SigningMessage
    example_builder_locked_chain (Some example_protocol) (Some example_signer)
  = Err (ErrOwningChainNotUnlocked 0)
  /\ Build example_Key example_Commitment example_SigningMessage
       example_builder_two_inputs None (Some example_signer) = Err ErrTransactionBuilder
  /\ Build example_Key example_Commitment example_SigningMessage
       example_builder_two_inputs (Some example_protocol) None = Err ErrTransactionBuilder.
Proof. vm_compute. repeat split; reflexivity. Qed.

(** ** Further checks on the example objects *)

(** [accountStateChange_block_issuer] at a transition of block issuer
    account 1 that keeps its mana and pushes the expiry slot from 50 to
    60. *)
Lemma accountStateChange_block_issuer_witness :
  let current :=
    example_account 100 10 3 0 (Ed25519Address 7) (Some (example_issuer 50)) in
  let next := example_account 100 10 4 0 (Ed25519Address 7) (Some (example_issuer 60)) in
  let vmParams := example_transition 5 5 current [Account next] [] {[ 1 := 0 ]} in
  exists bic currentBIFeat,
    WorkingSet.BIC (Params.WorkingSet vmParams) !! AccountOutput.AccountID current = Some bic
    /\ 0 <= bic
    /\ BlockIssuer (AccountOutput.Features current) = Some currentBIFeat.
Proof.
  intros current next vmParams.
  assert (Hvalid : accountStateChangeValid example_HasManalockCondition
                     example_FoundryOutput_ID (example_input current 5) vmParams next
                   = valid) by (vm_compute; reflexivity).
  destruct (accountStateChange_block_issuer example_HasManalockCondition
              example_FoundryOutput_ID (ChainAccountID 1) 5 current next vmParams
              ltac:(cbn; lia) Hvalid)
    as [[Hnone _] | (bic & c & Hbic & Hpos & Hc & _)].
  - discriminate Hnone.
  - exists bic, c. auto.
Defined.

(** [Add_exact] on sums that fit and that do not. *)
Lemma Add_exact_witness :
  WorkScore.Add 4294967290 [2; 3] = Ok 4294967295
  /\ WorkScore.Add 4294967290 [2; 3; 1] = Err ErrIntegerOverflow.
Proof.
  assert (Hr : forall z, 0 <= z <= 4294967295 -> is_uint32 z).
  { intros z Hz. unfold is_uint32, MaxUint32. lia. }
  split.
  - rewrite (Add_exact [2; 3] 4294967290); [reflexivity | apply Hr; lia |].
    repeat constructor; apply Hr; lia.
  - rewrite (Add_exact [2; 3; 1] 4294967290); [reflexivity | apply Hr; lia |].
    repeat constructor; apply Hr; lia.
Defined.

(** [Multiply_exact] on products that fit and that do not. *)
Lemma Multiply_exact_witness :
  WorkScore.Multiply 65536 65535 = Ok 4294901760
  /\ WorkScore.Multiply 65536 65536 = Err ErrIntegerOverflow.
Proof.
  assert (Hr : forall z, 0 <= z <= 4294967295 -> is_uint32 z).
  { intros z Hz. unfold is_uint32, MaxUint32. lia. }
  split.
  - rewrite (Multiply_exact 65536 65535); [reflexivity | apply Hr; lia | apply Hr; lia].
  - rewrite (Multiply_exact 65536 65536); [reflexivity | apply Hr; lia | apply Hr; lia].
Defined.

(** * Properties of the further code *)

(** ** Little-endian integers and index types *)

Lemma Uint32_PutUint32 (b : list Z) (v : Z) :
  (4 <= length b)%nat ->
  exists b', LittleEndian.PutUint32 b v = Ok b'
             /\ length b' = length b
             /\ b' = take 4 b' ++ drop 4 b
             /\ Forall is_byte (take 4 b')
             /\ LittleEndian.Uint32 b' = Ok (uint32 v).
Proof.
  intros Hlen. unfold LittleEndian.PutUint32.
  destruct (Nat.ltb_spec (length b) 4) as [Hlt | _]; [lia |].
  eexists. split; [reflexivity |]. split; [| split; [| split]].
  - rewrite length_app, length_drop. cbn. lia.
  - reflexivity.
  - cbn. unfold is_byte, byte. repeat constructor; apply Z.mod_pos_bound; lia.
  - cbn. f_equal. unfold byte, uint32.
    change (2 ^ 8) with 256. change (2 ^ 16) with 65536.
    change (2 ^ 24) with 16777216. change (2 ^ 32) with 4294967296.
    Z.div_mod_to_equations. lia.
Qed.

Lemma PutUint32_Uint32 (b0 b1 b2 b3 : Z) (rest dst : list Z) :
  is_byte b0 -> is_byte b1 -> is_byte b2 -> is_byte b3 ->
  (4 <= length dst)%nat ->
  exists v, LittleEndian.Uint32 (b0 :: b1 :: b2 :: b3 :: rest) = Ok v
            /\ is_uint32 v
            /\ LittleEndian.PutUint32 dst (uint32 v) = Ok ([b0; b1; b2; b3] ++ drop 4 dst).
Proof.
  unfold is_byte. intros H0 H1 H2 H3 Hlen.
  eexists. split; [reflexivity |]. split.
  - unfold is_uint32, MaxUint32.
    change (2 ^ 8) with 256. change (2 ^ 16) with 65536.
    change (2 ^ 24) with 16777216. change (2 ^ 32) with 4294967296. lia.
  - unfold LittleEndian.PutUint32.
    destruct (Nat.ltb_spec (length dst) 4) as [Hlt | _]; [lia |].
    do 2 f_equal. unfold byte, uint32.
    change (2 ^ 8) with 256. change (2 ^ 16) with 65536.
    change (2 ^ 24) with 16777216. change (2 ^ 32) with 4294967296.
    repeat f_equal; Z.div_mod_to_equations; lia.
Qed.

Lemma Forall_is_byte_check (l : list Z) :
  forallb (fun z => (0 <=? z) && (z <? 256)) l = true -> Forall is_byte l.
Proof.
  intros H. apply List.Forall_forall. intros x Hx.
  rewrite forallb_forall in H. specialize (H x Hx). unfold is_byte. lia.
Qed.

Lemma uint32_idem (z : Z) : uint32 (uint32 z) = uint32 z.
Proof. unfold uint32. apply Z.mod_mod. lia. Qed.

(** X4. Encoding an index and decoding the bytes gives the index back
    (as the 32-bit number it is): [Bytes] never fails, yields four bytes,
    and [IndexFromBytes] reads from them the same index and reports four
    bytes consumed. *)
Theorem Index_Bytes_round_trip (i : Z) :
  exists b, Index.Bytes i = Ok b
            /\ length b = 4%nat
            /\ Forall is_byte b
            /\ Index.IndexFromBytes b = Ok (uint32 i, 4).
Proof.
  unfold Index.Bytes.
  destruct (Uint32_PutUint32 (repeat 0 Index.IndexLength) (uint32 i))
    as (b & Hput & Hlen & Hshape & Hbytes & Hget); [cbn; lia |].
  exists b. split; [exact Hput |]. cbn in Hlen.
  split; [exact Hlen |]. split.
  - rewrite Hshape. cbn [repeat Index.IndexLength drop].
    rewrite app_nil_r. exact Hbytes.
  - unfold Index.IndexFromBytes. rewrite Hlen. cbn [Nat.ltb Nat.leb Index.IndexLength].
    rewrite Hget. cbn. rewrite uint32_idem. reflexivity.
Qed.

(** X5. [IndexFromBytes] fails exactly on fewer than four bytes and never
    panics; on four or more it reads the first four, ignores the rest,
    reports four bytes consumed, and encoding the index it returns gives
    those first four bytes back. *)
Theorem IndexFromBytes_decodes (b : list Z) :
  Forall is_byte b ->
  ((length b < 4)%nat -> Index.IndexFromBytes b = Err ErrInvalidIndexSize)
  /\ ((4 <= length b)%nat ->
      exists v, Index.IndexFromBytes b = Ok (v, 4)
                /\ is_uint32 v
                /\ Index.IndexFromBytes (take 4 b) = Ok (v, 4)
                /\ Index.Bytes v = Ok (take 4 b)).
Proof.
  intros Hbytes. split.
  - intros Hlt. unfold Index.IndexFromBytes, Index.IndexLength.
    destruct (Nat.ltb_spec (length b) 4) as [_ | Hge]; [reflexivity | lia].
  - intros Hge.
    destruct b as [| b0 [| b1 [| b2 [| b3 rest]]]]; cbn in Hge; try lia.
    inversion Hbytes as [| ? ? H0 Hb1]; subst.
    inversion Hb1 as [| ? ? H1 Hb2]; subst.
    inversion Hb2 as [| ? ? H2 Hb3]; subst.
    inversion Hb3 as [| ? ? H3 _]; subst.
    destruct (PutUint32_Uint32 b0 b1 b2 b3 rest (repeat 0 Index.IndexLength) H0 H1 H2 H3)
      as (v & Hget & Hrange & Hput); [cbn; lia |].
    exists v. unfold Index.IndexFromBytes. cbn [length Nat.ltb Nat.leb Index.IndexLength take].
    rewrite Hget. cbn in Hget |- *.
    split; [reflexivity |]. split; [exact Hrange |]. split.
    + injection Hget as <-. reflexivity.
    + unfold Index.Bytes. rewrite uint32_small in Hput by exact Hrange.
      rewrite uint32_small by exact Hrange. exact Hput.
Qed.

Lemma IndexFromBytes_decodes_witness :
  Forall is_byte [1; 2; 0; 0; 9]
  /\ Index.IndexFromBytes [1; 2; 0; 0; 9] = Ok (513, 4)
  /\ Index.Bytes 513 = Ok [1; 2; 0; 0].
Proof.
  assert (Hb : Forall is_byte [1; 2; 0; 0; 9])
    by (apply Forall_is_byte_check; reflexivity).
  split; [exact Hb |].
  destruct (IndexFromBytes_decodes [1; 2; 0; 0; 9] Hb) as [_ Hok].
  destruct Hok as (v & Hv & _ & _ & Hback); [cbn; lia |].
  assert (Hv513 : v = 513) by (vm_compute in Hv; congruence).
  subst v. split; [exact Hv | exact Hback].
Defined.

(** ** Transaction identifiers *)

Lemma copy_exact (dst src : list Z) (n : nat) :
  length src = n -> (n <= length dst)%nat -> copy dst src = src ++ drop n dst.
Proof.
  intros Hsrc Hdst. unfold copy.
  rewrite Nat.min_r by lia. rewrite Hsrc.
  rewrite <- Hsrc at 1. rewrite firstn_all. reflexivity.
Qed.

Lemma NewTransactionID_eq (slot : Z) (idBytes : list Z) :
  length idBytes = 32%nat ->
  TransactionID.NewTransactionID slot idBytes
  = Ok (idBytes ++ [byte (uint32 slot); byte (uint32 slot / 2 ^ 8);
                    byte (uint32 slot / 2 ^ 16); byte (uint32 slot / 2 ^ 24)]).
Proof.
  intros Hlen. unfold TransactionID.NewTransactionID.
  rewrite (copy_exact _ idBytes 32) by (cbn; lia || exact Hlen).
  unfold TransactionID.IdentifierLength.
  rewrite (drop_app_length' idBytes _ 32) by (symmetry; exact Hlen).
  rewrite (take_app_length' idBytes _ 32) by (symmetry; exact Hlen).
  reflexivity.
Qed.

(** X6. A transaction identifier made from a slot and a 32-byte
    identifier is 36 bytes long, its first 32 bytes are the identifier and
    [Slot] reads back the slot as the 32-bit number it is: a slot beyond
    32 bits is stored modulo 2^32. *)
Theorem NewTransactionID_round_trip (slot : Z) (idBytes : list Z) :
  length idBytes = 32%nat ->
  exists id, TransactionID.NewTransactionID slot idBytes = Ok id
             /\ length id = TransactionID.TransactionIDLength
             /\ TransactionID.Identifier id = idBytes
             /\ TransactionID.Slot id = Ok (uint32 slot).
Proof.
  intros Hlen. rewrite NewTransactionID_eq by exact Hlen.
  eexists. split; [reflexivity |]. split; [| split].
  - rewrite length_app, Hlen. reflexivity.
  - unfold TransactionID.Identifier, TransactionID.IdentifierLength.
    apply take_app_length'. symmetry. exact Hlen.
  - unfold TransactionID.Slot, TransactionID.IdentifierLength.
    rewrite (drop_app_length' idBytes _ 32) by (symmetry; exact Hlen).
    cbn. f_equal. unfold byte.
    assert (Hr : 0 <= uint32 slot < 2 ^ 32) by (apply Z.mod_pos_bound; lia).
    revert Hr. generalize (uint32 slot). intros v Hr.
    change (2 ^ 8) with 256. change (2 ^ 16) with 65536.
    change (2 ^ 24) with 16777216. change (2 ^ 32) with 4294967296 in Hr.
    Z.div_mod_to_equations. lia.
Qed.

Lemma NewTransactionID_round_trip_witness :
  length (repeat 7 32) = 32%nat
  /\ exists id, TransactionID.NewTransactionID (2 ^ 32 + 5) (repeat 7 32) = Ok id
                /\ TransactionID.Slot id = Ok 5.
Proof.
  split; [reflexivity |].
  destruct (NewTransactionID_round_trip (2 ^ 32 + 5) (repeat 7 32) eq_refl)
    as (id & Hid & _ & _ & Hslot).
  exists id. split; [exact Hid | exact Hslot].
Defined.

(** X7. Every transaction identifier is the one [NewTransactionID] makes
    from its own slot and identifier part. *)
Theorem TransactionID_reconstruct (id : TransactionID.t) :
  length id = TransactionID.TransactionIDLength ->
  Forall is_byte id ->
  exists slot, TransactionID.Slot id = Ok slot
               /\ is_uint32 slot
               /\ TransactionID.NewTransactionID slot (TransactionID.Identifier id) = Ok id.
Proof.
  intros Hlen Hbytes.
  assert (Hsplit : id = take 32 id ++ drop 32 id) by (symmetry; apply take_drop).
  assert (Htake : length (take 32 id) = 32%nat).
  { rewrite length_take, Hlen. reflexivity. }
  assert (Hdrop : length (drop 32 id) = 4%nat).
  { rewrite length_drop, Hlen. reflexivity. }
  assert (Hdb : Forall is_byte (drop 32 id)) by (apply Forall_drop; exact Hbytes).
  destruct (drop 32 id) as [| b0 [| b1 [| b2 [| b3 [| ? ?]]]]] eqn:Htail;
    cbn in Hdrop; try lia.
  inversion Hdb as [| ? ? H0 Hb1]; subst.
  inversion Hb1 as [| ? ? H1 Hb2]; subst.
  inversion Hb2 as [| ? ? H2 Hb3]; subst.
  inversion Hb3 as [| ? ? H3 _]; subst.
  destruct (PutUint32_Uint32 b0 b1 b2 b3 [] (repeat 0 4) H0 H1 H2 H3)
    as (v & Hget & Hrange & Hput); [cbn; lia |].
  exists v. unfold TransactionID.Slot, TransactionID.IdentifierLength.
  rewrite Htail. split; [exact Hget |]. split; [exact Hrange |].
  unfold TransactionID.Identifier, TransactionID.IdentifierLength.
  rewrite NewTransactionID_eq by exact Htake.
  unfold LittleEndian.PutUint32 in Hput. cbn in Hput.
  injection Hput as E0 E1 E2 E3.
  rewrite E0, E1, E2, E3. f_equal. symmetry. exact Hsplit.
Qed.

Lemma TransactionID_reconstruct_witness :
  let id := repeat 3 32 ++ [1; 2; 0; 0] in
  length id = TransactionID.TransactionIDLength
  /\ Forall is_byte id
  /\ exists slot, TransactionID.Slot id = Ok slot
                  /\ TransactionID.NewTransactionID slot (TransactionID.Identifier id) = Ok id.
Proof.
  assert (Hb : Forall is_byte (repeat 3 32 ++ [1; 2; 0; 0]))
    by (apply Forall_is_byte_check; reflexivity).
  cbv zeta. split; [reflexivity |]. split; [exact Hb |].
  destruct (TransactionID_reconstruct (repeat 3 32 ++ [1; 2; 0; 0]) eq_refl Hb)
    as (slot & Hslot & _ & Hnew).
  exists slot. split; [exact Hslot | exact Hnew].
Defined.

(** X8. [TransactionIDFromBytes] fails exactly on fewer than 36 bytes;
    otherwise it returns the first 36 bytes and reports 36 bytes consumed,
    whatever follows them. In particular it reads back what [Bytes]
    wrote. *)
Theorem TransactionIDFromBytes_decodes (b : list Z) :
  ((length b < 36)%nat <->
   TransactionID.TransactionIDFromBytes b = Err ErrInvalidTransactionIDLength)
  /\ (forall (id : TransactionID.t) (rest : list Z),
        length id = TransactionID.TransactionIDLength ->
        b = id ++ rest ->
        TransactionID.TransactionIDFromBytes b = Ok (id, 36)
        /\ (let* bytes := TransactionID.Bytes id in
            TransactionID.TransactionIDFromBytes bytes) = Ok (id, 36)).
Proof.
  unfold TransactionID.TransactionIDFromBytes, TransactionID.TransactionIDLength,
    TransactionID.IdentifierLength, TransactionID.SlotIndexLength.
  cbn [Nat.add]. split.
  - destruct (Nat.ltb_spec (length b) 36) as [Hlt | Hge].
    + split; [reflexivity | intros _; exact Hlt].
    + split; [lia | discriminate].
  - intros id rest Hlen ->. cbn [TransactionID.Bytes bind_result].
    rewrite length_app, Hlen.
    destruct (Nat.ltb_spec (36 + length rest) 36) as [Hlt | _]; [lia |].
    destruct (Nat.ltb_spec 36 36) as [Hlt | _]; [lia |].
    rewrite (take_app_length' id rest 36) by (symmetry; exact Hlen).
    rewrite <- Hlen at 2. rewrite firstn_all. split; reflexivity.
Qed.

(** [bytes.Compare] is a strict total order with equality as its zero. *)

Lemma bytes_Compare_range (a b : list Z) :
  bytes_Compare a b = -1 \/ bytes_Compare a b = 0 \/ bytes_Compare a b = 1.
Proof.
  revert b. induction a as [| x a IH]; intros [| y b]; cbn; auto.
  destruct (x <? y); [auto |]. destruct (y <? x); auto.
Qed.

Lemma bytes_Compare_refl (a : list Z) : bytes_Compare a a = 0.
Proof.
  induction a as [| x a IH]; cbn; [reflexivity |].
  rewrite Z.ltb_irrefl. exact IH.
Qed.

Lemma bytes_Compare_eq (a b : list Z) : bytes_Compare a b = 0 -> a = b.
Proof.
  revert b. induction a as [| x a IH]; intros [| y b]; cbn; try discriminate; auto.
  destruct (Z.ltb_spec x y); [discriminate |].
  destruct (Z.ltb_spec y x); [discriminate |].
  intros Hc. f_equal; [lia | apply IH; exact Hc].
Qed.

Lemma bytes_Compare_antisym (a b : list Z) : bytes_Compare b a = - bytes_Compare a b.
Proof.
  revert b. induction a as [| x a IH]; intros [| y b]; cbn; try reflexivity.
  destruct (Z.ltb_spec x y); destruct (Z.ltb_spec y x); try reflexivity; try lia.
  apply IH.
Qed.

Lemma bytes_Compare_trans (a b c : list Z) :
  bytes_Compare a b = -1 -> bytes_Compare b c = -1 -> bytes_Compare a c = -1.
Proof.
  revert b c. induction a as [| x a IH]; intros [| y b] [| z c]; cbn;
    try discriminate; auto.
  destruct (Z.ltb_spec x y); destruct (Z.ltb_spec y z);
    destruct (Z.ltb_spec x z); try reflexivity; try lia;
    destruct (Z.ltb_spec y x); destruct (Z.ltb_spec z y);
    destruct (Z.ltb_spec z x); try discriminate; try lia.
  apply IH.
Qed.

(** X9. [Compare] orders transaction identifiers totally: it returns -1, 0
    or 1, it returns 0 exactly on equal identifiers, swapping the
    arguments negates the result, and "less" (-1) is transitive. *)
Theorem TransactionID_Compare_total_order (a b c : TransactionID.t) :
  (TransactionID.Compare a b = -1 \/ TransactionID.Compare a b = 0
   \/ TransactionID.Compare a b = 1)
  /\ (TransactionID.Compare a b = 0 <-> a = b)
  /\ TransactionID.Compare b a = - TransactionID.Compare a b
  /\ (TransactionID.Compare a b = -1 -> TransactionID.Compare b c = -1 ->
      TransactionID.Compare a c = -1).
Proof.
  unfold TransactionID.Compare. split; [apply bytes_Compare_range |].
  split; [| split].
  - split; [apply bytes_Compare_eq | intros ->; apply bytes_Compare_refl].
  - apply bytes_Compare_antisym.
  - apply bytes_Compare_trans.
Qed.

(** Sorting with the order of [bytes.Compare]. *)

Lemma bytes_lt_le (a b : list Z) : bytes_lt a b -> bytes_le a b.
Proof.
  unfold bytes_lt, bytes_le. intros H. rewrite bytes_Compare_antisym, H. discriminate.
Qed.

Lemma bytes_le_cases (a b : list Z) : bytes_le a b -> a = b \/ bytes_lt a b.
Proof.
  unfold bytes_le, bytes_lt. intros H.
  destruct (bytes_Compare_range a b) as [Hc | [Hc | Hc]].
  - right. exact Hc.
  - left. apply bytes_Compare_eq. exact Hc.
  - exfalso. apply H. rewrite bytes_Compare_antisym, Hc. reflexivity.
Qed.

Lemma bytes_lt_irrefl (a : list Z) : ~ bytes_lt a a.
Proof. unfold bytes_lt. rewrite bytes_Compare_refl. discriminate. Qed.

Lemma bytes_lt_le_trans (a b c : list Z) : bytes_lt a b -> bytes_le b c -> bytes_lt a c.
Proof.
  intros Hab Hbc. destruct (bytes_le_cases b c Hbc) as [<- | Hlt]; [exact Hab |].
  exact (bytes_Compare_trans a b c Hab Hlt).
Qed.

Lemma bytes_le_trans (a b c : list Z) : bytes_le a b -> bytes_le b c -> bytes_le a c.
Proof.
  intros Hab Hbc. destruct (bytes_le_cases a b Hab) as [-> | Hlt]; [exact Hbc |].
  apply bytes_lt_le. exact (bytes_lt_le_trans a b c Hlt Hbc).
Qed.

Lemma sort_insert_In (x y : list Z) (l : list (list Z)) :
  In y (sort_insert bytes_less x l) <-> y = x \/ In y l.
Proof.
  induction l as [| z l IH]; cbn.
  - intuition congruence.
  - destruct (bytes_less z x); cbn; rewrite ?IH; intuition congruence.
Qed.

Lemma sort_Slice_In (y : list Z) (l : list (list Z)) :
  In y (sort_Slice bytes_less l) <-> In y l.
Proof.
  induction l as [| x l IH]; cbn; [reflexivity |].
  rewrite sort_insert_In, IH. intuition congruence.
Qed.

Lemma sort_insert_sorted (x : list Z) (l : list (list Z)) :
  StronglySorted bytes_le l -> StronglySorted bytes_le (sort_insert bytes_less x l).
Proof.
  induction l as [| z l IH]; intros Hs; cbn.
  - constructor; [constructor | constructor].
  - inversion Hs as [| ? ? Hs' Hall]; subst.
    unfold bytes_less at 1. destruct (Z.eqb_spec (bytes_Compare z x) (-1)) as [Hlt | Hge].
    + constructor; [apply IH; exact Hs' |].
      apply List.Forall_forall. intros y Hy. apply sort_insert_In in Hy.
      destruct Hy as [-> | Hy]; [apply bytes_lt_le; exact Hlt |].
      rewrite List.Forall_forall in Hall. apply Hall. exact Hy.
    + constructor; [exact Hs |].
      constructor; [exact Hge |].
      apply List.Forall_forall. intros y Hy.
      rewrite List.Forall_forall in Hall.
      apply (bytes_le_trans x z y); [exact Hge | apply Hall; exact Hy].
Qed.

Lemma sort_Slice_sorted (l : list (list Z)) :
  StronglySorted bytes_le (sort_Slice bytes_less l).
Proof.
  induction l as [| x l IH]; cbn; [constructor |].
  apply sort_insert_sorted. exact IH.
Qed.

Lemma sort_Slice_Permutation (l : list (list Z)) :
  Permutation (sort_Slice bytes_less l) l.
Proof.
  induction l as [| x l IH]; cbn; [constructor |].
  transitivity (x :: sort_Slice bytes_less l); [| constructor; exact IH].
  generalize (sort_Slice bytes_less l). intros s.
  induction s as [| z s IHs]; cbn; [reflexivity |].
  destruct (bytes_less z x); [| reflexivity].
  rewrite IHs. apply perm_swap.
Qed.

(** Whatever algorithm [sort.Slice] runs, its result is a permutation of
    the slice in which no element is less than an earlier one; there is
    only one such list, the one [sort_Slice] computes. *)
Lemma sorted_bytes_unique (l1 l2 : list (list Z)) :
  StronglySorted bytes_le l1 -> StronglySorted bytes_le l2 ->
  Permutation l1 l2 -> l1 = l2.
Proof.
  revert l2. induction l1 as [| x l1 IH]; intros l2 Hs1 Hs2 Hp.
  - apply Permutation_nil in Hp. subst. reflexivity.
  - destruct l2 as [| y l2].
    + symmetry in Hp. apply Permutation_nil in Hp. discriminate.
    + inversion Hs1 as [| ? ? Hs1' Hall1]; subst.
      inversion Hs2 as [| ? ? Hs2' Hall2]; subst.
      rewrite List.Forall_forall in Hall1, Hall2.
      assert (Hxy : x = y).
      { assert (Hx : In x (y :: l2))
          by (apply (Permutation_in _ Hp); left; reflexivity).
        assert (Hy : In y (x :: l1))
          by (apply (Permutation_in _ (Permutation_sym Hp)); left; reflexivity).
        destruct Hx as [Hx | Hx]; [congruence |].
        destruct Hy as [Hy | Hy]; [congruence |].
        specialize (Hall1 y Hy). specialize (Hall2 x Hx).
        destruct (bytes_le_cases x y Hall1) as [E | Hlt]; [exact E |].
        exfalso. apply Hall2. exact Hlt. }
      subst y. f_equal. apply IH; [exact Hs1' | exact Hs2' |].
      apply Permutation_cons_inv in Hp. exact Hp.
Qed.

Lemma sort_Slice_unique (l s : list (list Z)) :
  Permutation s l -> StronglySorted bytes_le s -> s = sort_Slice bytes_less l.
Proof.
  intros Hp Hs. apply sorted_bytes_unique; [exact Hs | apply sort_Slice_sorted |].
  rewrite Hp. symmetry. apply sort_Slice_Permutation.
Qed.

Lemma removeDups_S (i : nat) (prev : list Z) (l result : list (list Z)) :
  TransactionID.removeDups (S i) prev l result = result ++ dedup_after prev l.
Proof.
  revert i prev result. induction l as [| x l IH]; intros i prev result; cbn.
  - rewrite app_nil_r. reflexivity.
  - rewrite IH. destruct (bytes_Equal prev x); cbn.
    + reflexivity.
    + rewrite <- app_assoc. reflexivity.
Qed.

Lemma removeDups_0 (prev : list Z) (l : list (list Z)) :
  TransactionID.removeDups 0 prev l []
  = match l with [] => [] | x :: rest => x :: dedup_after x rest end.
Proof.
  destruct l as [| x l]; cbn; [reflexivity |].
  rewrite removeDups_S. reflexivity.
Qed.

Lemma dedup_after_spec (prev : list Z) (l : list (list Z)) :
  StronglySorted bytes_le l ->
  Forall (bytes_le prev) l ->
  StronglySorted bytes_lt (dedup_after prev l)
  /\ Forall (bytes_lt prev) (dedup_after prev l)
  /\ (forall y, In y (dedup_after prev l) <-> In y l /\ y <> prev).
Proof.
  revert prev. induction l as [| x l IH]; intros prev Hs Hall; cbn.
  - split; [constructor |]. split; [constructor |]. intros y. tauto.
  - inversion Hs as [| ? ? Hs' Hallx]; subst.
    inversion Hall as [| ? ? Hpx Hall']; subst.
    destruct (IH x Hs' Hallx) as (Hsorted & Hgt & Hin).
    unfold bytes_Equal. destruct (bool_decide_reflect (prev = x)) as [-> | Hne]; cbn.
    + split; [exact Hsorted |]. split; [exact Hgt |].
      intros y. rewrite Hin. split.
      * intros [Hy Hneq]. split; [right; exact Hy | exact Hneq].
      * intros [[Hy | Hy] Hneq]; [congruence | split; assumption].
    + assert (Hlt : bytes_lt prev x).
      { destruct (bytes_le_cases prev x Hpx) as [E | Hlt]; [contradiction | exact Hlt]. }
      split; [constructor; assumption |]. split.
      * constructor; [exact Hlt |].
        rewrite List.Forall_forall in Hgt |- *. intros y Hy.
        exact (bytes_Compare_trans prev x y Hlt (Hgt y Hy)).
      * intros y. rewrite Hin. split.
        -- intros [<- | [Hy Hneq]].
           ++ split; [left; reflexivity | congruence].
           ++ split; [right; exact Hy |]. intros ->.
              rewrite List.Forall_forall in Hallx. specialize (Hallx prev Hy).
              apply Hallx. exact Hlt.
        -- intros [[Hy | Hy] Hneq]; [left; exact Hy |].
           destruct (decide (y = x)) as [-> | Hyx]; [left; reflexivity |].
           right. split; assumption.
Qed.

Lemma RemoveDupsAndSort_spec (ids : list TransactionID.t) :
  StronglySorted bytes_lt (TransactionID.RemoveDupsAndSort ids)
  /\ forall id, In id (TransactionID.RemoveDupsAndSort ids) <-> In id ids.
Proof.
  unfold TransactionID.RemoveDupsAndSort. cbn [app].
  change (fun a b : list Z => bytes_Compare a b =? -1) with bytes_less.
  rewrite removeDups_0.
  pose proof (sort_Slice_sorted ids) as Hs.
  pose proof (sort_Slice_In) as Hin.
  specialize (fun y => Hin y ids).
  destruct (sort_Slice bytes_less ids) as [| x rest].
  - split; [constructor |]. intros id. rewrite <- Hin. reflexivity.
  - inversion Hs as [| ? ? Hs' Hall]; subst.
    destruct (dedup_after_spec x rest Hs' Hall) as (Hsorted & Hgt & Hmem).
    split; [constructor; assumption |].
    intros id. rewrite <- Hin. cbn. rewrite Hmem. split.
    + intros [E | [Hy _]]; [left; exact E | right; exact Hy].
    + intros [E | Hy]; [left; exact E |].
      destruct (decide (id = x)) as [-> | Hne]; [left; reflexivity |].
      right. split; assumption.
Qed.

Lemma strictly_sorted_unique (l1 l2 : list (list Z)) :
  StronglySorted bytes_lt l1 -> StronglySorted bytes_lt l2 ->
  (forall y, In y l1 <-> In y l2) -> l1 = l2.
Proof.
  revert l2. induction l1 as [| x l1 IH]; intros l2 Hs1 Hs2 Hsame.
  - destruct l2 as [| y l2]; [reflexivity |].
    exfalso. apply (proj2 (Hsame y)). left. reflexivity.
  - destruct l2 as [| y l2].
    + exfalso. apply (proj1 (Hsame x)). left. reflexivity.
    + inversion Hs1 as [| ? ? Hs1' Hall1]; subst.
      inversion Hs2 as [| ? ? Hs2' Hall2]; subst.
      rewrite List.Forall_forall in Hall1, Hall2.
      assert (Hxy : x = y).
      { destruct (proj1 (Hsame x) (or_introl eq_refl)) as [Hx | Hx]; [congruence |].
        destruct (proj2 (Hsame y) (or_introl eq_refl)) as [Hy | Hy]; [congruence |].
        exfalso. apply (bytes_lt_irrefl x).
        exact (bytes_Compare_trans x y x (Hall1 y Hy) (Hall2 x Hx)). }
      subst y. f_equal. apply IH; [exact Hs1' | exact Hs2' |].
      intros z. split; intros Hz.
      * destruct (proj1 (Hsame z) (or_intror Hz)) as [E | Hz']; [| exact Hz'].
        subst z. exfalso. exact (bytes_lt_irrefl x (Hall1 x Hz)).
      * destruct (proj2 (Hsame z) (or_intror Hz)) as [E | Hz']; [| exact Hz'].
        subst z. exfalso. exact (bytes_lt_irrefl x (Hall2 x Hz)).
Qed.

(** X10. [RemoveDupsAndSort] returns the identifiers of its argument, each
    once, in strictly ascending order of [Compare]: every identifier of
    the result is less than all later ones, and an identifier is in the
    result exactly when it is in the argument. *)
Theorem RemoveDupsAndSort_ascending_same_elements (ids : list TransactionID.t) :
  StronglySorted (fun a b => TransactionID.Compare a b = -1)
    (TransactionID.RemoveDupsAndSort ids)
  /\ List.NoDup (TransactionID.RemoveDupsAndSort ids)
  /\ forall id, In id (TransactionID.RemoveDupsAndSort ids) <-> In id ids.
Proof.
  destruct (RemoveDupsAndSort_spec ids) as [Hs Hin].
  split; [exact Hs |]. split; [| exact Hin].
  revert Hs. generalize (TransactionID.RemoveDupsAndSort ids). intros l Hs.
  induction Hs as [| x l Hs IH Hall]; [constructor |].
  constructor; [| exact IH].
  intros Hx. rewrite List.Forall_forall in Hall.
  exact (bytes_lt_irrefl x (Hall x Hx)).
Qed.

(** X11. The result of [RemoveDupsAndSort] depends only on which
    identifiers the argument holds, not on their order or on how often
    each occurs; so it is idempotent. *)
Theorem RemoveDupsAndSort_canonical (ids ids' : list TransactionID.t) :
  (forall id, In id ids <-> In id ids') ->
  TransactionID.RemoveDupsAndSort ids = TransactionID.RemoveDupsAndSort ids'
  /\ TransactionID.RemoveDupsAndSort (TransactionID.RemoveDupsAndSort ids)
     = TransactionID.RemoveDupsAndSort ids.
Proof.
  intros Hsame.
  destruct (RemoveDupsAndSort_spec ids) as [Hs Hin].
  destruct (RemoveDupsAndSort_spec ids') as [Hs' Hin'].
  destruct (RemoveDupsAndSort_spec (TransactionID.RemoveDupsAndSort ids)) as [Hs2 Hin2].
  split.
  - apply strictly_sorted_unique; [exact Hs | exact Hs' |].
    intros y. rewrite Hin, Hin'. apply Hsame.
  - apply strictly_sorted_unique; [exact Hs2 | exact Hs |].
    intros y. rewrite Hin2. reflexivity.
Qed.

Lemma RemoveDupsAndSort_canonical_witness :
  let a := repeat 1 36 in
  let b := repeat 2 36 in
  (forall id, In id [b; a; b] <-> In id [a; b; a])
  /\ TransactionID.RemoveDupsAndSort [b; a; b] = [a; b]
  /\ TransactionID.RemoveDupsAndSort [b; a; b] = TransactionID.RemoveDupsAndSort [a; b; a].
Proof.
  cbv zeta.
  assert (Hsame : forall id, In id [repeat 2 36; repeat 1 36; repeat 2 36]
                             <-> In id [repeat 1 36; repeat 2 36; repeat 1 36])
    by (intros id; cbn [In]; tauto).
  split; [exact Hsame |]. split; [reflexivity |].
  exact (proj1 (RemoveDupsAndSort_canonical _ _ Hsame)).
Defined.

(** ** Account identifiers *)

(** X12. [AccountIDFromBytes] fails exactly on fewer than 32 bytes;
    otherwise the identifier is the first 32 bytes, and the count it
    reports is the length of all the bytes given, not the 32 it read. On
    the bytes [Bytes] wrote it returns the identifier and 32. *)
Theorem AccountIDFromBytes_decodes (bytes : list Z) :
  ((length bytes < 32)%nat <->
   AccountIdentifier.AccountIDFromBytes bytes = Err ErrInvalidAccountIDLength)
  /\ (forall (a : AccountIdentifier.t) (rest : list Z),
        length a = AccountIdentifier.AccountIDLength ->
        bytes = a ++ rest ->
        AccountIdentifier.AccountIDFromBytes bytes
        = Ok (a, 32 + Z.of_nat (length rest))
        /\ (let* b := AccountIdentifier.Bytes a in
            AccountIdentifier.AccountIDFromBytes b) = Ok (a, 32)).
Proof.
  unfold AccountIdentifier.AccountIDFromBytes, AccountIdentifier.AccountIDLength.
  split.
  - destruct (Nat.ltb_spec (length bytes) 32) as [Hlt | Hge].
    + split; [reflexivity | intros _; exact Hlt].
    + split; [lia | discriminate].
  - intros a rest Hlen ->. cbn [AccountIdentifier.Bytes bind_result].
    assert (Hcopy : forall tail, copy (repeat 0 32) (a ++ tail) = a).
    { intros tail. unfold copy. rewrite repeat_length, length_app, Hlen.
      rewrite Nat.min_l by lia.
      rewrite (take_app_length' a tail 32) by (symmetry; exact Hlen).
      rewrite drop_ge by (rewrite repeat_length; lia).
      apply app_nil_r. }
    rewrite length_app, Hlen.
    destruct (Nat.ltb_spec (32 + length rest) 32) as [Hlt | _]; [lia |].
    destruct (Nat.ltb_spec 32 32) as [Hlt | _]; [lia |].
    rewrite Hcopy. rewrite <- (app_nil_r a) at 3. rewrite Hcopy.
    split; [| reflexivity]. do 2 f_equal. lia.
Qed.

(** X13. The alias registry: after [RegisterAlias] the identifier answers
    with the alias and every other identifier as before; after
    [UnregisterAlias] it answers with its hex form again and every other
    identifier as before; after [UnregisterAccountIDAliases] every
    identifier answers with its hex form. *)
Theorem Alias_registry (EncodeHex : list Z -> string)
    (aliases : gmap (list Z) string) (a b : AccountIdentifier.t) (alias : string) :
  AccountIdentifier.Alias EncodeHex (AccountIdentifier.RegisterAlias aliases a alias) a
  = alias
  /\ (b <> a ->
      AccountIdentifier.Alias EncodeHex (AccountIdentifier.RegisterAlias aliases a alias) b
      = AccountIdentifier.Alias EncodeHex aliases b)
  /\ AccountIdentifier.Alias EncodeHex (AccountIdentifier.UnregisterAlias aliases a) a
     = AccountIdentifier.ToHex EncodeHex a
  /\ (b <> a ->
      AccountIdentifier.Alias EncodeHex (AccountIdentifier.UnregisterAlias aliases a) b
      = AccountIdentifier.Alias EncodeHex aliases b)
  /\ AccountIdentifier.Alias EncodeHex
       (AccountIdentifier.UnregisterAccountIDAliases aliases) b
     = AccountIdentifier.ToHex EncodeHex b.
Proof.
  unfold AccountIdentifier.Alias, AccountIdentifier.RegisterAlias,
    AccountIdentifier.UnregisterAlias, AccountIdentifier.UnregisterAccountIDAliases.
  split; [| split; [| split; [| split]]].
  - rewrite lookup_insert_eq. reflexivity.
  - intros Hne. rewrite lookup_insert_ne by congruence. reflexivity.
  - rewrite lookup_delete_eq. reflexivity.
  - intros Hne. rewrite lookup_delete_ne by congruence. reflexivity.
  - rewrite lookup_empty. reflexivity.
Qed.

(** X14. [Key] is the alias, not the identifier: two identifiers
    registered under the same alias have the same key, although [Matches]
    holds between identifiers only when they are equal. *)
Theorem AccountID_Key_follows_alias (EncodeHex : list Z -> string)
    (aliases : gmap (list Z) string) (a b : AccountIdentifier.t) (alias : string) :
  AccountIdentifier.Key EncodeHex
    (AccountIdentifier.RegisterAlias (AccountIdentifier.RegisterAlias aliases a alias)
       b alias) a
  = AccountIdentifier.Key EncodeHex
      (AccountIdentifier.RegisterAlias (AccountIdentifier.RegisterAlias aliases a alias)
         b alias) b
  /\ (AccountIdentifier.Matches a (AccountIdentifier.IsAccountID b) = true <-> a = b).
Proof.
  unfold AccountIdentifier.Key, AccountIdentifier.String,
    AccountIdentifier.Alias, AccountIdentifier.RegisterAlias. split.
  - rewrite lookup_insert_eq.
    destruct (decide (a = b)) as [-> | Hne].
    + rewrite lookup_insert_eq. reflexivity.
    + rewrite lookup_insert_ne by congruence. rewrite lookup_insert_eq. reflexivity.
  - cbn. apply bool_decide_eq_true.
Qed.

(** ** Feature slices *)

Section FeaturesProperties.

Context {T : Type}.
Variable Type_ : T -> Z.

Lemma first_of_type_None (ty : Z) (f : list T) :
  Features.first_of_type Type_ ty f = None <-> ~ In ty (map Type_ f).
Proof.
  unfold Features.first_of_type. induction f as [| x f IH]; cbn; [tauto |].
  destruct (Z.eqb_spec (Type_ x) ty) as [E | Hne].
  - split; [discriminate | intros H; exfalso; apply H; left; exact E].
  - rewrite IH. tauto.
Qed.

Lemma first_of_type_Some (ty : Z) (f : list T) (x : T) :
  Features.first_of_type Type_ ty f = Some x -> In x f /\ Type_ x = ty.
Proof.
  unfold Features.first_of_type. intros H. apply find_some in H.
  destruct H as [Hin Heq]. split; [exact Hin | lia].
Qed.

Lemma first_of_type_In (f : list T) (x : T) :
  List.NoDup (map Type_ f) -> In x f ->
  Features.first_of_type Type_ (Type_ x) f = Some x.
Proof.
  unfold Features.first_of_type. induction f as [| y f IH]; cbn; [tauto |].
  intros Hnd [-> | Hin].
  - rewrite Z.eqb_refl. reflexivity.
  - inversion Hnd as [| ? ? Hnotin Hnd']; subst.
    destruct (Z.eqb_spec (Type_ y) (Type_ x)) as [E | _].
    + exfalso. apply Hnotin. rewrite E. apply in_map. exact Hin.
    + apply IH; assumption.
Qed.

Lemma Set_loop_ok (f : list T) :
  forall set : gmap Z T,
  List.NoDup (map Type_ f) ->
  (forall x, In x f -> set !! Type_ x = None) ->
  exists set', Features.Set_loop Type_ f set = Ok set'
    /\ forall ty, set' !! ty = match Features.first_of_type Type_ ty f with
                               | Some x => Some x
                               | None => set !! ty
                               end.
Proof.
  induction f as [| feat rest IH]; intros set Hnd Hfree.
  - exists set. split; [reflexivity | intros ty; reflexivity].
  - cbn [Features.Set_loop]. rewrite (Hfree feat) by (left; reflexivity).
    inversion Hnd as [| ? ? Hnotin Hnd']; subst.
    destruct (IH (<[Type_ feat := feat]> set) Hnd') as (set' & Hrun & Hlook).
    { intros x Hx. rewrite lookup_insert_ne.
      - apply Hfree. right. exact Hx.
      - intros E. apply Hnotin. rewrite E. apply in_map. exact Hx. }
    exists set'. split; [exact Hrun |]. intros ty. rewrite Hlook.
    unfold Features.first_of_type. cbn [List.find].
    destruct (Z.eqb_spec (Type_ feat) ty) as [E | Hne].
    + subst ty.
      assert (Hnone : Features.first_of_type Type_ (Type_ feat) rest = None)
        by (apply first_of_type_None; exact Hnotin).
      unfold Features.first_of_type in Hnone. rewrite Hnone.
      apply lookup_insert_eq.
    + destruct (List.find (fun ele => Type_ ele =? ty) rest); [reflexivity |].
      apply lookup_insert_ne. exact Hne.
Qed.

Lemma Set_loop_err (f : list T) :
  forall set : gmap Z T,
  ~ List.NoDup (map Type_ f) \/ (exists x, In x f /\ set !! Type_ x <> None) ->
  Features.Set_loop Type_ f set = Err ErrNonUniqueFeatures.
Proof.
  induction f as [| feat rest IH]; intros set Hbad.
  - destruct Hbad as [Hnd | (x & [] & _)]. exfalso. apply Hnd. constructor.
  - cbn [Features.Set_loop].
    destruct (set !! Type_ feat) as [old |] eqn:Hlook; [reflexivity |].
    apply IH.
    destruct (in_dec Z.eq_dec (Type_ feat) (map Type_ rest)) as [Hin | Hnotin].
    + right. apply in_map_iff in Hin. destruct Hin as (x & Hx & Hinx).
      exists x. split; [exact Hinx |]. rewrite Hx, lookup_insert_eq. discriminate.
    + destruct Hbad as [Hnd | (x & [-> | Hinx] & Hx)].
      * left. intros Hnd'. apply Hnd. cbn. constructor; assumption.
      * congruence.
      * right. exists x. split; [exact Hinx |].
        destruct (Z.eq_dec (Type_ feat) (Type_ x)) as [E | Hne].
        -- rewrite E, lookup_insert_eq. discriminate.
        -- rewrite lookup_insert_ne by exact Hne. exact Hx.
Qed.

(** X15. [Set] succeeds exactly on a slice in which no feature type occurs
    twice, and then the set holds under each type the feature of the slice
    with that type, and nothing under the other types; on any other slice
    it returns [ErrNonUniqueFeatures], and [MustSet] panics. *)
Theorem Features_Set_unique_types (f : list T) :
  (List.NoDup (map Type_ f) ->
   exists set, Features.Set' Type_ f = Ok set
               /\ Features.MustSet Type_ f = Ok set
               /\ (forall feat, In feat f -> set !! Type_ feat = Some feat)
               /\ (forall ty, set !! ty = Features.first_of_type Type_ ty f))
  /\ (~ List.NoDup (map Type_ f) ->
      Features.Set' Type_ f = Err ErrNonUniqueFeatures
      /\ Features.MustSet Type_ f = Panic).
Proof.
  split.
  - intros Hnd. unfold Features.MustSet, Features.Set'.
    destruct (Set_loop_ok f ∅ Hnd) as (set & Hrun & Hlook).
    { intros x _. apply lookup_empty. }
    exists set. rewrite Hrun.
    assert (Hall : forall ty, set !! ty = Features.first_of_type Type_ ty f).
    { intros ty. rewrite Hlook.
      destruct (Features.first_of_type Type_ ty f); [reflexivity | apply lookup_empty]. }
    split; [reflexivity |]. split; [reflexivity |]. split; [| exact Hall].
    intros feat Hin. rewrite Hall. apply first_of_type_In; assumption.
  - intros Hnd. unfold Features.MustSet, Features.Set'.
    rewrite (Set_loop_err f ∅) by (left; exact Hnd). split; reflexivity.
Qed.

Lemma Upsert_types (f : list T) (feature : T) :
  map Type_ (Features.Upsert Type_ f feature)
  = match Features.first_of_type Type_ (Type_ feature) f with
    | Some _ => map Type_ f
    | None => map Type_ f ++ [Type_ feature]
    end.
Proof.
  unfold Features.first_of_type. induction f as [| ele rest IH]; cbn; [reflexivity |].
  destruct (Z.eqb_spec (Type_ ele) (Type_ feature)) as [E | Hne]; cbn.
  - rewrite E. reflexivity.
  - rewrite IH.
    destruct (List.find (fun ele0 => Type_ ele0 =? Type_ feature) rest); reflexivity.
Qed.

Lemma Upsert_first_of_type (f : list T) (feature : T) (ty : Z) :
  Features.first_of_type Type_ ty (Features.Upsert Type_ f feature)
  = if ty =? Type_ feature then Some feature else Features.first_of_type Type_ ty f.
Proof.
  unfold Features.first_of_type. induction f as [| ele rest IH]; cbn.
  - rewrite (Z.eqb_sym (Type_ feature) ty).
    destruct (ty =? Type_ feature); reflexivity.
  - destruct (Z.eqb_spec (Type_ ele) (Type_ feature)) as [E | Hne]; cbn.
    + rewrite E. rewrite (Z.eqb_sym (Type_ feature) ty).
      destruct (ty =? Type_ feature); reflexivity.
    + destruct (Z.eqb_spec (Type_ ele) ty) as [E' | Hne'].
      * destruct (Z.eqb_spec ty (Type_ feature)) as [E'' | _]; [congruence | reflexivity].
      * exact IH.
Qed.

Lemma Upsert_NoDup (f : list T) (feature : T) :
  List.NoDup (map Type_ f) -> List.NoDup (map Type_ (Features.Upsert Type_ f feature)).
Proof.
  intros Hnd. rewrite Upsert_types.
  destruct (Features.first_of_type Type_ (Type_ feature) f) eqn:Hfind; [exact Hnd |].
  apply first_of_type_None in Hfind.
  rewrite <- (rev_involutive (map Type_ f ++ [Type_ feature])).
  apply NoDup_rev. rewrite rev_app_distr. cbn.
  constructor; [rewrite <- in_rev; exact Hfind | apply NoDup_rev; exact Hnd].
Qed.

(** X16. [Upsert] makes the given feature the one found under its type and
    leaves what is found under every other type alone; it replaces in
    place when the type is present and appends otherwise, so the types of
    the slice stay in their order and a slice without repeated types stays
    one. *)
Theorem Features_Upsert_lookup (f : list T) (feature : T) :
  (forall ty,
     Features.first_of_type Type_ ty (Features.Upsert Type_ f feature)
     = if ty =? Type_ feature then Some feature else Features.first_of_type Type_ ty f)
  /\ map Type_ (Features.Upsert Type_ f feature)
     = match Features.first_of_type Type_ (Type_ feature) f with
       | Some _ => map Type_ f
       | None => map Type_ f ++ [Type_ feature]
       end
  /\ (List.NoDup (map Type_ f) -> List.NoDup (map Type_ (Features.Upsert Type_ f feature))).
Proof.
  split; [intros ty; apply Upsert_first_of_type |].
  split; [apply Upsert_types |].
  apply Upsert_NoDup.
Qed.

Lemma Remove_first_of_type_other (f : list T) (ty ty' : Z) :
  ty' <> ty ->
  Features.first_of_type Type_ ty' (fst (Features.Remove Type_ f ty))
  = Features.first_of_type Type_ ty' f.
Proof.
  intros Hne. unfold Features.first_of_type.
  induction f as [| ele rest IH]; cbn; [reflexivity |].
  destruct (Z.eqb_spec (Type_ ele) ty) as [E | Hne']; cbn.
  - destruct (Z.eqb_spec (Type_ ele) ty') as [E' | _]; [congruence | reflexivity].
  - destruct (Features.Remove Type_ rest ty) as [rest' removed] eqn:Hrem. cbn in IH |- *.
    rewrite IH. reflexivity.
Qed.

Lemma Remove_types_incl (f : list T) (ty : Z) :
  forall x, In x (fst (Features.Remove Type_ f ty)) -> In x f.
Proof.
  induction f as [| ele rest IH]; cbn; [tauto |].
  destruct (Type_ ele =? ty); cbn; [intros x Hx; right; exact Hx |].
  destruct (Features.Remove Type_ rest ty) as [rest' removed]. cbn in IH |- *.
  intros x [-> | Hx]; [left; reflexivity | right; apply IH; exact Hx].
Qed.

Lemma Remove_absent (f : list T) (ty : Z) :
  Features.first_of_type Type_ ty f = None -> Features.Remove Type_ f ty = (f, false).
Proof.
  unfold Features.first_of_type. induction f as [| ele rest IH]; cbn; [reflexivity |].
  destruct (Type_ ele =? ty); [discriminate |].
  intros H. rewrite (IH H). reflexivity.
Qed.

Lemma Remove_unique (f : list T) (ty : Z) :
  List.NoDup (map Type_ f) ->
  Features.first_of_type Type_ ty (fst (Features.Remove Type_ f ty)) = None
  /\ List.NoDup (map Type_ (fst (Features.Remove Type_ f ty))).
Proof.
  induction f as [| ele rest IH]; cbn; intros Hnd.
  - split; [reflexivity | constructor].
  - inversion Hnd as [| ? ? Hnotin Hnd']; subst.
    destruct (Z.eqb_spec (Type_ ele) ty) as [E | Hne]; cbn.
    + split; [| exact Hnd']. apply first_of_type_None. rewrite <- E. exact Hnotin.
    + destruct (IH Hnd') as [Hnone Hnd''].
      pose proof (Remove_types_incl rest ty) as Hincl.
      destruct (Features.Remove Type_ rest ty) as [rest' removed]. cbn in *.
      split.
      * unfold Features.first_of_type in *. cbn.
        destruct (Z.eqb_spec (Type_ ele) ty); [contradiction | exact Hnone].
      * constructor; [| exact Hnd''].
        intros Hin. apply Hnotin. apply in_map_iff in Hin.
        destruct Hin as (x & Hx & Hinx). rewrite <- Hx. apply in_map.
        apply Hincl. exact Hinx.
Qed.

(** X17. [Remove] reports whether the slice held a feature of the type; it
    drops the first one only, so what is found under the other types is
    unchanged, a slice without the type is returned as it is, and in a
    slice without repeated types nothing of the type remains. Removing the
    type of a feature just upserted into a slice that lacked it gives the
    slice back. *)
Theorem Features_Remove_spec (f : list T) (ty : Z) :
  snd (Features.Remove Type_ f ty)
  = match Features.first_of_type Type_ ty f with Some _ => true | None => false end
  /\ (forall ty', ty' <> ty ->
        Features.first_of_type Type_ ty' (fst (Features.Remove Type_ f ty))
        = Features.first_of_type Type_ ty' f)
  /\ (Features.first_of_type Type_ ty f = None -> fst (Features.Remove Type_ f ty) = f)
  /\ (List.NoDup (map Type_ f) ->
      Features.first_of_type Type_ ty (fst (Features.Remove Type_ f ty)) = None
      /\ List.NoDup (map Type_ (fst (Features.Remove Type_ f ty))))
  /\ (forall feature,
        Type_ feature = ty ->
        Features.first_of_type Type_ ty f = None ->
        Features.Remove Type_ (Features.Upsert Type_ f feature) ty = (f, true)).
Proof.
  split; [| split; [| split; [| split]]].
  - unfold Features.first_of_type. induction f as [| ele rest IH]; cbn; [reflexivity |].
    destruct (Type_ ele =? ty); cbn; [reflexivity |].
    destruct (Features.Remove Type_ rest ty) as [rest' removed]. exact IH.
  - intros ty' Hne. apply Remove_first_of_type_other. exact Hne.
  - intros Hnone. rewrite (Remove_absent f ty Hnone). reflexivity.
  - apply Remove_unique.
  - intros feature <-. unfold Features.first_of_type.
    induction f as [| ele rest IH]; cbn.
    + intros _. rewrite Z.eqb_refl. reflexivity.
    + destruct (Z.eqb_spec (Type_ ele) (Type_ feature)) as [E | Hne]; [discriminate |].
      intros Hnone. cbn. destruct (Z.eqb_spec (Type_ ele) (Type_ feature)); [contradiction |].
      rewrite (IH Hnone). reflexivity.
Qed.

End FeaturesProperties.

Lemma WorkScore_loop_exact {T : Type} (WorkScore_ : T -> result Z) (score : T -> Z)
    (f : list T) :
  (forall feat, In feat f -> WorkScore_ feat = Ok (score feat) /\ is_uint32 (score feat)) ->
  forall acc, is_uint32 acc ->
  Features.WorkScore_loop WorkScore_ f acc
  = if acc + WorkScore.sum_scores (map score f) <=? MaxUint32
    then Ok (acc + WorkScore.sum_scores (map score f)) else Err ErrIntegerOverflow.
Proof.
  induction f as [| feat rest IH]; intros Hscores acc Hacc; cbn.
  - rewrite Z.add_0_r. unfold is_uint32 in Hacc.
    destruct (Z.leb_spec acc MaxUint32); [reflexivity | lia].
  - destruct (Hscores feat (or_introl eq_refl)) as [Hok Hrange].
    rewrite Hok. cbn [bind_result].
    rewrite SafeAdd_exact by assumption.
    assert (Hrest : 0 <= WorkScore.sum_scores (map score rest)).
    { apply sum_scores_nonneg. apply List.Forall_forall. intros x Hx.
      apply in_map_iff in Hx. destruct Hx as (y & <- & Hy).
      apply Hscores. right. exact Hy. }
    destruct (Z.leb_spec (acc + score feat) MaxUint32) as [Hle | Hgt]; cbn [bind_result].
    + rewrite IH.
      * rewrite Z.add_assoc. reflexivity.
      * intros x Hx. apply Hscores. right. exact Hx.
      * unfold is_uint32 in *. lia.
    + destruct (Z.leb_spec (acc + (score feat + WorkScore.sum_scores (map score rest))) MaxUint32);
        [lia | reflexivity].
Qed.

(** X18. [Features.WorkScore] never wraps: when every feature reports a
    work score, the result is the exact sum of the scores if that fits
    uint32 and the overflow error otherwise. *)
Theorem Features_WorkScore_exact {T : Type} (WorkScore_ : T -> result Z) (score : T -> Z)
    (f : list T) :
  (forall feat, In feat f -> WorkScore_ feat = Ok (score feat) /\ is_uint32 (score feat)) ->
  Features.WorkScore WorkScore_ f
  = if WorkScore.sum_scores (map score f) <=? MaxUint32
    then Ok (WorkScore.sum_scores (map score f)) else Err ErrIntegerOverflow.
Proof.
  intros Hscores. unfold Features.WorkScore.
  rewrite (WorkScore_loop_exact WorkScore_ score f Hscores 0).
  - reflexivity.
  - unfold is_uint32, MaxUint32. lia.
Qed.

Lemma Features_WorkScore_exact_witness :
  let score := fun x : Z => x in
  (forall feat, In feat [MaxUint32; 1] -> Ok (score feat) = Ok (score feat) /\ is_uint32 (score feat))
  /\ Features.WorkScore (fun x => Ok x) [MaxUint32; 1] = Err ErrIntegerOverflow.
Proof.
  cbv zeta.
  assert (H : forall feat, In feat [MaxUint32; 1] ->
                Ok feat = Ok feat /\ is_uint32 feat).
  { intros feat [<- | [<- | []]]; (split; [reflexivity |]); unfold is_uint32, MaxUint32; lia. }
  split; [exact H |].
  rewrite (Features_WorkScore_exact (fun x => Ok x) (fun x => x) [MaxUint32; 1] H).
  reflexivity.
Defined.

(** ** The entry point of the state-transition validation *)

Section ChainSTVFProperties.

Variable HasManalockCondition : UnlockConditionSet -> AccountID -> SlotIndex -> bool.
Variable FoundryOutput_ID : FoundryOutput.t -> result FoundryID.
Variable TokenScheme_StateTransition :
  TokenScheme -> ChainTransitionType -> option TokenScheme -> option Z -> option Z -> result unit.
Variable IsIssuerOnOutputUnlocked : Output -> list (Address * Z) -> result unit.

Local Abbreviation chainSTVF :=
  (ChainSTVF HasManalockCondition FoundryOutput_ID TokenScheme_StateTransition
     IsIssuerOnOutputUnlocked).

(** X19. A chain never continues as an output of another kind: for a
    state change or a destruction, [ChainSTVF] given a consumed output and
    a created output of different kinds returns an error when the
    consumed one is an account, foundry or NFT output, and panics when it
    is of any other kind; it never accepts. *)
Theorem ChainSTVF_other_kind_never_valid (transType : ChainTransitionType)
    (input : ChainOutputWithCreationTime.t) (next : Output) (vmParams : Params.t) :
  transType <> ChainTransitionTypeGenesis ->
  Output_Type (ChainOutputWithCreationTime.Output input) <> Output_Type next ->
  chainSTVF transType (Some input) (Some next) vmParams
  = match ChainOutputWithCreationTime.Output input with
    | Account _ | Foundry _ | NFT _ => Err ErrChainOutputKind
    | _ => Panic
    end.
Proof.
  intros Htype Hkind. unfold ChainSTVF.
  destruct transType; [contradiction | |];
    cbn [bind_result];
    destruct (ChainOutputWithCreationTime.Output input), next;
    cbn in Hkind |- *; try reflexivity; contradiction.
Qed.

(** X20. A new account is accepted exactly when its identifier is zeroed,
    its block issuer feature, if it has one, expires never (slot 0) or not
    before the creation slot plus the liveness threshold, and its issuer
    is unlocked; the consumed output handed in is not looked at, and
    neither are the state index and the foundry counter of the new
    account. *)
Theorem ChainSTVF_account_genesis (input : option ChainOutputWithCreationTime.t)
    (next : AccountOutput.t) (vmParams : Params.t) :
  chainSTVF ChainTransitionTypeGenesis input (Some (Account next)) vmParams = valid
  <-> AccountOutput.AccountID next = 0
      /\ (forall nextBIFeat,
            BlockIssuer (AccountOutput.FeatureSet next) = Some nextBIFeat ->
            ExpirySlot nextBIFeat = 0
            \/ uint64 (CreationTime (essence_of vmParams)
                       + ProtocolParameters.LivenessThreshold (protocol_of vmParams))
               <= ExpirySlot nextBIFeat)
      /\ IsIssuerOnOutputUnlocked (Account next)
           (WorkingSet.UnlockedIdents (Params.WorkingSet vmParams)) = valid.
Proof.
  unfold ChainSTVF. cbn [bind_result accountSTVF]. unfold accountGenesisValid, AccountID_Empty.
  destruct (Z.eqb_spec (AccountOutput.AccountID next) 0) as [Hid | Hid]; cbn [negb].
  2: { split; [discriminate | intros [H _]; contradiction]. }
  destruct (BlockIssuer (AccountOutput.FeatureSet next)) as [bi |].
  - destruct (Z.eqb_spec (ExpirySlot bi) 0) as [Hz | Hz]; cbn [negb andb].
    + split.
      * intros H. split; [exact Hid |]. split; [| exact H].
        intros bi' E. injection E as <-. left. exact Hz.
      * intros (_ & _ & H). exact H.
    + destruct (Z.ltb_spec (ExpirySlot bi)
                  (uint64 (CreationTime (essence_of vmParams)
                           + ProtocolParameters.LivenessThreshold (protocol_of vmParams))))
        as [Hlt | Hge].
      * split; [discriminate |]. intros (_ & Hbi & _).
        destruct (Hbi bi eq_refl) as [E | Hle]; [contradiction | lia].
      * split.
        -- intros H. split; [exact Hid |]. split; [| exact H].
           intros bi' E. injection E as <-. right. exact Hge.
        -- intros (_ & _ & H). exact H.
  - split.
    + intros H. split; [exact Hid |]. split; [| exact H]. intros bi' E. discriminate E.
    + intros (_ & _ & H). exact H.
Qed.

(** X21. NFT chains: destroying an NFT is always accepted; a state change
    is accepted exactly when the immutable features are the same on both
    sides, whatever else changes; a new NFT is accepted exactly when its
    identifier is zeroed and its issuer is unlocked. *)
Theorem ChainSTVF_nft (chainID : ChainID) (creationTime : SlotIndex)
    (current next : NFTOutput.t)
    (input' : option ChainOutputWithCreationTime.t) (vmParams : Params.t) :
  let input :=
    {| ChainOutputWithCreationTime.ChainID := chainID;
       ChainOutputWithCreationTime.Output := NFT current;
       ChainOutputWithCreationTime.CreationTime := creationTime |} in
  chainSTVF ChainTransitionTypeDestroy (Some input) None vmParams = valid
  /\ (chainSTVF ChainTransitionTypeStateChange (Some input) (Some (NFT next)) vmParams = valid
      <-> NFTOutput.ImmutableFeatures current = NFTOutput.ImmutableFeatures next)
  /\ (chainSTVF ChainTransitionTypeGenesis input' (Some (NFT next)) vmParams = valid
      <-> NFTOutput.NFTID next = 0
          /\ IsIssuerOnOutputUnlocked (NFT next)
               (WorkingSet.UnlockedIdents (Params.WorkingSet vmParams)) = valid).
Proof.
  cbv zeta. unfold ChainSTVF. cbn [bind_result ChainOutputWithCreationTime.Output nftSTVF
    as_NFTOutput]. split; [reflexivity |]. split.
  - unfold nftStateChangeValid, Features_Equal.
    destruct (bool_decide_reflect (NFTOutput.ImmutableFeatures current
                                   = NFTOutput.ImmutableFeatures next)) as [E | Hne];
      cbn; [split; [intros _; exact E | reflexivity] |].
    split; [discriminate | contradiction].
  - unfold nftGenesisValid, NFTID_Empty.
    destruct (Z.eqb_spec (NFTOutput.NFTID next) 0) as [Hid | Hid]; cbn [negb].
    + destruct (IsIssuerOnOutputUnlocked (NFT next)
                  (WorkingSet.UnlockedIdents (Params.WorkingSet vmParams))) as [[] | e |];
        cbn.
      * split; [intros _; split; [exact Hid | reflexivity] | intros _; reflexivity].
      * split; [discriminate | intros [_ H]; discriminate H].
      * split; [discriminate | intros [_ H]; discriminate H].
    + cbn. split; [discriminate | intros [H _]; contradiction].
Qed.

(** X22. A foundry state change is accepted exactly when the immutable
    features are the same on both sides, the identifiers of both sides can
    be computed and are equal, and the token scheme accepts the transition
    with the native token sums of the transaction. With the same immutable
    features and two computable but different identifiers the validation
    panics. *)
Theorem ChainSTVF_foundry_state_change (chainID : ChainID) (creationTime : SlotIndex)
    (current next : FoundryOutput.t) (vmParams : Params.t) :
  let input :=
    {| ChainOutputWithCreationTime.ChainID := chainID;
       ChainOutputWithCreationTime.Output := Foundry current;
       ChainOutputWithCreationTime.CreationTime := creationTime |} in
  let inSums := WorkingSet.InNativeTokens (Params.WorkingSet vmParams) in
  let outSums := WorkingSet.OutNativeTokens (Params.WorkingSet vmParams) in
  (chainSTVF ChainTransitionTypeStateChange (Some input) (Some (Foundry next)) vmParams = valid
   <-> FoundryOutput.ImmutableFeatures current = FoundryOutput.ImmutableFeatures next
       /\ exists id,
            FoundryOutput_ID current = Ok id
            /\ FoundryOutput_ID next = Ok id
            /\ TokenScheme_StateTransition (FoundryOutput.TokenScheme current)
                 ChainTransitionTypeStateChange (Some (FoundryOutput.TokenScheme next))
                 (Some (ValueOrBigInt0 inSums id)) (Some (ValueOrBigInt0 outSums id)) = valid)
  /\ (forall id id',
        FoundryOutput.ImmutableFeatures current = FoundryOutput.ImmutableFeatures next ->
        FoundryOutput_ID current = Ok id -> FoundryOutput_ID next = Ok id' -> id <> id' ->
        chainSTVF ChainTransitionTypeStateChange (Some input) (Some (Foundry next)) vmParams
        = Panic).
Proof.
  cbv zeta. unfold ChainSTVF. cbn [bind_result ChainOutputWithCreationTime.Output foundrySTVF
    as_FoundryOutput]. unfold wrap_foundry_error, foundryStateChangeValid, Features_Equal,
    FoundryOutput_MustID.
  destruct (bool_decide_reflect (FoundryOutput.ImmutableFeatures current
                                 = FoundryOutput.ImmutableFeatures next)) as [E | Hne];
    cbn [negb].
  - destruct (FoundryOutput_ID current) as [id | e | ] eqn:Hcur; cbn [bind_result].
    + destruct (FoundryOutput_ID next) as [id' | e' | ] eqn:Hnext; cbn [bind_result].
      * destruct (Z.eqb_spec id id') as [<- | Hdiff]; cbn [negb].
        -- split.
           ++ split.
              ** intros Hts. split; [exact E |]. exists id.
                 split; [reflexivity |]. split; [reflexivity |].
                 destruct (TokenScheme_StateTransition _ _ _ _ _) as [[] | e'' |];
                   cbn in Hts; try discriminate Hts. reflexivity.
              ** intros (_ & id2 & Hid2 & _ & Hts). injection Hid2 as <-.
                 rewrite Hts. reflexivity.
           ++ intros id1 id2 _ H1 H2 Hd. congruence.
        -- split.
           ++ split; [discriminate |]. intros (_ & id2 & H1 & H2 & _). congruence.
           ++ intros; reflexivity.
      * split.
        -- split; [discriminate |]. intros (_ & id2 & _ & H2 & _). discriminate H2.
        -- intros id1 id2 _ _ H2. discriminate H2.
      * split.
        -- split; [discriminate |]. intros (_ & id2 & _ & H2 & _). discriminate H2.
        -- intros id1 id2 _ _ H2. discriminate H2.
    + split.
      * split; [discriminate |]. intros (_ & id2 & H1 & _). discriminate H1.
      * intros id1 id2 _ H1. discriminate H1.
    + split.
      * split; [discriminate |]. intros (_ & id2 & H1 & _). discriminate H1.
      * intros id1 id2 _ H1. discriminate H1.
  - split.
    + split; [| intros [E _]; contradiction].
      destruct (FoundryOutput_ID current) as [id | e | ]; cbn; discriminate.
    + intros id1 id2 E. contradiction.
Qed.

End ChainSTVFProperties.

Lemma ChainSTVF_other_kind_never_valid_witness :
  let input := example_input (example_account 100 0 0 0 (Ed25519Address 7) None) 3 in
  let vmParams :=
    example_transition 5 3 (example_account 100 0 0 0 (Ed25519Address 7) None) [] [] ∅ in
  ChainTransitionTypeStateChange <> ChainTransitionTypeGenesis
  /\ Output_Type (ChainOutputWithCreationTime.Output input) <> Output_Type (NFT (example_nft 0 None))
  /\ ChainSTVF example_HasManalockCondition example_FoundryOutput_ID example_StateTransition
       example_IsIssuerOnOutputUnlocked ChainTransitionTypeStateChange (Some input)
       (Some (NFT (example_nft 0 None))) vmParams
     = Err ErrChainOutputKind.
Proof.
  cbv zeta.
  assert (H1 : ChainTransitionTypeStateChange <> ChainTransitionTypeGenesis) by discriminate.
  assert (H2 : Output_Type (ChainOutputWithCreationTime.Output
                 (example_input (example_account 100 0 0 0 (Ed25519Address 7) None) 3))
               <> Output_Type (NFT (example_nft 0 None))) by discriminate.
  split; [exact H1 |]. split; [exact H2 |].
  exact (ChainSTVF_other_kind_never_valid example_HasManalockCondition
           example_FoundryOutput_ID example_StateTransition example_IsIssuerOnOutputUnlocked
           ChainTransitionTypeStateChange _ _
           (example_transition 5 3 (example_account 100 0 0 0 (Ed25519Address 7) None) [] [] ∅)
           H1 H2).
Defined.

(** ** Features of an output and work score structures *)

(** X23. [FeatureUnchanged] accepts exactly when both sets hold the same
    under the feature type: the feature is absent from both, or present in
    both and equal; every rejection is [ErrInvalidFeatureTransition]. So it
    is reflexive, symmetric and transitive in the two sets. *)
Theorem FeatureUnchanged_iff (featType : FeatureType) (inFeatSet outFeatSet : FeatureSet) :
  (FeatureUnchanged featType inFeatSet outFeatSet = valid
   <-> FeatureSet_lookup inFeatSet featType = FeatureSet_lookup outFeatSet featType)
  /\ (FeatureUnchanged featType inFeatSet outFeatSet = valid
      \/ FeatureUnchanged featType inFeatSet outFeatSet = Err ErrInvalidFeatureTransition)
  /\ FeatureUnchanged featType inFeatSet outFeatSet
     = FeatureUnchanged featType outFeatSet inFeatSet.
Proof.
  unfold FeatureUnchanged, Feature_Equal.
  destruct (FeatureSet_lookup inFeatSet featType) as [a |],
           (FeatureSet_lookup outFeatSet featType) as [b |].
  - destruct (bool_decide_reflect (a = b)) as [-> | Hne]; cbn.
    + rewrite bool_decide_eq_true_2 by reflexivity. cbn.
      split; [split; reflexivity |]. split; [left |]; reflexivity.
    + rewrite bool_decide_eq_false_2 by congruence. cbn.
      split; [split; [discriminate | congruence] |]. split; [right |]; reflexivity.
  - split; [split; discriminate |]. split; [right |]; reflexivity.
  - split; [split; discriminate |]. split; [right |]; reflexivity.
  - split; [split; reflexivity |]. split; [left |]; reflexivity.
Qed.

(** X24. [WorkScoreStructure.Equals] holds exactly between equal
    structures: it compares every field. *)
Theorem WorkScoreStructure_Equals_iff (w other : WorkScore.WorkScoreStructure) :
  WorkScoreStructure_Equals w other = true <-> w = other.
Proof.
  unfold WorkScoreStructure_Equals. split.
  - intros H. repeat (apply andb_prop in H; destruct H as [H ?]).
    destruct w, other; cbn in *. f_equal; lia.
  - intros ->. rewrite !Z.eqb_refl. reflexivity.
Qed.

Lemma Multiply_in_range (w n : Z) :
  is_uint32 w -> is_uint32 n ->
  WorkScore.Multiply w n
  = if w * n <=? MaxUint32 then Ok (w * n) else Err ErrIntegerOverflow.
Proof.
  intros Hw Hn. unfold WorkScore.Multiply.
  rewrite (uint32_small n Hn). rewrite SafeMul_exact by assumption.
  destruct (w * n <=? MaxUint32); reflexivity.
Qed.

Lemma plus_assign_uint32 (a b : Z) :
  WorkScore.plus_assign (uint32 a) b = uint32 (a + b).
Proof.
  unfold WorkScore.plus_assign, uint32. apply Z.add_mod_idemp_l. lia.
Qed.

(** X25. [MaxBlockWork] returns the overflow error exactly when one of the
    products it computes with [Multiply] exceeds uint32; otherwise it
    returns the exact total reduced modulo 2^32, which is the exact total
    whenever that fits uint32. *)
Theorem MaxBlockWork_result (c : WorkScore.Limits) (w : WorkScore.WorkScoreStructure) :
  WorkScoreStructure_in_range w -> Limits_in_range c ->
  WorkScore.MaxBlockWork c w
  = if forallb (fun p => p <=? MaxUint32) (MaxBlockWork_products c w)
    then Ok (uint32 (WorkScore.max_block_work_exact c w))
    else Err ErrIntegerOverflow.
Proof.
  intros (H1 & H2 & H3 & H4 & H5 & H6 & H7 & H8 & H9 & H10 & H11 & H12)
         (L1 & L2 & L3 & L4 & L5 & L6 & L7 & L8).
  assert (H12' : is_uint32 (WorkScore.MinStrongParentsThreshold w))
    by (unfold is_uint32, MaxUint32; lia).
  unfold WorkScore.MaxBlockWork, MaxBlockWork_products.
  rewrite !Multiply_in_range by assumption.
  cbn [forallb].
  destruct (WorkScore.DataKibibyte w * WorkScore.MaxBlockSize c <=? MaxUint32);
    cbn [bind_result andb]; [| reflexivity].
  destruct (WorkScore.MissingParent w * WorkScore.MinStrongParentsThreshold w <=? MaxUint32);
    cbn [bind_result andb]; [| reflexivity].
  destruct (WorkScore.Input w * WorkScore.MaxInputsCount c <=? MaxUint32);
    cbn [bind_result andb]; [| reflexivity].
  destruct (WorkScore.ContextInput w * WorkScore.MaxContextInputsCount c <=? MaxUint32);
    cbn [bind_result andb]; [| reflexivity].
  destruct (WorkScore.Output w * WorkScore.MaxOutputsCount c <=? MaxUint32);
    cbn [bind_result andb]; [| reflexivity].
  destruct (WorkScore.NativeToken w
            * (WorkScore.MaxNativeTokenCountPerOutput c * WorkScore.MaxOutputsCount c)
            <=? MaxUint32);
    cbn [bind_result andb]; [| reflexivity].
  destruct (WorkScore.Staking w * WorkScore.MaxOutputsCount c <=? MaxUint32);
    cbn [bind_result andb]; [| reflexivity].
  destruct (WorkScore.BlockIssuer w * WorkScore.MaxOutputsCount c <=? MaxUint32);
    cbn [bind_result andb]; [| reflexivity].
  destruct (WorkScore.Allotment w * WorkScore.MaxAllotmentCount c <=? MaxUint32);
    cbn [bind_result andb]; [| reflexivity].
  destruct (WorkScore.SignatureEd25519 w * (1 + WorkScore.MaxInputsCount c) <=? MaxUint32);
    cbn [bind_result andb]; [| reflexivity].
  f_equal. unfold WorkScore.max_block_work_exact.
  change (WorkScore.plus_assign 0) with (WorkScore.plus_assign (uint32 0)).
  rewrite !plus_assign_uint32. reflexivity.
Qed.

Lemma MaxBlockWork_result_witness :
  WorkScoreStructure_in_range (example_work_scores 10 40)
  /\ Limits_in_range example_limits
  /\ WorkScore.MaxBlockWork example_limits (example_work_scores 10 40) = Ok 217500
  /\ WorkScore.MaxBlockWork example_limits (example_work_scores 10 (2 ^ 25))
     = Err ErrIntegerOverflow.
Proof.
  assert (Hw : forall d s, is_uint32 d -> is_uint32 s ->
                 WorkScoreStructure_in_range (example_work_scores d s)).
  { intros d s Hd Hs. unfold WorkScoreStructure_in_range, example_work_scores, is_uint32,
      MaxUint32 in *. cbn. lia. }
  assert (Hc : Limits_in_range example_limits).
  { unfold Limits_in_range, example_limits, is_uint32, MaxUint32. cbn. lia. }
  assert (Hr : forall z, 0 <= z <= 2 ^ 25 -> is_uint32 z)
    by (unfold is_uint32, MaxUint32; lia).
  split; [apply Hw; apply Hr; lia |]. split; [exact Hc |]. split.
  - rewrite (MaxBlockWork_result example_limits (example_work_scores 10 40));
      [reflexivity | apply Hw; apply Hr; lia | exact Hc].
  - rewrite (MaxBlockWork_result example_limits (example_work_scores 10 (2 ^ 25)));
      [reflexivity | apply Hw; apply Hr; lia | exact Hc].
Defined.

(** ** The transaction builder's calls *)

Section BuilderCallsProperties.

Variable Key : Address -> string.
Variable Commitment : list (option Output) -> result (list Z).
Variable SigningMessage : TransactionEssence -> result (list Z).

Lemma calls_snoc (networkID : Z) (cs : list BuilderCall) (c : BuilderCall) :
  calls networkID (cs ++ [c]) = call (calls networkID cs) c.
Proof. unfold calls. rewrite fold_left_app. reflexivity. Qed.

Lemma last_added_snoc (outputID : OutputID) (ins : list TxInput) (input : TxInput) :
  last_added outputID (ins ++ [input])
  = if InputID input =? outputID then Some input else last_added outputID ins.
Proof. unfold last_added. rewrite rev_app_distr. reflexivity. Qed.

Lemma lookup_map_assign {V : Type} (m : gmap OutputID V) (k k' : OutputID) (v : option V) :
  map_assign m k v !! k' = if k =? k' then v else m !! k'.
Proof.
  unfold map_assign. destruct (Z.eqb_spec k k') as [<- | Hne]; destruct v.
  - apply lookup_insert_eq.
  - apply lookup_delete_eq.
  - apply lookup_insert_ne. exact Hne.
  - apply lookup_delete_ne. exact Hne.
Qed.

(** What a chain of calls leaves in the builder. *)
Lemma calls_state (networkID : Z) (cs : list BuilderCall) :
  let b := calls networkID cs in
  TransactionBuilder.occurredBuildErr b = None
  /\ NetworkID (TransactionBuilder.essence b) = networkID
  /\ Inputs (TransactionBuilder.essence b) = map InputID (added_inputs cs)
  /\ Outputs (TransactionBuilder.essence b) = added_outputs cs
  /\ (forall outputID,
        TransactionBuilder.inputOwner b !! outputID
        = last_added outputID (added_inputs cs) ≫= UnlockTarget)
  /\ (forall outputID,
        TransactionBuilder.inputs b !! outputID
        = last_added outputID (added_inputs cs) ≫= Input).
Proof.
  cbv zeta. induction cs as [| c cs IH] using rev_ind.
  - cbn. repeat split; intros; apply lookup_empty.
  - rewrite calls_snoc. destruct IH as (Herr & Hnet & Hins & Houts & Hown & Hinp).
    unfold added_inputs, added_outputs in *. rewrite !flat_map_app. cbn [flat_map].
    destruct c; cbn [call AddInput AddContextInput AddAllotment AddOutput SetCreationTime
      AddTaggedDataPayload with_essence with_Inputs TransactionBuilder.occurredBuildErr
      TransactionBuilder.essence TransactionBuilder.inputs TransactionBuilder.inputOwner
      NetworkID Inputs Outputs app]; rewrite ?app_nil_r;
      try (repeat split; assumption).
    + split; [exact Herr |]. split; [exact Hnet |]. split.
      { rewrite map_app, Hins. reflexivity. }
      split; [exact Houts |]. split.
      * intros outputID. rewrite last_added_snoc, lookup_map_assign.
        destruct (InputID input =? outputID); [reflexivity | apply Hown].
      * intros outputID. rewrite last_added_snoc, lookup_map_assign.
        destruct (InputID input =? outputID); [reflexivity | apply Hinp].
    + split; [exact Herr |]. split; [exact Hnet |]. split; [exact Hins |].
      split; [rewrite Houts; reflexivity |]. split; assumption.
Qed.

Lemma last_added_In (outputID : OutputID) (ins : list TxInput) :
  In outputID (map InputID ins) ->
  exists input, last_added outputID ins = Some input /\ In input ins.
Proof.
  intros Hin. apply in_map_iff in Hin. destruct Hin as (input & Hid & Hin).
  unfold last_added.
  destruct (List.find (fun input0 => InputID input0 =? outputID) (rev ins)) as [found |]
    eqn:Hfind.
  - exists found. split; [reflexivity |].
    apply find_some in Hfind. apply in_rev. exact (proj1 Hfind).
  - exfalso. apply in_rev in Hin.
    pose proof (find_none _ _ Hfind input Hin) as Hf. cbn beta in Hf.
    rewrite Hid, Z.eqb_refl in Hf. discriminate Hf.
Qed.

Lemma assignUnlocks_no_panic (signer : AddressSigner) (txEssenceData : list Z)
    (inputOwner : gmap OutputID Address) (inputs : list (option Output))
    (inputRefs : list OutputID) :
  (forall addr data, signer addr data <> Panic) ->
  (forall outputID, In outputID inputRefs -> is_Some (inputOwner !! outputID)) ->
  forall (i : nat) (unlockPos : gmap string nat) (unlocks : list Unlock),
  (i + length inputRefs <= length inputs)%nat ->
  assignUnlocks Key signer txEssenceData inputOwner inputs inputRefs i unlockPos unlocks
  <> Panic.
Proof.
  intros Hsigner. induction inputRefs as [| inputRef rest IH];
    intros Howned i unlockPos unlocks Hlen; cbn [assignUnlocks]; [discriminate |].
  destruct (Howned inputRef (or_introl eq_refl)) as [addr Haddr]. rewrite Haddr.
  assert (Hidx : exists input, index_inputs inputs i = Ok input).
  { unfold index_inputs. destruct (inputs !! i) as [input |] eqn:Hi; [eauto |].
    apply lookup_ge_None in Hi. cbn in Hlen. lia. }
  destruct Hidx as [input Hidx].
  assert (Hrest : forall outputID, In outputID rest -> is_Some (inputOwner !! outputID))
    by (intros outputID Hin; apply Howned; right; exact Hin).
  cbn [length] in Hlen.
  destruct (unlockPos !! Key addr) as [pos |].
  - rewrite Hidx. cbn [bind_result]. apply IH; [exact Hrest | lia].
  - destruct (isChainAddress addr); [discriminate |].
    destruct (signer addr txEssenceData) as [signature | e |] eqn:Hsig; cbn [bind_result].
    + rewrite Hidx. cbn [bind_result]. apply IH; [exact Hrest | lia].
    + discriminate.
    + exfalso. exact (Hsigner _ _ Hsig).
Qed.

Lemma assignUnlocks_length (signer : AddressSigner) (txEssenceData : list Z)
    (inputOwner : gmap OutputID Address) (inputs : list (option Output))
    (inputRefs : list OutputID) :
  forall (i : nat) (unlockPos : gmap string nat) (unlocks unlocks' : list Unlock),
  assignUnlocks Key signer txEssenceData inputOwner inputs inputRefs i unlockPos unlocks
  = Ok unlocks' ->
  length unlocks' = (length unlocks + length inputRefs)%nat.
Proof.
  induction inputRefs as [| inputRef rest IH]; intros i unlockPos unlocks unlocks' Hrun;
    cbn [assignUnlocks] in Hrun.
  - injection Hrun as <-. cbn. lia.
  - destruct (inputOwner !! inputRef) as [addr |]; [| discriminate].
    destruct (unlockPos !! Key addr) as [pos |].
    + destruct (index_inputs inputs i) as [input | e |]; cbn [bind_result] in Hrun;
        try discriminate.
      apply IH in Hrun. rewrite Hrun.
      destruct addr; cbn [addReferentialUnlock]; rewrite length_app; cbn; lia.
    + destruct (isChainAddress addr); [discriminate |].
      destruct (signer addr txEssenceData) as [signature | e |]; cbn [bind_result] in Hrun;
        try discriminate.
      destruct (index_inputs inputs i) as [input | e |]; cbn [bind_result] in Hrun;
        try discriminate.
      apply IH in Hrun. rewrite Hrun, length_app. cbn. lia.
Qed.

Lemma assignUnlocks_Ok_owned (signer : AddressSigner) (txEssenceData : list Z)
    (inputOwner : gmap OutputID Address) (inputs : list (option Output))
    (inputRefs : list OutputID) :
  forall (i : nat) (unlockPos : gmap string nat) (unlocks unlocks' : list Unlock),
  assignUnlocks Key signer txEssenceData inputOwner inputs inputRefs i unlockPos unlocks
  = Ok unlocks' ->
  forall outputID, In outputID inputRefs -> is_Some (inputOwner !! outputID).
Proof.
  induction inputRefs as [| inputRef rest IH]; intros i unlockPos unlocks unlocks' Hrun;
    cbn [assignUnlocks] in Hrun; [intros outputID [] |].
  destruct (inputOwner !! inputRef) as [addr |] eqn:Haddr; [| discriminate].
  assert (Hrest : forall outputID, In outputID rest -> is_Some (inputOwner !! outputID)).
  { destruct (unlockPos !! Key addr) as [pos |].
    - destruct (index_inputs inputs i) as [input | e |]; cbn [bind_result] in Hrun;
        try discriminate.
      exact (IH _ _ _ _ Hrun).
    - destruct (isChainAddress addr); [discriminate |].
      destruct (signer addr txEssenceData) as [signature | e |]; cbn [bind_result] in Hrun;
        try discriminate.
      destruct (index_inputs inputs i) as [input | e |]; cbn [bind_result] in Hrun;
        try discriminate.
      exact (IH _ _ _ _ Hrun). }
  intros outputID [<- | Hin]; [rewrite Haddr; eexists; reflexivity | apply Hrest; exact Hin].
Qed.


(** X27. The transaction [Build] returns carries the essence the calls
    assembled, with only the inputs commitment filled in: the network of
    the builder, the inputs in the order of the [AddInput] calls and the
    outputs in the order of the [AddOutput] calls. The owner [Build] signs
    for, and the output it commits to, are those of the last [AddInput]
    call with the input's identifier. *)
Theorem Build_of_calls_essence (networkID : Z) (cs : list BuilderCall)
    (protoParams : option ProtocolParameters.t) (signer : option AddressSigner)
    (tx : Transaction) :
  Build Key Commitment SigningMessage (calls networkID cs) protoParams signer = Ok tx ->
  NetworkID (Essence tx) = networkID
  /\ Inputs (Essence tx) = map InputID (added_inputs cs)
  /\ Outputs (Essence tx) = added_outputs cs
  /\ length (Unlocks tx) = length (added_inputs cs)
  /\ (exists commitment,
        Commitment (map (fun input => last_added (InputID input) (added_inputs cs) ≫= Input)
                      (added_inputs cs)) = Ok commitment
        /\ InputsCommitment (Essence tx) = copy (repeat 0 32) commitment)
  /\ (forall input, In input (added_inputs cs) ->
        TransactionBuilder.inputOwner (calls networkID cs) !! InputID input
        = last_added (InputID input) (added_inputs cs) ≫= UnlockTarget).
Proof.
  intros HBuild.
  destruct (calls_state networkID cs) as (Herr & Hnet & Hins & Houts & Hown & Hinp).
  unfold Build in HBuild. rewrite Herr in HBuild.
  destruct protoParams; [| discriminate]. destruct signer as [sign |]; [| discriminate].
  destruct (Commitment _) as [commitment | e |] eqn:Hcom; cbn [bind_result] in HBuild;
    try discriminate.
  destruct (SigningMessage _) as [data | e |] eqn:Hmsg; cbn [bind_result] in HBuild;
    try discriminate.
  destruct (assignUnlocks _ _ _ _ _ _ _ _ _) as [unlocks | e |] eqn:Hrun;
    cbn [bind_result] in HBuild; try discriminate.
  injection HBuild as <-. cbn [Essence Unlocks with_InputsCommitment NetworkID Inputs Outputs
    InputsCommitment].
  split; [exact Hnet |]. split; [exact Hins |]. split; [exact Houts |]. split.
  - cbn [with_InputsCommitment Inputs] in Hrun.
    apply assignUnlocks_length in Hrun. rewrite Hrun, Hins. cbn. apply length_map.
  - split.
    + exists commitment. split.
      * rewrite <- Hcom. f_equal. unfold OrderedSet. rewrite Hins, map_map.
        apply map_ext. intros input. symmetry. apply Hinp.
      * f_equal. 
        assert (Hc : forall cs', InputsCommitment (TransactionBuilder.essence (calls networkID cs'))
                                 = repeat 0 32).
        { induction cs' as [| c cs' IH] using rev_ind; [reflexivity |].
          rewrite calls_snoc. destruct c; exact IH. }
        apply Hc.
    + intros input _. apply Hown.
Qed.

End BuilderCallsProperties.


Lemma Build_of_calls_essence_witness :
  exists tx,
    Build example_Key example_Commitment example_SigningMessage (calls 1 example_calls)
      (Some example_protocol) (Some example_signer) = Ok tx
    /\ Inputs (Essence tx) = [100; 100]
    /\ Outputs (Essence tx) = [example_basic 40 (Ed25519Address 9)]
    /\ TransactionBuilder.inputOwner (calls 1 example_calls) !! 100
       = Some (Ed25519Address 8).
Proof.
  destruct (Build example_Key example_Commitment example_SigningMessage (calls 1 example_calls)
              (Some example_protocol) (Some example_signer)) as [tx | e |] eqn:HBuild.
  - destruct (Build_of_calls_essence example_Key example_Commitment example_SigningMessage
                _ _ _ _ _ HBuild) as (_ & Hins & Houts & _ & _ & Hown).
    exists tx. split; [reflexivity |]. split; [exact Hins |]. split; [exact Houts |].
    exact (Hown {| UnlockTarget := Some (Ed25519Address 7); InputID := 100;
                   Input := Some (example_basic 50 (Ed25519Address 7)) |}
                (or_introl eq_refl)).
  - vm_compute in HBuild. discriminate HBuild.
  - vm_compute in HBuild. discriminate HBuild.
Defined.

(** ** Bech32: the case of a string *)

Lemma first_difference_spec (f : Z -> Z) (s : list Z) :
  forall i0,
  (bech32.first_difference i0 s (map f s) = -1 /\ forall c, In c s -> f c = c)
  \/ (exists (n : nat) (c : Z),
        bech32.first_difference i0 s (map f s) = i0 + Z.of_nat n
        /\ s !! n = Some c /\ f c <> c
        /\ forall (m : nat) (d : Z), (m < n)%nat -> s !! m = Some d -> f d = d).
Proof.
  induction s as [| c s IH]; intros i0; cbn.
  - left. split; [reflexivity | tauto].
  - destruct (Z.eqb_spec (f c) c) as [E | Hne]; cbn [negb].
    + destruct (IH (i0 + 1)) as [[Hnone Hall] | (n & d & Hidx & Hd & Hfd & Hbefore)].
      * left. split; [exact Hnone |]. intros x [<- | Hx]; [exact E | apply Hall; exact Hx].
      * right. exists (S n), d. split; [rewrite Hidx; lia |].
        split; [exact Hd |]. split; [exact Hfd |].
        intros [| m] x Hm Hx; cbn in Hx.
        -- injection Hx as <-. exact E.
        -- apply (Hbefore m x); [lia | exact Hx].
    + right. exists 0%nat, c. split; [lia |]. split; [reflexivity |].
      split; [exact Hne |]. intros m d Hm. lia.
Qed.

Lemma toLower_changes (c : Z) :
  (if (65 <=? c) && (c <=? 90) then c + 32 else c) <> c <-> is_upper c.
Proof.
  unfold is_upper.
  destruct (Z.leb_spec 65 c), (Z.leb_spec c 90); cbn; lia.
Qed.

Lemma toUpper_changes (c : Z) :
  (if (97 <=? c) && (c <=? 122) then c - 32 else c) <> c <-> is_lower c.
Proof.
  unfold is_lower.
  destruct (Z.leb_spec 97 c), (Z.leb_spec c 122); cbn; lia.
Qed.

Lemma firstUpper_spec (s : list Z) :
  (bech32.firstUpper s = -1 /\ forall c, In c s -> ~ is_upper c)
  \/ (exists (n : nat) (c : Z),
        bech32.firstUpper s = Z.of_nat n /\ s !! n = Some c /\ is_upper c
        /\ forall (m : nat) (d : Z), (m < n)%nat -> s !! m = Some d -> ~ is_upper d).
Proof.
  unfold bech32.firstUpper, bech32.ToLower.
  destruct (first_difference_spec
              (fun c => if (65 <=? c) && (c <=? 90) then c + 32 else c) s 0)
    as [[Hnone Hall] | (n & c & Hidx & Hc & Hfc & Hbefore)].
  - left. split; [exact Hnone |]. intros c Hc Hup. apply toLower_changes in Hup.
    apply Hup. apply Hall. exact Hc.
  - right. exists n, c. split; [rewrite Hidx; lia |]. split; [exact Hc |].
    split; [apply toLower_changes; exact Hfc |].
    intros m d Hm Hd Hup. apply toLower_changes in Hup. apply Hup.
    exact (Hbefore m d Hm Hd).
Qed.

Lemma firstLower_spec (s : list Z) :
  (bech32.firstLower s = -1 /\ forall c, In c s -> ~ is_lower c)
  \/ (exists (n : nat) (c : Z),
        bech32.firstLower s = Z.of_nat n /\ s !! n = Some c /\ is_lower c
        /\ forall (m : nat) (d : Z), (m < n)%nat -> s !! m = Some d -> ~ is_lower d).
Proof.
  unfold bech32.firstLower, bech32.ToUpper.
  destruct (first_difference_spec
              (fun c => if (97 <=? c) && (c <=? 122) then c - 32 else c) s 0)
    as [[Hnone Hall] | (n & c & Hidx & Hc & Hfc & Hbefore)].
  - left. split; [exact Hnone |]. intros c Hc Hlo. apply toUpper_changes in Hlo.
    apply Hlo. apply Hall. exact Hc.
  - right. exists n, c. split; [rewrite Hidx; lia |]. split; [exact Hc |].
    split; [apply toUpper_changes; exact Hfc |].
    intros m d Hm Hd Hlo. apply toUpper_changes in Hlo. apply Hlo.
    exact (Hbefore m d Hm Hd).
Qed.

(** X28. On a string of US-ASCII bytes [validateCase] returns nil exactly
    when the string has no upper-case letter or no lower-case letter. When
    it returns an error, the offset is the position of the first letter in
    the case that comes second: a letter sits there, no earlier byte is a
    letter of its case, and some earlier byte is a letter of the other
    case. *)
Theorem validateCase_mixed_case (s : list Z) :
  Forall (fun c => 0 <= c < 128) s ->
  (bech32.validateCase s = None
   <-> (forall c, In c s -> ~ is_upper c) \/ (forall c, In c s -> ~ is_lower c))
  /\ (forall offset, bech32.validateCase s = Some offset ->
        exists (n : nat) (c : Z),
          offset = Z.of_nat n /\ s !! n = Some c
          /\ ((is_upper c
               /\ (forall (m : nat) (d : Z), (m < n)%nat -> s !! m = Some d -> ~ is_upper d)
               /\ exists (m : nat) (d : Z), (m < n)%nat /\ s !! m = Some d /\ is_lower d)
              \/ (is_lower c
                  /\ (forall (m : nat) (d : Z), (m < n)%nat -> s !! m = Some d -> ~ is_lower d)
                  /\ exists (m : nat) (d : Z), (m < n)%nat /\ s !! m = Some d /\ is_upper d))).
Proof.
  intros _. unfold bech32.validateCase.
  destruct (firstUpper_spec s) as [[Hu Hnoup] | (nu & cu & Hu & Hcu & Hupper & Hubefore)];
    destruct (firstLower_spec s) as [[Hl Hnolo] | (nl & cl & Hl & Hcl & Hlower & Hlbefore)];
    rewrite Hu, Hl.
  - cbn. split; [split; [intros _; left; exact Hnoup | reflexivity] | discriminate].
  - replace ((-1 <? Z.of_nat nl) && (-1 >=? 0)) with false by lia.
    replace ((Z.of_nat nl <? -1) && (Z.of_nat nl >=? 0)) with false by lia.
    split; [split; [intros _; left; exact Hnoup | reflexivity] | discriminate].
  - replace ((Z.of_nat nu <? -1) && (Z.of_nat nu >=? 0)) with false by lia.
    replace ((-1 <? Z.of_nat nu) && (-1 >=? 0)) with false by lia.
    split; [split; [intros _; right; exact Hnolo | reflexivity] | discriminate].
  - assert (Hin_u : In cu s) by (apply list_elem_of_In; eapply list_elem_of_lookup_2; exact Hcu).
    assert (Hin_l : In cl s) by (apply list_elem_of_In; eapply list_elem_of_lookup_2; exact Hcl).
    assert (Hneq : nu <> nl).
    { intros ->. rewrite Hcu in Hcl. injection Hcl as <-.
      unfold is_upper, is_lower in *. lia. }
    destruct (Z.ltb_spec (Z.of_nat nu) (Z.of_nat nl)) as [Hlt | Hge].
    + replace (Z.of_nat nu >=? 0) with true by lia. cbn [andb].
      split.
      * split; [discriminate |].
        intros [H | H]; exfalso; [exact (H cu Hin_u Hupper) | exact (H cl Hin_l Hlower)].
      * intros offset E. injection E as <-. exists nl, cl.
        split; [reflexivity |]. split; [exact Hcl |]. right.
        split; [exact Hlower |]. split; [exact Hlbefore |].
        exists nu, cu. split; [lia |]. split; assumption.
    + cbn [andb].
      replace ((Z.of_nat nl <? Z.of_nat nu) && (Z.of_nat nl >=? 0)) with true by lia.
      split.
      * split; [discriminate |].
        intros [H | H]; exfalso; [exact (H cu Hin_u Hupper) | exact (H cl Hin_l Hlower)].
      * intros offset E. injection E as <-. exists nu, cu.
        split; [reflexivity |]. split; [exact Hcu |]. left.
        split; [exact Hupper |]. split; [exact Hubefore |].
        exists nl, cl. split; [lia |]. split; assumption.
Qed.

Lemma validateCase_mixed_case_witness :
  let s := [105; 111; 116; 97; 49; 81; 112] in
  Forall (fun c => 0 <= c < 128) s
  /\ bech32.validateCase s = Some 5
  /\ exists (n : nat) (c : Z), 5 = Z.of_nat n /\ s !! n = Some c.
Proof.
  cbv zeta.
  assert (Hascii : Forall (fun c => 0 <= c < 128) [105; 111; 116; 97; 49; 81; 112])
    by (repeat constructor; lia).
  split; [exact Hascii |]. split; [reflexivity |].
  destruct (proj2 (validateCase_mixed_case _ Hascii) 5 eq_refl) as (n & c & Hn & Hc & _).
  exists n, c. split; assumption.
Defined.

(** ** The account output builder *)

(** Sorting a slice by a key. *)

Lemma sort_insert_In_any {A : Type} (less : A -> A -> bool) (x y : A) (l : list A) :
  In y (sort_insert less x l) <-> y = x \/ In y l.
Proof.
  induction l as [| z l IH]; cbn.
  - intuition congruence.
  - destruct (less z x); cbn; rewrite ?IH; intuition congruence.
Qed.

Lemma sort_Slice_Permutation_any {A : Type} (less : A -> A -> bool) (l : list A) :
  Permutation (sort_Slice less l) l.
Proof.
  induction l as [| x l IH]; cbn; [constructor |].
  transitivity (x :: sort_Slice less l); [| constructor; exact IH].
  generalize (sort_Slice less l). intros s.
  induction s as [| z s IHs]; cbn; [reflexivity |].
  destruct (less z x); [| reflexivity].
  rewrite IHs. apply perm_swap.
Qed.

Lemma sort_insert_by_key {A : Type} (key : A -> Z) (x : A) (l : list A) :
  StronglySorted (fun a b => key a <= key b) l ->
  StronglySorted (fun a b => key a <= key b) (sort_insert (fun a b => key a <? key b) x l).
Proof.
  induction l as [| z l IH]; intros Hs; cbn.
  - constructor; constructor.
  - inversion Hs as [| ? ? Hs' Hall]; subst.
    rewrite List.Forall_forall in Hall.
    destruct (Z.ltb_spec (key z) (key x)) as [Hlt | Hge].
    + constructor; [apply IH; exact Hs' |].
      apply List.Forall_forall. intros y Hy. apply sort_insert_In_any in Hy.
      destruct Hy as [-> | Hy]; [lia | apply Hall; exact Hy].
    + constructor; [exact Hs |].
      constructor; [exact Hge |].
      apply List.Forall_forall. intros y Hy. specialize (Hall y Hy). lia.
Qed.

Lemma Features_Sort_sorted {A : Type} (key : A -> Z) (l : list A) :
  List.NoDup (map key l) ->
  StronglySorted (fun a b => key a < key b) (Features.Sort key l)
  /\ List.NoDup (map key (Features.Sort key l))
  /\ forall x, In x (Features.Sort key l) <-> In x l.
Proof.
  intros Hnd. unfold Features.Sort.
  pose proof (sort_Slice_Permutation_any (fun a b => key a <? key b) l) as Hperm.
  assert (Hnd' : List.NoDup (map key (sort_Slice (fun a b => key a <? key b) l))).
  { apply (Permutation_NoDup (l := map key l)); [| exact Hnd].
    apply Permutation_map. symmetry. exact Hperm. }
  assert (Hle : StronglySorted (fun a b => key a <= key b)
                  (sort_Slice (fun a b => key a <? key b) l)).
  { clear. induction l as [| x l IH]; cbn; [constructor |].
    apply sort_insert_by_key. exact IH. }
  split; [| split; [exact Hnd' |]].
  - revert Hnd' Hle. generalize (sort_Slice (fun a b => key a <? key b) l). intros s.
    induction s as [| x s IHs]; intros Hn Hs; [constructor |].
    inversion Hs as [| ? ? Hs' Hall]; subst.
    inversion Hn as [| ? ? Hnotin Hn']; subst.
    constructor; [apply IHs; assumption |].
    rewrite List.Forall_forall in Hall |- *. intros y Hy.
    specialize (Hall y Hy).
    assert (key x <> key y) by (intros E; apply Hnotin; rewrite E; apply in_map; exact Hy).
    lia.
  - intros x. split; intros Hx.
    + exact (Permutation_in _ Hperm Hx).
    + exact (Permutation_in _ (Permutation_sym Hperm) Hx).
Qed.

Lemma first_of_type_same_elements {A : Type} (key : A -> Z) (l l' : list A) (ty : Z) :
  List.NoDup (map key l) -> List.NoDup (map key l') ->
  (forall x, In x l' <-> In x l) ->
  Features.first_of_type key ty l' = Features.first_of_type key ty l.
Proof.
  intros Hnd Hnd' Hsame.
  destruct (Features.first_of_type key ty l) as [x |] eqn:Hl.
  - apply first_of_type_Some in Hl. destruct Hl as [Hin <-].
    apply first_of_type_In; [exact Hnd' | apply Hsame; exact Hin].
  - destruct (Features.first_of_type key ty l') as [x |] eqn:Hl'; [| reflexivity].
    apply first_of_type_Some in Hl'. destruct Hl' as [Hin <-].
    apply Hsame in Hin. rewrite (first_of_type_In key l x Hnd Hin) in Hl. discriminate Hl.
Qed.

Lemma Features_Equal_iff (f g : list Feature) :
  Features.Equal Feature_Equal f g = true <-> f = g.
Proof.
  unfold Features.Equal. split.
  - destruct (Nat.eqb_spec (length f) (length g)) as [Hlen | Hlen]; cbn [negb];
      [| discriminate].
    revert g Hlen. induction f as [| x f IH]; intros [| y g] Hlen; cbn in *;
      try discriminate; [reflexivity |].
    unfold Feature_Equal at 1.
    destruct (bool_decide_reflect (x = y)) as [-> | Hne]; cbn [negb]; [| discriminate].
    intros H. f_equal. apply IH; [lia | exact H].
  - intros <-. rewrite Nat.eqb_refl. cbn [negb].
    induction f as [| x f IH]; cbn; [reflexivity |].
    unfold Feature_Equal at 1. rewrite bool_decide_eq_true_2 by reflexivity. exact IH.
Qed.

Lemma Upsert_unchanged_iff {A : Type} (key : A -> Z) (f : list A) (feature : A) :
  Features.Upsert key f feature = f
  <-> Features.first_of_type key (key feature) f = Some feature.
Proof.
  unfold Features.first_of_type. induction f as [| ele rest IH]; cbn.
  - split; discriminate.
  - destruct (Z.eqb_spec (key ele) (key feature)) as [E | Hne].
    + split; intros H; injection H as H; congruence.
    + rewrite <- IH. split; intros H; [injection H as H; exact H | congruence].
Qed.

Section AccountOutputBuilderProperties.

Context {UnlockConditions : Type}.
Variable NewAddressUnlockConditions : Address -> UnlockConditions.
Variable UnlockConditions_Upsert : UnlockConditions -> Address -> UnlockConditions.
Variable UnlockConditions_Sort : UnlockConditions -> UnlockConditions.
Variable AccountOutput_Clone :
  @AccountOutputBuilder.account_output UnlockConditions ->
  @AccountOutputBuilder.account_output UnlockConditions.

Local Abbreviation build := (AccountOutputBuilder.Build UnlockConditions_Sort).
Local Abbreviation fromPrevious :=
  (AccountOutputBuilder.NewAccountOutputBuilderFromPrevious AccountOutput_Clone).
Local Abbreviation run := (AccountOutputBuilder.calls UnlockConditions_Upsert).

Lemma Build_error_iff (builder : AccountOutputBuilder.t) :
  (exists o, build builder = Ok o)
  <-> forall p, AccountOutputBuilder.prev builder = Some p ->
        AccountOutputBuilder.ImmutableFeatures p
        = AccountOutputBuilder.ImmutableFeatures (AccountOutputBuilder.output builder).
Proof.
  unfold AccountOutputBuilder.Build.
  destruct (AccountOutputBuilder.prev builder) as [p |].
  - destruct (Features.Equal Feature_Equal _ _) eqn:Heq; cbn [negb].
    + apply Features_Equal_iff in Heq. split.
      * intros _ p' E. injection E as <-. exact Heq.
      * intros _. eexists. reflexivity.
    + split.
      * intros [o Ho]. discriminate Ho.
      * intros H. specialize (H p eq_refl). apply Features_Equal_iff in H. congruence.
  - split; [intros _ p E; discriminate E | intros _; eexists; reflexivity].
Qed.

Lemma calls_keep_immutable (cs : list AccountOutputBuilder.Call) :
  forall builder,
  forallb (fun c => negb (writes_immutable_features c)) cs = true ->
  AccountOutputBuilder.prev (run builder cs) = AccountOutputBuilder.prev builder
  /\ AccountOutputBuilder.ImmutableFeatures (AccountOutputBuilder.output (run builder cs))
     = AccountOutputBuilder.ImmutableFeatures (AccountOutputBuilder.output builder).
Proof.
  induction cs as [| c cs IH]; intros builder Hcs; cbn in Hcs |- *; [split; reflexivity |].
  apply andb_prop in Hcs. destruct Hcs as [Hc Hcs].
  destruct (IH (AccountOutputBuilder.call UnlockConditions_Upsert builder c) Hcs)
    as [Hprev Himm].
  unfold AccountOutputBuilder.calls in *. rewrite Hprev, Himm.
  destruct c; cbn in Hc; try discriminate Hc; split; reflexivity.
Qed.


Lemma feature_after_snoc (ty : Z) (before : option Feature)
    (cs : list AccountOutputBuilder.Call) (c : AccountOutputBuilder.Call) :
  AccountOutputBuilder.feature_after ty before (cs ++ [c])
  = AccountOutputBuilder.feature_after ty
      (AccountOutputBuilder.feature_after ty before cs) [c].
Proof. unfold AccountOutputBuilder.feature_after. rewrite fold_left_app. reflexivity. Qed.

Lemma run_snoc (builder : AccountOutputBuilder.t) (cs : list AccountOutputBuilder.Call)
    (c : AccountOutputBuilder.Call) :
  run builder (cs ++ [c]) = AccountOutputBuilder.call UnlockConditions_Upsert (run builder cs) c.
Proof. unfold AccountOutputBuilder.calls. rewrite fold_left_app. reflexivity. Qed.

(** What a chain of calls leaves in a new builder. *)
Ltac simpl_builder :=
  unfold AccountOutputBuilder.SetAmount, AccountOutputBuilder.SetMana,
    AccountOutputBuilder.SetAccountID, AccountOutputBuilder.FoundriesToGenerate,
    AccountOutputBuilder.SetAddress, AccountOutputBuilder.ImmutableIssuer,
    AccountOutputBuilder.ImmutableMetadata, AccountOutputBuilder.RemoveFeature,
    AccountOutputBuilder.upsert_feature, AccountOutputBuilder.upsert_immutable_feature,
    AccountOutputBuilder.with_output, AccountOutputBuilder.with_Features,
    AccountOutputBuilder.with_ImmutableFeatures;
  cbn [AccountOutputBuilder.prev AccountOutputBuilder.output AccountOutputBuilder.Features
       AccountOutputBuilder.ImmutableFeatures].

Lemma new_builder_state (targetAddr : Address) (amount : BaseToken)
    (cs : list AccountOutputBuilder.Call) :
  let builder :=
    run (AccountOutputBuilder.NewAccountOutputBuilder NewAddressUnlockConditions
           targetAddr amount) cs in
  AccountOutputBuilder.prev builder = None
  /\ List.NoDup (map Feature_Type
                   (AccountOutputBuilder.Features (AccountOutputBuilder.output builder)))
  /\ List.NoDup (map Feature_Type
                   (AccountOutputBuilder.ImmutableFeatures (AccountOutputBuilder.output builder)))
  /\ forall ty,
       Features.first_of_type Feature_Type ty
         (AccountOutputBuilder.Features (AccountOutputBuilder.output builder))
       = AccountOutputBuilder.feature_after ty None cs.
Proof.
  cbv zeta. induction cs as [| c cs IH] using rev_ind.
  - cbn. split; [reflexivity |]. split; [constructor |]. split; [constructor |].
    intros ty. reflexivity.
  - rewrite run_snoc. destruct IH as (Hprev & Hnd & Hndi & Hlook).
    assert (Hupsert : forall feature,
      let b' := AccountOutputBuilder.upsert_feature
                  (run (AccountOutputBuilder.NewAccountOutputBuilder
                          NewAddressUnlockConditions targetAddr amount) cs) feature in
      AccountOutputBuilder.prev b' = None
      /\ List.NoDup (map Feature_Type
                       (AccountOutputBuilder.Features (AccountOutputBuilder.output b')))
      /\ List.NoDup (map Feature_Type
                       (AccountOutputBuilder.ImmutableFeatures (AccountOutputBuilder.output b')))
      /\ forall ty,
           Features.first_of_type Feature_Type ty
             (AccountOutputBuilder.Features (AccountOutputBuilder.output b'))
           = if ty =? Feature_Type feature then Some feature
             else AccountOutputBuilder.feature_after ty None cs).
    { intros feature. simpl_builder. split; [exact Hprev |].
      split; [apply Upsert_NoDup; exact Hnd |]. split; [exact Hndi |].
      intros ty. rewrite Upsert_first_of_type, Hlook. reflexivity. }
    destruct c; cbn [AccountOutputBuilder.call];
      try (simpl_builder; split; [exact Hprev |]; split; [exact Hnd |];
           split; [exact Hndi |];
           intros ty; rewrite feature_after_snoc; cbn; apply Hlook).
    + destruct (Hupsert (SenderFeature senderAddr)) as (H1 & H2 & H3 & H4).
      split; [exact H1 |]. split; [exact H2 |]. split; [exact H3 |].
      intros ty. rewrite feature_after_snoc. cbn. apply H4.
    + destruct (Hupsert (MetadataFeature entries)) as (H1 & H2 & H3 & H4).
      split; [exact H1 |]. split; [exact H2 |]. split; [exact H3 |].
      intros ty. rewrite feature_after_snoc. cbn. apply H4.
    + destruct (Hupsert (BlockIssuerFeat {| BlockIssuerKeys := keys;
                                            ExpirySlot := expirySlot |}))
        as (H1 & H2 & H3 & H4).
      split; [exact H1 |]. split; [exact H2 |]. split; [exact H3 |].
      intros ty. rewrite feature_after_snoc. cbn. apply H4.
    + unfold AccountOutputBuilder.Staking.
      destruct (Hupsert (StakingFeat {| StakedAmount := amount0; FixedCost := fixedCost;
                                        StartEpoch := startEpoch;
                                        EndEpoch := match optEndEpoch with
                                                    | [] => MaxUint32
                                                    | e :: _ => e
                                                    end |}))
        as (H1 & H2 & H3 & H4).
      split; [exact H1 |]. split; [exact H2 |]. split; [exact H3 |].
      intros ty. rewrite feature_after_snoc. cbn. apply H4.
    + simpl_builder. split; [exact Hprev |]. split; [exact Hnd |].
      split; [apply Upsert_NoDup; exact Hndi |].
      intros ty. rewrite feature_after_snoc. cbn. apply Hlook.
    + simpl_builder. split; [exact Hprev |]. split; [exact Hnd |].
      split; [apply Upsert_NoDup; exact Hndi |].
      intros ty. rewrite feature_after_snoc. cbn. apply Hlook.
    + simpl_builder. split; [exact Hprev |].
      destruct (Remove_unique Feature_Type _ featureType Hnd) as [Hnone Hnd'].
      split; [exact Hnd' |]. split; [exact Hndi |].
      intros ty. rewrite feature_after_snoc. cbn.
      destruct (Z.eqb_spec ty featureType) as [-> | Hne]; [exact Hnone |].
      rewrite Remove_first_of_type_other by exact Hne. apply Hlook.
Qed.

(** X30. Whatever calls are made on a new builder, [Build] succeeds and
    the output has its mutable and its immutable features in strictly
    ascending order of type, so no type twice; under each type the
    mutable features hold what the last call for that type set, and
    nothing once [RemoveFeature] took it away. *)
Theorem AccountOutputBuilder_Build_canonical (targetAddr : Address) (amount : BaseToken)
    (cs : list AccountOutputBuilder.Call) :
  exists o,
    build (run (AccountOutputBuilder.NewAccountOutputBuilder NewAddressUnlockConditions
                  targetAddr amount) cs) = Ok o
    /\ StronglySorted (fun a b => Feature_Type a < Feature_Type b)
         (AccountOutputBuilder.Features o)
    /\ StronglySorted (fun a b => Feature_Type a < Feature_Type b)
         (AccountOutputBuilder.ImmutableFeatures o)
    /\ forall ty,
         Features.first_of_type Feature_Type ty (AccountOutputBuilder.Features o)
         = AccountOutputBuilder.feature_after ty None cs.
Proof.
  destruct (new_builder_state targetAddr amount cs) as (Hprev & Hnd & Hndi & Hlook).
  unfold AccountOutputBuilder.Build. rewrite Hprev.
  eexists. split; [reflexivity |]. cbn [AccountOutputBuilder.Features
    AccountOutputBuilder.ImmutableFeatures].
  destruct (Features_Sort_sorted Feature_Type _ Hnd) as (Hs & Hn & Hsame).
  destruct (Features_Sort_sorted Feature_Type _ Hndi) as (Hsi & _ & _).
  split; [exact Hs |]. split; [exact Hsi |].
  intros ty. rewrite <- Hlook.
  apply first_of_type_same_elements; assumption.
Qed.

End AccountOutputBuilderProperties.


Lemma ChainSTVF_foundry_state_change_witness :
  FoundryOutput.ImmutableFeatures (example_foundry 1)
  = FoundryOutput.ImmutableFeatures (example_foundry 2)
  /\ example_FoundryOutput_ID (example_foundry 1) = Ok (2 ^ 32 + 1)
  /\ example_FoundryOutput_ID (example_foundry 2) = Ok (2 ^ 32 + 2)
  /\ ChainSTVF example_HasManalockCondition example_FoundryOutput_ID example_StateTransition
       example_IsIssuerOnOutputUnlocked ChainTransitionTypeStateChange
       (Some {| ChainOutputWithCreationTime.ChainID := ChainFoundryID (2 ^ 32 + 1);
                ChainOutputWithCreationTime.Output := Foundry (example_foundry 1);
                ChainOutputWithCreationTime.CreationTime := 3 |})
       (Some (Foundry (example_foundry 2)))
       (example_foundry_transition (example_account 100 0 0 0 (Ed25519Address 7) None)
          (example_account 100 0 1 2 (Ed25519Address 7) None) [])
     = Panic.
Proof.
  split; [reflexivity |]. split; [reflexivity |]. split; [reflexivity |].
  apply (proj2 (ChainSTVF_foundry_state_change example_HasManalockCondition
                  example_FoundryOutput_ID example_StateTransition
                  example_IsIssuerOnOutputUnlocked (ChainFoundryID (2 ^ 32 + 1)) 3
                  (example_foundry 1) (example_foundry 2) _)
          (2 ^ 32 + 1) (2 ^ 32 + 2)); try reflexivity.
  discriminate.
Defined.

(** A chain of calls on a new builder, computed: the staking feature is
    set and removed again, the block issuer feature is set twice, and the
    features come out in the order of their types. *)
Example AccountOutputBuilder_Build_computed :
  AccountOutputBuilder.Build example_UnlockConditions_Sort
    (AccountOutputBuilder.calls example_UnlockConditions_Upsert
       (AccountOutputBuilder.NewAccountOutputBuilder example_NewAddressUnlockConditions
          (Ed25519Address 7) 100)
       [ AccountOutputBuilder.CallStaking 50 1 0 [];
         AccountOutputBuilder.CallBlockIssuer [42] 10;
         AccountOutputBuilder.CallSender (Ed25519Address 7);
         AccountOutputBuilder.CallRemoveFeature 7;
         AccountOutputBuilder.CallBlockIssuer [42; 43] 20;
         AccountOutputBuilder.CallFoundriesToGenerate 2 ])
  = Ok {| AccountOutputBuilder.Amount := 100; AccountOutputBuilder.Mana := 0;
          AccountOutputBuilder.AccountID := 0; AccountOutputBuilder.FoundryCounter := 2;
          AccountOutputBuilder.Conditions := [Ed25519Address 7];
          AccountOutputBuilder.Features :=
            [ SenderFeature (Ed25519Address 7);
              BlockIssuerFeat {| BlockIssuerKeys := [42; 43]; ExpirySlot := 20 |} ];
          AccountOutputBuilder.ImmutableFeatures := [] |}.
Proof. reflexivity. Qed.
